(** * The upstream node processor of ote-stack

    A shallow embedding of [pkg/controllermanager/node_processor.go]:
    the handler of node reports ([handleNodeReport]), its two loops
    ([handleNodeUpdateMap], [handleNodeDelMap]), the upsert engine
    ([CreateOrUpdateNode], [CreateNode], [UpdateNode]), the version gate
    ([checkNodeEdgeVersion]) and [DeleteNode].

    The Kubernetes client behind [u.ctx.K8sClient.CoreV1().Nodes()] is an
    interface in the source and a type class here ([NodeInterface]); the
    processor is written once over it, as a state-passing program that can
    return, panic (nil pointer dereference) or run out of fuel (the
    unbounded recursion of [UpdateNode]). *)

From Stdlib Require Import ZArith Lia String Ascii.
From stdpp Require Import base tactics option list gmap strings pretty.

Local Open Scope string_scope.
Local Open Scope Z_scope.
Local Open Scope list_scope.

(** ** Go values *)

(** [metav1.StatusReason] is a string type; the three reasons the registry
    model and the processor use. *)
Definition StatusReason := string.
Definition StatusReasonNotFound : StatusReason := "NotFound".
Definition StatusReasonConflict : StatusReason := "Conflict".
Definition StatusReasonAlreadyExists : StatusReason := "AlreadyExists".

(** The Go [error] values that flow through the processor. *)
Inductive error : Type :=
  | StatusError (reason : StatusReason)        (* *errors.StatusError of the API machinery *)
  | OtherError (msg : string)                  (* any other error of a collaborator *)
  | NumError (func num : string)               (* *strconv.NumError *)
  | Errorf (format : string) (args : list string)  (* fmt.Errorf with %s arguments *)
  | ErrorfV (format : string) (err : error).   (* fmt.Errorf with one %v error argument *)

Global Instance error_eq_dec : EqDecision error.
Proof. solve_decision. Defined.

(** A Go result pair [(T, error)] where exactly one side is meaningful. *)
Inductive result (A : Type) : Type :=
  | Ok (a : A)
  | Err (e : error).
Arguments Ok {A} a.
Arguments Err {A} e.

Global Instance result_eq_dec `{EqDecision A} : EqDecision (result A).
Proof. solve_decision. Defined.

(** [errors.IsNotFound] and [errors.IsConflict] look at the reason of a
    status error and are false on every other error. *)
Definition ReasonForError (err : error) : StatusReason :=
  match err with
  | StatusError reason => reason
  | _ => ""
  end.

Definition IsNotFound (err : error) : bool :=
  bool_decide (ReasonForError err = StatusReasonNotFound).

Definition IsConflict (err : error) : bool :=
  bool_decide (ReasonForError err = StatusReasonConflict).

(** ** strconv.Atoi

    An optional sign, then at least one decimal digit and nothing else;
    the value has to fit the [int] type. *)
Definition intSize : Z := 64.

Definition digit (ch : ascii) : option Z :=
  let d := Z.of_N (N_of_ascii ch) - 48 in
  if decide (0 ≤ d ≤ 9) then Some d else None.

Fixpoint digits (n : Z) (s : string) : option Z :=
  match s with
  | EmptyString => Some n
  | String ch rest =>
      match digit ch with
      | Some d => digits (n * 10 + d) rest
      | None => None
      end
  end.

Definition Atoi (s : string) : result Z :=
  let syntaxError := Err (NumError "Atoi" s) in
  let rangeError := Err (NumError "Atoi" s) in
  match s with
  | EmptyString => syntaxError
  | String s0 rest =>
      let neg := bool_decide (s0 = "-"%char) in
      let body := if bool_decide (s0 = "-"%char ∨ s0 = "+"%char) then rest else s in
      match body with
      | EmptyString => syntaxError
      | _ =>
          match digits 0 body with
          | None => syntaxError
          | Some n =>
              let v := if neg then - n else n in
              if decide (- 2 ^ (intSize - 1) ≤ v < 2 ^ (intSize - 1))
              then Ok v else rangeError
          end
      end
  end.

(** ** Nodes *)

(** The part of [metav1.ObjectMeta] the processor reads or writes. *)
Record ObjectMeta : Type := mkObjectMeta {
  Name : string;
  Labels : gmap string string;
  ResourceVersion : string
}.

(** [corev1.Node]: the embedded object meta and the rest of the object
    (spec, status), which the processor only forwards. *)
Record Node : Type := mkNode {
  Meta : ObjectMeta;
  Rest : string
}.

Global Instance ObjectMeta_eq_dec : EqDecision ObjectMeta.
Proof. solve_decision. Defined.
Global Instance Node_eq_dec : EqDecision Node.
Proof. solve_decision. Defined.

(** [m[key]] on a Go map of strings: the zero value when the key is
    missing (or the map is nil). *)
Definition index (m : gmap string string) (key : string) : string :=
  default "" (m !! key).

(** [node.ResourceVersion = rv] *)
Definition setResourceVersion (node : Node) (rv : string) : Node :=
  {| Meta := {| Name := Name (Meta node);
                Labels := Labels (Meta node);
                ResourceVersion := rv |};
     Rest := Rest node |}.

(** [reporter.NodeResourceStatus]: the decoded report. A map is [None]
    when it is nil, and an entry is [None] when the pointer is nil. *)
Record NodeResourceStatus : Type := mkNodeResourceStatus {
  UpdateMap : option (gmap string (option Node));
  DelMap : option (gmap string (option Node));
  FullList : option (list (option Node))
}.

(** ** What the file takes from the rest of the repository and from Go

    [reporter.EdgeVersionLabel], [UniqueResourceName] and the layout of the
    JSON envelope live in other files; the order in which [range] visits a
    map is chosen by the Go runtime. They are parameters of the processor.
    [UniqueResourceName] gets a pointer to the object meta, so it returns
    the meta it leaves behind along with its error. *)
Record Externals : Type := mkExternals {
  EdgeVersionLabel : string;
  UniqueResourceName : ObjectMeta → ObjectMeta * option error;
  Unmarshal : list Byte.byte → result NodeResourceStatus;
  rangeOf : gmap string (option Node) → list (string * option Node);
  rangeOf_visits_each_entry_once : ∀ m, rangeOf m ≡ₚ map_to_list m
}.

(** ** The version gate *)
Section gate.
Context (ext : Externals).

(** [node.Labels[reporter.EdgeVersionLabel]] *)
Definition edgeVersion (node : Node) : string :=
  index (Labels (Meta node)) (EdgeVersionLabel ext).

Definition checkNodeEdgeVersion (node storedNode : Node) : option error :=
  if bool_decide (edgeVersion node = "" ∨ edgeVersion storedNode = "")
  then Some (Errorf "node edge-version is empty" [])
  else
    match Atoi (edgeVersion node) with
    | Err err => Some err
    | Ok nodeVersion =>
        match Atoi (edgeVersion storedNode) with
        | Err err => Some err
        | Ok storedNodeVersion =>
            if decide (nodeVersion ≤ storedNodeVersion)
            then Some (Errorf
              "Current node edge-version(%s) is less than or equal to ETCD's node edge-version(%s)"
              [edgeVersion node; edgeVersion storedNode])
            else None
        end
    end.
End gate.


(** ** The processor's effects

    A computation runs on the state of the outside world ([W], owned by the
    client) and the klog statements it executes, in order. It returns,
    panics, or is still running when the fuel for [UpdateNode]'s recursion
    is used up.

    [KErrorf] is a [klog.Errorf]: its line is always written. [KInfof] is a
    [klog.V(3).Infof]: the statement is recorded with its level, and its
    line is written only when klog runs at verbosity 3 or more ([written]
    gives the lines that reach the log at a verbosity). *)
Inductive LogEntry : Type :=
  | KErrorf (format : string) (err : error)     (* klog.Errorf(format, err) *)
  | KInfof (format : string) (name : string).   (* klog.V(3).Infof(format, name) *)

Global Instance LogEntry_eq_dec : EqDecision LogEntry.
Proof. solve_decision. Defined.

Record State (W : Type) : Type := mkState {
  world : W;
  klog : list LogEntry
}.
Arguments mkState {W} world klog.
Arguments world {W} s.
Arguments klog {W} s.

Inductive Outcome (W A : Type) : Type :=
  | Returns (a : A) (s : State W)
  | Panics (s : State W)
  | OutOfFuel.
Arguments Returns {W A} a s.
Arguments Panics {W A} s.
Arguments OutOfFuel {W A}.

Definition M (W A : Type) : Type := State W → Outcome W A.

Definition ret {W A} (a : A) : M W A := λ s, Returns a s.

Definition bind {W A B} (m : M W A) (k : A → M W B) : M W B :=
  λ s, match m s with
       | Returns a s' => k a s'
       | Panics s' => Panics s'
       | OutOfFuel => OutOfFuel
       end.

Notation "'let*' x ':=' m 'in' k" := (bind m (λ x, k))
  (at level 10, x name, m at level 100, k at level 200,
   format "'[v' 'let*'  x  ':='  m  'in' '/' k ']'").
Notation "m ';;' k" := (bind m (λ _, k))
  (at level 100, k at level 200, right associativity).

(** A nil pointer dereference. *)
Definition panic {W A} : M W A := λ s, Panics s.

(** The recursion went deeper than the fuel allows. *)
Definition outOfFuel {W A} : M W A := λ _, OutOfFuel.

(** One call of the client: it acts on the world only. *)
Definition call {W A} (op : W → A * W) : M W A :=
  λ s, let '(a, w) := op (world s) in Returns a (mkState w (klog s)).

Definition klog_Errorf {W} (format : string) (err : error) : M W unit :=
  λ s, Returns () (mkState (world s) (klog s ++ [KErrorf format err])).

(** [klog.V(3).Infof(format, name)]: the statement is executed whatever the
    verbosity; [written] applies the guard of [V(3)]. *)
Definition klog_Infof {W} (format : string) (name : string) : M W unit :=
  λ s, Returns () (mkState (world s) (klog s ++ [KInfof format name])).

(** The lines that reach the log when klog runs at verbosity [v]: every
    [Errorf], and the [V(3).Infof] lines when [3 ≤ v]. *)
Definition isWritten (v : Z) (entry : LogEntry) : bool :=
  match entry with
  | KErrorf _ _ => true
  | KInfof _ _ => bool_decide (3 ≤ v)
  end.

Definition written (v : Z) (log : list LogEntry) : list LogEntry :=
  filter (λ entry, isWritten v entry = true) log.

(** [for _, x := range l { body x }] where [body] ends in [continue] or
    falls through to the next entry. *)
Fixpoint forRange {W A} (l : list A) (body : A → M W unit) : M W unit :=
  match l with
  | [] => ret ()
  | x :: l' => body x;; forRange l' body
  end.

(** ** The client: [u.ctx.K8sClient.CoreV1().Nodes()] *)
Class NodeInterface (W : Type) : Type := mkNodeInterface {
  Get : string → W → result Node * W;
  Create : Node → W → result Node * W;
  Update : Node → W → result Node * W;
  Delete : string → W → option error * W
}.

(** ** The processor *)
Section processor.
Context {W : Type} `{!NodeInterface W} (ext : Externals).

(** GetNode will retrieve the requested node based on name. *)
Definition GetNode (node : Node) : M W (result Node) :=
  let* r := call (Get (Name (Meta node))) in
  match r with
  | Err err => ret (Err err)
  | Ok storedNode => ret (Ok storedNode)
  end.

(** CreateNode will create the given node. *)
Definition CreateNode (node : Node) : M W (option error) :=
  let* r := call (Create node) in
  match r with
  | Err err => ret (Some err)
  | Ok _ =>
      klog_Infof "Report node create event success: name(%s)" (Name (Meta node));;
      ret None
  end.

(** UpdateNode will update the given node. The assignment to
    [node.ResourceVersion] goes through the pointer, so the retry gets the
    node with the resource version of the previous round. *)
Fixpoint UpdateNode (fuel : nat) (node : Node) : M W (option error) :=
  match fuel with
  | O => outOfFuel
  | S fuel' =>
      let* r := GetNode node in
      match r with
      | Err err => ret (Some err)
      | Ok storedNode =>
          match checkNodeEdgeVersion ext node storedNode with
          | Some err => ret (Some err)
          | None =>
              let node := setResourceVersion node (ResourceVersion (Meta storedNode)) in
              let* r := call (Update node) in
              match r with
              | Err err =>
                  (* In the case of concurrency, try again if a conflict occurs *)
                  if IsConflict err then UpdateNode fuel' node
                  else ret (Some err)
              | Ok _ =>
                  klog_Infof "Report node update event success: name(%s)" (Name (Meta node));;
                  ret None
              end
          end
      end
  end.

(** CreateOrUpdateNode will update the given node or create it if does not exist. *)
Definition CreateOrUpdateNode (fuel : nat) (node : Node) : M W (option error) :=
  let* r := GetNode node in
  match r with
  | Err err =>
      (* If not found resource, create it. *)
      if IsNotFound err then CreateNode node
      else ret (Some err)
  | Ok _ => UpdateNode fuel node
  end.

(** DeleteNode will delete the given node. *)
Definition DeleteNode (node : Node) : M W (option error) :=
  call (Delete (Name (Meta node))).

(** [UniqueResourceName(&node.ObjectMeta)]: evaluating the argument
    dereferences [node]. *)
Definition withUniqueName (node : Node) : Node * option error :=
  let '(meta, err) := UniqueResourceName ext (Meta node) in
  ({| Meta := meta; Rest := Rest node |}, err).

Definition handleNodeDelMap_body (entry : string * option Node) : M W unit :=
  match entry.2 with
  | None => panic
  | Some node =>
      let '(node, err) := withUniqueName node in
      match err with
      | Some err =>
          klog_Errorf "handleNodeDelMap's UniqueResourceName method failed, %s" err
      | None =>
          let* err := DeleteNode node in
          match err with
          | Some err => klog_Errorf "Report node delete event failed : %v" err
          | None =>
              klog_Infof "Report node delete event success: name(%s)" (Name (Meta node))
          end
      end
  end.

Definition handleNodeDelMap (delMap : gmap string (option Node)) : M W unit :=
  forRange (rangeOf ext delMap) handleNodeDelMap_body.

Definition handleNodeUpdateMap_body (fuel : nat) (entry : string * option Node) : M W unit :=
  match entry.2 with
  | None => panic
  | Some node =>
      let '(node, err) := withUniqueName node in
      match err with
      | Some err =>
          klog_Errorf "handleNodeUpdateMap's UniqueResourceName method failed, %s" err
      | None =>
          let* err := CreateOrUpdateNode fuel node in
          match err with
          | Some err => klog_Errorf "Report node create or update event failed : %v" err
          | None => ret ()
          end
      end
  end.

Definition handleNodeUpdateMap (fuel : nat) (updateMap : gmap string (option Node)) : M W unit :=
  forRange (rangeOf ext updateMap) (handleNodeUpdateMap_body fuel).

(** NodeReportStatusDeserialize deserialize byte data to NodeReportStatus. *)
Definition NodeReportStatusDeserialize (b : list Byte.byte) : result NodeResourceStatus :=
  match Unmarshal ext b with
  | Err err => Err err
  | Ok nodeReportStatus => Ok nodeReportStatus
  end.

Definition handleNodeReport (fuel : nat) (b : list Byte.byte) : M W (option error) :=
  (* Deserialize byte data to NodeReportStatus *)
  match NodeReportStatusDeserialize b with
  | Err err => ret (Some (ErrorfV "NodeReportStatusDeserialize failed : %v" err))
  | Ok nrs =>
      (* handle FullList *)
      (match FullList nrs with
       | Some _ => ret ()   (* TODO:handle full node resource. *)
       | None => ret ()
       end);;
      (* handle UpdateMap *)
      (match UpdateMap nrs with
       | Some updateMap => handleNodeUpdateMap fuel updateMap
       | None => ret ()
       end);;
      (* handle DelMap *)
      (match DelMap nrs with
       | Some delMap => handleNodeDelMap delMap
       | None => ret ()
       end);;
      ret None
  end.
End processor.

(** ** A registry to run the processor against

    The node registry as the processor meets it through the client: a
    store of nodes keyed by name, the revision counter that stamps every
    write with a fresh resource version, and optimistic concurrency on
    [Update]. The registry is shared: [pending] scripts what happens around
    the calls still to come, one event per call (a failure of the call
    itself, or the write of another client that lands just before it);
    once the script is used up the calls are served undisturbed. [calls]
    is the history of the calls of this processor with their results. *)
Inductive WriterOp : Type :=
  | Put (node : Node)
  | Remove (name : string).

Inductive Event : Type :=
  | Quiet
  | Fault (err : error)
  | Writer (op : WriterOp).

Inductive Call : Type :=
  | CallGet (name : string) (r : result Node)
  | CallCreate (node : Node) (r : result Node)
  | CallUpdate (node : Node) (r : result Node)
  | CallDelete (name : string) (r : option error).

Global Instance Call_eq_dec : EqDecision Call.
Proof. solve_decision. Defined.

Record Cluster : Type := mkCluster {
  store : gmap string Node;
  revision : N;
  pending : list Event;
  calls : list Call
}.

(** The registry owns the resource version: it overwrites it on every
    write with the decimal of the new revision. *)
Definition stamp (rev : N) (node : Node) : Node :=
  setResourceVersion node (pretty rev).

Definition put (node : Node) (c : Cluster) : Cluster :=
  let rev := (revision c + 1)%N in
  mkCluster (<[Name (Meta node) := stamp rev node]> (store c)) rev (pending c) (calls c).

Definition remove (name : string) (c : Cluster) : Cluster :=
  mkCluster (delete name (store c)) (revision c + 1)%N (pending c) (calls c).

Definition apply (op : WriterOp) (c : Cluster) : Cluster :=
  match op with
  | Put node => put node c
  | Remove name => remove name c
  end.

(** A call arrives: the next event of the script happens. *)
Definition arrive (c : Cluster) : option error * Cluster :=
  match pending c with
  | [] => (None, c)
  | ev :: evs =>
      let c' := mkCluster (store c) (revision c) evs (calls c) in
      match ev with
      | Quiet => (None, c')
      | Fault err => (Some err, c')
      | Writer op => (None, apply op c')
      end
  end.

Definition record (k : Call) (c : Cluster) : Cluster :=
  mkCluster (store c) (revision c) (pending c) (calls c ++ [k]).

Definition cluster_Get (name : string) (c : Cluster) : result Node * Cluster :=
  let '(fault, c) := arrive c in
  let r := match fault with
           | Some err => Err err
           | None =>
               match store c !! name with
               | Some stored => Ok stored
               | None => Err (StatusError StatusReasonNotFound)
               end
           end in
  (r, record (CallGet name r) c).

Definition cluster_Create (node : Node) (c : Cluster) : result Node * Cluster :=
  let '(fault, c) := arrive c in
  let '(r, c) :=
    match fault with
    | Some err => (Err err, c)
    | None =>
        match store c !! Name (Meta node) with
        | Some _ => (Err (StatusError StatusReasonAlreadyExists), c)
        | None => (Ok (stamp (revision c + 1) node), put node c)
        end
    end in
  (r, record (CallCreate node r) c).

(** A write with a resource version succeeds only on the revision it was
    read at; one without a resource version is unconditional. *)
Definition cluster_Update (node : Node) (c : Cluster) : result Node * Cluster :=
  let '(fault, c) := arrive c in
  let '(r, c) :=
    match fault with
    | Some err => (Err err, c)
    | None =>
        match store c !! Name (Meta node) with
        | None => (Err (StatusError StatusReasonNotFound), c)
        | Some stored =>
            if bool_decide (ResourceVersion (Meta node) = ""
                            ∨ ResourceVersion (Meta node) = ResourceVersion (Meta stored))
            then (Ok (stamp (revision c + 1) node), put node c)
            else (Err (StatusError StatusReasonConflict), c)
        end
    end in
  (r, record (CallUpdate node r) c).

Definition cluster_Delete (name : string) (c : Cluster) : option error * Cluster :=
  let '(fault, c) := arrive c in
  let '(r, c) :=
    match fault with
    | Some err => (Some err, c)
    | None =>
        match store c !! name with
        | None => (Some (StatusError StatusReasonNotFound), c)
        | Some _ => (None, remove name c)
        end
    end in
  (r, record (CallDelete name r) c).

Global Instance cluster_nodes : NodeInterface Cluster :=
  {| Get := cluster_Get;
     Create := cluster_Create;
     Update := cluster_Update;
     Delete := cluster_Delete |}.

(** A registry under contention without end: every read finds [stored],
    every write is answered with a conflict. The world counts the calls. *)
Definition contended_nodes (stored : Node) : NodeInterface nat :=
  {| Get := λ _ n, (Ok stored, S n);
     Create := λ _ n, (Err (StatusError StatusReasonAlreadyExists), S n);
     Update := λ _ n, (Err (StatusError StatusReasonConflict), S n);
     Delete := λ _ n, (None, S n) |}.

(** ** Concrete parameters to run the processor on *)

(** Modelled from the spec: [UniqueResourceName] is declared in another
    file of the package. The spec asks for a key derived from the
    identifying metadata that is not empty, or identity resolution fails.
    This instance keeps the name and fails on the empty one. *)
Definition sampleUniqueResourceName (meta : ObjectMeta) : ObjectMeta * option error :=
  if bool_decide (Name meta = "")
  then (meta, Some (Errorf "resource name is empty" []))
  else (meta, None).

(** A decoder that fails on the empty input, as [json.Unmarshal] does, and
    decodes every other envelope to [nrs]. *)
Definition sampleUnmarshal (nrs : NodeResourceStatus) (b : list Byte.byte)
    : result NodeResourceStatus :=
  match b with
  | [] => Err (OtherError "unexpected end of JSON input")
  | _ => Ok nrs
  end.

Definition sampleExternals (nrs : NodeResourceStatus) : Externals :=
  {| EdgeVersionLabel := "edge-version";
     UniqueResourceName := sampleUniqueResourceName;
     Unmarshal := sampleUnmarshal nrs;
     rangeOf := map_to_list;
     rangeOf_visits_each_entry_once := λ m, reflexivity (map_to_list m) |}.

(** A node named [name] that reports edge-version [v]. *)
Definition nodeAt (name v : string) : Node :=
  {| Meta := {| Name := name;
                Labels := {[ "edge-version" := v ]};
                ResourceVersion := "" |};
     Rest := "" |}.

(** A node without labels. *)
Definition bareNode (name : string) : Node :=
  {| Meta := {| Name := name; Labels := ∅; ResourceVersion := "" |}; Rest := "" |}.

Definition emptyCluster : Cluster := mkCluster ∅ 0 [] [].

Definition start (c : Cluster) : State Cluster := mkState c [].

Definition report (upd del : list (string * option Node)) : NodeResourceStatus :=
  {| UpdateMap := Some (list_to_map upd);
     DelMap := Some (list_to_map del);
     FullList := None |}.

Definition envelope : list Byte.byte := [Byte.x7b; Byte.x7d].

(** ** The shape of a run of the upsert engine

    What [UpdateNode] and [CreateOrUpdateNode] ask of the registry, given
    the answers, and what they log and return. *)
Section runs.
Context (ext : Externals).

Definition withVersionOf (node stored : Node) : Node :=
  setResourceVersion node (ResourceVersion (Meta stored)).

Definition updateSuccess (node : Node) : LogEntry :=
  KInfof "Report node update event success: name(%s)" (Name (Meta node)).

Definition createSuccess (node : Node) : LogEntry :=
  KInfof "Report node create event success: name(%s)" (Name (Meta node)).

Inductive UpdateRun : Node → list Call → list LogEntry → option error → Prop :=
  | UpdateRun_read_failed node err :
      UpdateRun node [CallGet (Name (Meta node)) (Err err)] [] (Some err)
  | UpdateRun_rejected node stored err :
      checkNodeEdgeVersion ext node stored = Some err →
      UpdateRun node [CallGet (Name (Meta node)) (Ok stored)] [] (Some err)
  | UpdateRun_written node stored written :
      checkNodeEdgeVersion ext node stored = None →
      UpdateRun node
        [CallGet (Name (Meta node)) (Ok stored);
         CallUpdate (withVersionOf node stored) (Ok written)]
        [updateSuccess node] None
  | UpdateRun_write_failed node stored err :
      checkNodeEdgeVersion ext node stored = None →
      IsConflict err = false →
      UpdateRun node
        [CallGet (Name (Meta node)) (Ok stored);
         CallUpdate (withVersionOf node stored) (Err err)]
        [] (Some err)
  | UpdateRun_conflict node stored err tr lg res :
      checkNodeEdgeVersion ext node stored = None →
      IsConflict err = true →
      UpdateRun (withVersionOf node stored) tr lg res →
      UpdateRun node
        (CallGet (Name (Meta node)) (Ok stored)
           :: CallUpdate (withVersionOf node stored) (Err err) :: tr)
        lg res.

Inductive UpsertRun (node : Node) : list Call → list LogEntry → option error → Prop :=
  | UpsertRun_read_failed err :
      IsNotFound err = false →
      UpsertRun node [CallGet (Name (Meta node)) (Err err)] [] (Some err)
  | UpsertRun_created err created :
      IsNotFound err = true →
      UpsertRun node
        [CallGet (Name (Meta node)) (Err err); CallCreate node (Ok created)]
        [createSuccess node] None
  | UpsertRun_create_failed err err' :
      IsNotFound err = true →
      UpsertRun node
        [CallGet (Name (Meta node)) (Err err); CallCreate node (Err err')]
        [] (Some err')
  | UpsertRun_update stored tr lg res :
      UpdateRun node tr lg res →
      UpsertRun node (CallGet (Name (Meta node)) (Ok stored) :: tr) lg res.
End runs.

(** ** The shape of the two loops, entry by entry *)
Section entries.
Context (ext : Externals).

Definition identityFailed (handler : string) (err : error) : LogEntry :=
  KErrorf (handler +:+ "'s UniqueResourceName method failed, %s") err.

Definition upsertFailed (err : error) : LogEntry :=
  KErrorf "Report node create or update event failed : %v" err.

Definition deleteFailed (err : error) : LogEntry :=
  KErrorf "Report node delete event failed : %v" err.

Definition deleteSuccess (node : Node) : LogEntry :=
  KInfof "Report node delete event success: name(%s)" (Name (Meta node)).

(** The calls and the log lines of one entry of the update map. *)
Definition UpdateEntryRun (entry : string * option Node)
    (chunk : list Call * list LogEntry) : Prop :=
  match entry.2 with
  | None => False
  | Some node =>
      match withUniqueName ext node with
      | (_, Some err) =>
          chunk = ([], [identityFailed "handleNodeUpdateMap" err])
      | (node', None) =>
          ∃ res lg,
            UpsertRun ext node' chunk.1 lg res
            ∧ chunk.2 = lg ++ match res with
                              | Some err => [upsertFailed err]
                              | None => []
                              end
      end
  end.

(** The call and the log line of one entry of the delete map. *)
Definition DeleteEntryRun (entry : string * option Node)
    (chunk : list Call * list LogEntry) : Prop :=
  match entry.2 with
  | None => False
  | Some node =>
      match withUniqueName ext node with
      | (_, Some err) =>
          chunk = ([], [identityFailed "handleNodeDelMap" err])
      | (node', None) =>
          ∃ r,
            chunk = ([CallDelete (Name (Meta node')) r],
                     [match r with
                      | Some err => deleteFailed err
                      | None => deleteSuccess node'
                      end])
      end
  end.
End entries.

Definition isUpsertCall (k : Call) : Prop :=
  match k with
  | CallDelete _ _ => False
  | _ => True
  end.

Definition isDeleteCall (k : Call) : Prop :=
  match k with
  | CallDelete _ _ => True
  | _ => False
  end.

(** No entry of the map is a nil pointer. *)
Definition noNilEntry (m : option (gmap string (option Node))) : Prop :=
  match m with
  | Some m => map_Forall (λ _ node, is_Some node) m
  | None => True
  end.

(** The dispatcher as the specification words it: the delete handler on
    every entry of the delete set, then the upsert engine on every entry of
    the update set. *)
Definition handleNodeReport_deletesFirst (ext : Externals) (fuel : nat)
    (b : list Byte.byte) : M Cluster (option error) :=
  match NodeReportStatusDeserialize ext b with
  | Err err => ret (Some (ErrorfV "NodeReportStatusDeserialize failed : %v" err))
  | Ok nrs =>
      (match DelMap nrs with
       | Some delMap => handleNodeDelMap ext delMap
       | None => ret ()
       end);;
      (match UpdateMap nrs with
       | Some updateMap => handleNodeUpdateMap ext fuel updateMap
       | None => ret ()
       end);;
      ret None
  end.

(** What a computation left behind. *)
Definition callsOf {A} (o : Outcome Cluster A) : list Call :=
  match o with
  | Returns _ s | Panics s => calls (world s)
  | OutOfFuel => []
  end.

Definition storeOf {A} (o : Outcome Cluster A) : gmap string Node :=
  match o with
  | Returns _ s | Panics s => store (world s)
  | OutOfFuel => ∅
  end.

Definition klogOf {A} (o : Outcome Cluster A) : list LogEntry :=
  match o with
  | Returns _ s | Panics s => klog s
  | OutOfFuel => []
  end.

(** [range] over a map that may be nil: a nil map has no entries. *)
Definition rangeOfNilable (ext : Externals)
    (m : option (gmap string (option Node))) : list (string * option Node) :=
  match m with
  | Some m => rangeOf ext m
  | None => []
  end.

(** The nodes of the entries that get past [UniqueResourceName], as they
    leave it. *)
Definition identified (ext : Externals)
    (l : list (string * option Node)) : list Node :=
  omap (λ entry : string * option Node,
          match entry.2 with
          | None => None
          | Some node =>
              match withUniqueName ext node with
              | (node', None) => Some node'
              | (_, Some _) => None
              end
          end) l.

(** The registry after the given nodes were written to it, one by one. *)
Definition clusterOf (nodes : list Node) : Cluster :=
  foldl (λ c node, put node c) emptyCluster nodes.

(** A script with [k] rounds of contention: each read is served, each
    write after it is answered with a conflict. *)
Definition contention (k : nat) : list Event :=
  concat (replicate k [Quiet; Fault (StatusError StatusReasonConflict)]).

(** The number of writes a history attempts through [Update]. *)
Fixpoint updateAttempts (tr : list Call) : nat :=
  match tr with
  | [] => 0
  | CallUpdate _ _ :: tr => S (updateAttempts tr)
  | _ :: tr => updateAttempts tr
  end.

(** ** Runs of submissions and the versions they commit *)

(** What reaches the registry, one node at a time: an entry of an update
    map, through the upsert engine, or an entry of a delete map. *)
Inductive Submission : Type :=
  | Upsert (node : Node)
  | Removal (node : Node).

Fixpoint submit (ext : Externals) (fuel : nat) (l : list Submission) : M Cluster unit :=
  match l with
  | [] => ret ()
  | Upsert node :: l => (CreateOrUpdateNode ext fuel node;; submit ext fuel l)
  | Removal node :: l => (DeleteNode node;; submit ext fuel l)
  end.

(** The node a call committed to the registry, if it did. *)
Definition commitOf (k : Call) : option Node :=
  match k with
  | CallCreate node (Ok _) | CallUpdate node (Ok _) => Some node
  | _ => None
  end.

(** The edge-versions committed for [name] in a history, in commit order. *)
Definition committed (ext : Externals) (name : string) (tr : list Call) : list string :=
  edgeVersion ext <$> filter (λ node, Name (Meta node) = name) (omap commitOf tr).

(** The same, since the last delete of [name] that went through. *)
Definition lineageStep (ext : Externals) (name : string)
    (acc : list string) (k : Call) : list string :=
  match k with
  | CallDelete name' None => if decide (name' = name) then [] else acc
  | _ =>
      match commitOf k with
      | Some node =>
          if decide (Name (Meta node) = name) then acc ++ [edgeVersion ext node] else acc
      | None => acc
      end
  end.

Definition lineage (ext : Externals) (name : string) (tr : list Call) : list string :=
  foldl (lineageStep ext name) [] tr.

(** Edge-versions that parse and go up strictly, one after the other. *)
Definition newer (a b : string) : Prop :=
  ∃ x y, Atoi a = Ok x ∧ Atoi b = Ok y ∧ x < y.

Fixpoint strictlyIncreasing (l : list string) : Prop :=
  match l with
  | [] => True
  | a :: l' =>
      match l' with
      | [] => True
      | b :: _ => newer a b
      end ∧ strictlyIncreasing l'
  end.

(** The lineage of every name goes up, and its last version is the one of
    the node the registry holds under the name. *)
Definition tracks (ext : Externals) (c : Cluster) (tr : list Call) : Prop :=
  ∀ name,
    strictlyIncreasing (lineage ext name tr)
    ∧ ∀ v, last (lineage ext name tr) = Some v →
           ∃ stored, store c !! name = Some stored ∧ edgeVersion ext stored = v.

(** Every node of the store carries a resource version the registry has
    given out: the decimal of a revision up to the current one. *)
Definition wellStamped (c : Cluster) : Prop :=
  ∀ name stored,
    store c !! name = Some stored →
    ∃ rev, (rev ≤ revision c)%N ∧ ResourceVersion (Meta stored) = pretty rev.

(** ** The contents of the registry after a report, computed directly

    The store and its revision after one node went through the upsert
    engine, or was deleted, with nothing else happening to the registry. *)
Definition upsertInto (ext : Externals) (contents : gmap string Node * N)
    (node : Node) : gmap string Node * N :=
  let '(m, rev) := contents in
  match m !! Name (Meta node) with
  | None => (<[Name (Meta node) := stamp (rev + 1) node]> m, (rev + 1)%N)
  | Some stored =>
      match checkNodeEdgeVersion ext node stored with
      | Some _ => (m, rev)
      | None =>
          (<[Name (Meta node) := stamp (rev + 1) (withVersionOf node stored)]> m,
           (rev + 1)%N)
      end
  end.

Definition removeFrom (contents : gmap string Node * N)
    (node : Node) : gmap string Node * N :=
  let '(m, rev) := contents in
  match m !! Name (Meta node) with
  | None => (m, rev)
  | Some _ => (delete (Name (Meta node)) m, (rev + 1)%N)
  end.

Definition afterReport (ext : Externals) (nrs : NodeResourceStatus)
    (contents : gmap string Node * N) : gmap string Node * N :=
  foldl removeFrom
    (foldl (upsertInto ext) contents
       (identified ext (rangeOfNilable ext (UpdateMap nrs))))
    (identified ext (rangeOfNilable ext (DelMap nrs))).

(** The successful writes of a history. *)
Definition commits (tr : list Call) : list Node := omap commitOf tr.

(** The number of entries of a map that may be nil. *)
Definition sizeNilable (m : option (gmap string (option Node))) : nat :=
  match m with
  | Some m => size m
  | None => 0
  end.

(** What becomes of the registry entry of a node's name when the node goes
    through the upsert engine at revision [rev], with nothing else
    happening: created, replaced when the gate accepts, kept otherwise. *)
Definition upsertedEntry (ext : Externals) (rev : N)
    (entry : option Node) (node : Node) : option Node :=
  match entry with
  | None => Some (stamp rev node)
  | Some stored =>
      match checkNodeEdgeVersion ext node stored with
      | Some _ => Some stored
      | None => Some (stamp rev (withVersionOf node stored))
      end
  end.

(** The registry holds a node under the name of [node], and the gate
    rejects [node] over it. *)
Definition turnedDown (ext : Externals) (m : gmap string Node) (node : Node) : Prop :=
  ∃ stored,
    m !! Name (Meta node) = Some stored
    ∧ is_Some (checkNodeEdgeVersion ext node stored).

(** ** A registry where nobody else writes

    The script may still make calls fail; it holds no write of another
    client. *)
Definition isWriter (ev : Event) : Prop :=
  match ev with
  | Writer _ => True
  | _ => False
  end.

Definition noWriter (c : Cluster) : Prop :=
  Forall (λ ev, ¬ isWriter ev) (pending c).

(** A call of the upsert engine that committed nothing. *)
Definition idleCall (k : Call) : Prop :=
  commitOf k = None ∧ isUpsertCall k.

(** What a run of the upsert engine on [node] did to the store, given its
    result [r] and its calls [tr]: nothing when it failed; when it
    succeeded, its last call committed [node] (up to the resource version)
    under its name, and if a node was stored there the gate had accepted
    [node] over it. *)
Definition upsertEffect (ext : Externals) (node : Node)
    (before after : gmap string Node) (r : option error) (tr : list Call) : Prop :=
  match r with
  | Some _ => after = before ∧ Forall idleCall tr
  | None =>
      ∃ tr0 k committedNode stamped,
        tr = tr0 ++ [k]
        ∧ Forall idleCall tr0
        ∧ commitOf k = Some committedNode
        ∧ isUpsertCall k
        ∧ Name (Meta committedNode) = Name (Meta node)
        ∧ edgeVersion ext committedNode = edgeVersion ext node
        ∧ after = <[Name (Meta node) := stamped]> before
        ∧ edgeVersion ext stamped = edgeVersion ext node
        ∧ match before !! Name (Meta node) with
          | None => True
          | Some stored => checkNodeEdgeVersion ext node stored = None
          end
  end.

(** * Properties *)

(** ** [strconv.Atoi] on examples *)
Example Atoi_12 : Atoi "12" = Ok 12. Proof. reflexivity. Qed.
Example Atoi_plus7 : Atoi "+007" = Ok 7. Proof. reflexivity. Qed.
Example Atoi_minus3 : Atoi "-3" = Ok (-3). Proof. reflexivity. Qed.
Example Atoi_empty : Atoi "" = Err (NumError "Atoi" ""). Proof. reflexivity. Qed.
Example Atoi_sign_only : Atoi "-" = Err (NumError "Atoi" "-"). Proof. reflexivity. Qed.
Example Atoi_letters : Atoi "1x" = Err (NumError "Atoi" "1x"). Proof. reflexivity. Qed.
Example Atoi_max : Atoi "9223372036854775807" = Ok 9223372036854775807.
Proof. reflexivity. Qed.
Example Atoi_overflow :
  Atoi "9223372036854775808" = Err (NumError "Atoi" "9223372036854775808").
Proof. reflexivity. Qed.

(** ** The registry, call by call *)

Lemma arrive_pending c : pending (arrive c).2 = tail (pending c).
Proof.
  unfold arrive. destruct (pending c) as [|[|err|[node|name]] evs] eqn:E; simpl; auto.
Qed.

Lemma arrive_calls c : calls (arrive c).2 = calls c.
Proof.
  unfold arrive. destruct (pending c) as [|[|err|[node|name]] evs]; reflexivity.
Qed.

Lemma arrive_quiet c : pending c = [] → arrive c = (None, c).
Proof. unfold arrive. intros ->. reflexivity. Qed.

Lemma cluster_Get_calls name c :
  calls (cluster_Get name c).2 = calls c ++ [CallGet name (cluster_Get name c).1].
Proof.
  unfold cluster_Get. pose proof (arrive_calls c) as H.
  destruct (arrive c) as [fault c1]. simpl in *. by rewrite H.
Qed.

Lemma cluster_Get_pending name c :
  pending (cluster_Get name c).2 = tail (pending c).
Proof.
  unfold cluster_Get. pose proof (arrive_pending c) as H.
  destruct (arrive c) as [fault c1]. simpl in *. done.
Qed.

Lemma cluster_Create_calls node c :
  calls (cluster_Create node c).2 = calls c ++ [CallCreate node (cluster_Create node c).1].
Proof.
  unfold cluster_Create. pose proof (arrive_calls c) as H.
  destruct (arrive c) as [[err|] c1]; simpl in *; [by rewrite H|].
  destruct (store c1 !! _); simpl; by rewrite H.
Qed.

Lemma cluster_Create_pending node c :
  pending (cluster_Create node c).2 = tail (pending c).
Proof.
  unfold cluster_Create. pose proof (arrive_pending c) as H.
  destruct (arrive c) as [[err|] c1]; simpl in *; [done|].
  destruct (store c1 !! _); simpl; done.
Qed.

Lemma cluster_Update_calls node c :
  calls (cluster_Update node c).2 = calls c ++ [CallUpdate node (cluster_Update node c).1].
Proof.
  unfold cluster_Update. pose proof (arrive_calls c) as H.
  destruct (arrive c) as [[err|] c1]; simpl in *; [by rewrite H|].
  destruct (store c1 !! _); simpl; [|by rewrite H].
  case_bool_decide; simpl; by rewrite H.
Qed.

Lemma cluster_Update_pending node c :
  pending (cluster_Update node c).2 = tail (pending c).
Proof.
  unfold cluster_Update. pose proof (arrive_pending c) as H.
  destruct (arrive c) as [[err|] c1]; simpl in *; [done|].
  destruct (store c1 !! _); simpl; [|done].
  case_bool_decide; simpl; done.
Qed.

Lemma cluster_Delete_calls name c :
  calls (cluster_Delete name c).2 = calls c ++ [CallDelete name (cluster_Delete name c).1].
Proof.
  unfold cluster_Delete. pose proof (arrive_calls c) as H.
  destruct (arrive c) as [[err|] c1]; simpl in *; [by rewrite H|].
  destruct (store c1 !! _); simpl; by rewrite H.
Qed.

Lemma cluster_Delete_pending name c :
  pending (cluster_Delete name c).2 = tail (pending c).
Proof.
  unfold cluster_Delete. pose proof (arrive_pending c) as H.
  destruct (arrive c) as [[err|] c1]; simpl in *; [done|].
  destruct (store c1 !! _); simpl; done.
Qed.

(** A read that finds a node, served from the store. *)
Lemma cluster_Get_Ok name c stored c1 :
  cluster_Get name c = (Ok stored, c1) →
  store c1 !! name = Some stored ∧ pending c1 = tail (pending c).
Proof.
  intros H. pose proof (cluster_Get_pending name c) as Hp. rewrite H in Hp.
  split; [|done]. revert H. unfold cluster_Get.
  destruct (arrive c) as [[err|] c0]; [by intros [=]|].
  destruct (store c0 !! name) as [st|] eqn:E; intros [= <- <-]. done.
Qed.

(** With the script used up, a write that carries the resource version of
    the stored node goes through. *)
Lemma cluster_Update_undisturbed node c stored :
  pending c = [] →
  store c !! Name (Meta node) = Some stored →
  ResourceVersion (Meta node) = ResourceVersion (Meta stored) →
  cluster_Update node c =
    (Ok (stamp (revision c + 1) node),
     record (CallUpdate node (Ok (stamp (revision c + 1) node))) (put node c)).
Proof.
  intros Hq Hs Hrv. unfold cluster_Update. rewrite (arrive_quiet _ Hq), Hs.
  rewrite bool_decide_eq_true_2 by auto. done.
Qed.

(** So a conflict takes an event of its own, after the one of the read. *)
Lemma conflict_takes_two_events name node c stored c1 err c2 :
  cluster_Get name c = (Ok stored, c1) →
  Name (Meta node) = name →
  ResourceVersion (Meta node) = ResourceVersion (Meta stored) →
  cluster_Update node c1 = (Err err, c2) →
  (2 ≤ length (pending c))%nat ∧ pending c2 = tail (tail (pending c)).
Proof.
  intros HG Hn Hrv HU. apply cluster_Get_Ok in HG as [Hs Hp].
  pose proof (cluster_Update_pending node c1) as Hp2. rewrite HU in Hp2.
  simpl in Hp2. rewrite Hp in Hp2. split; [|done].
  destruct (pending c1) as [|ev evs] eqn:E.
  - rewrite (cluster_Update_undisturbed node c1 stored) in HU by (by subst).
    discriminate.
  - rewrite Hp in E. destruct (pending c) as [|? [|? ?]]; simpl in *; try done; lia.
Qed.

(** ** The runs of the upsert engine on the registry *)
Section runs.
Context (ext : Externals).

Lemma UpdateNode_unfold fuel node c lg0 :
  UpdateNode ext (S fuel) node (mkState c lg0) =
  match cluster_Get (Name (Meta node)) c with
  | (Err err, c1) => Returns (Some err) (mkState c1 lg0)
  | (Ok stored, c1) =>
      match checkNodeEdgeVersion ext node stored with
      | Some err => Returns (Some err) (mkState c1 lg0)
      | None =>
          match cluster_Update (withVersionOf node stored) c1 with
          | (Err err, c2) =>
              if IsConflict err
              then UpdateNode ext fuel (withVersionOf node stored) (mkState c2 lg0)
              else Returns (Some err) (mkState c2 lg0)
          | (Ok _, c2) => Returns None (mkState c2 (lg0 ++ [updateSuccess node]))
          end
      end
  end.
Proof.
  cbn [UpdateNode]. unfold bind at 1. unfold GetNode, bind, call, ret. cbn [world klog Get cluster_nodes].
  destruct (cluster_Get (Name (Meta node)) c) as [[stored|err] c1]; [|done].
  destruct (checkNodeEdgeVersion ext node stored); [done|].
  cbn [world klog Update cluster_nodes]. fold (withVersionOf node stored).
  destruct (cluster_Update (withVersionOf node stored) c1) as [[w|err] c2]; [done|].
  destruct (IsConflict err); done.
Qed.

Lemma CreateOrUpdateNode_unfold fuel node c lg0 :
  CreateOrUpdateNode ext fuel node (mkState c lg0) =
  match cluster_Get (Name (Meta node)) c with
  | (Err err, c1) =>
      if IsNotFound err
      then match cluster_Create node c1 with
           | (Err err', c2) => Returns (Some err') (mkState c2 lg0)
           | (Ok _, c2) => Returns None (mkState c2 (lg0 ++ [createSuccess node]))
           end
      else Returns (Some err) (mkState c1 lg0)
  | (Ok _, c1) => UpdateNode ext fuel node (mkState c1 lg0)
  end.
Proof.
  unfold CreateOrUpdateNode, GetNode, CreateNode, bind, call, ret.
  cbn [world klog Get Create cluster_nodes].
  destruct (cluster_Get (Name (Meta node)) c) as [[stored|err] c1]; [done|].
  destruct (IsNotFound err); [|done]. cbn [world klog].
  destruct (cluster_Create node c1) as [[w|err'] c2]; done.
Qed.

Lemma DeleteNode_unfold node c lg0 :
  DeleteNode node (mkState c lg0) =
  Returns (cluster_Delete (Name (Meta node)) c).1
          (mkState (cluster_Delete (Name (Meta node)) c).2 lg0).
Proof.
  unfold DeleteNode, call. cbn [world klog Delete cluster_nodes].
  by destruct (cluster_Delete (Name (Meta node)) c).
Qed.

(** [UpdateNode] comes to an end on every script, with fuel for the
    conflicts the script can cause, and its run has the shape above. *)
Lemma UpdateNode_runs fuel node c lg0 :
  (length (pending c) < fuel)%nat →
  ∃ res c' tr lg,
    UpdateNode ext fuel node (mkState c lg0) = Returns res (mkState c' (lg0 ++ lg))
    ∧ calls c' = calls c ++ tr
    ∧ UpdateRun ext node tr lg res
    ∧ (length (pending c') ≤ length (pending c))%nat.
Proof.
  revert node c. induction fuel as [|fuel IH]; intros node c Hfuel; [lia|].
  rewrite UpdateNode_unfold.
  pose proof (cluster_Get_calls (Name (Meta node)) c) as HGc.
  pose proof (cluster_Get_pending (Name (Meta node)) c) as HGp.
  destruct (cluster_Get (Name (Meta node)) c) as [[stored|err] c1] eqn:HG;
    simpl in HGc, HGp.
  2:{ exists (Some err), c1, [CallGet (Name (Meta node)) (Err err)], [].
      rewrite app_nil_r, HGp. split_and!; [done|done|constructor|].
      destruct (pending c); simpl; lia. }
  destruct (checkNodeEdgeVersion ext node stored) as [err|] eqn:Hck.
  { exists (Some err), c1, [CallGet (Name (Meta node)) (Ok stored)], [].
    rewrite app_nil_r, HGp. split_and!; [done|done|by constructor|].
    destruct (pending c); simpl; lia. }
  pose proof (cluster_Update_calls (withVersionOf node stored) c1) as HUc.
  pose proof (cluster_Update_pending (withVersionOf node stored) c1) as HUp.
  destruct (cluster_Update (withVersionOf node stored) c1) as [[w|err] c2] eqn:HU;
    simpl in HUc, HUp.
  { eexists None, c2, _, [updateSuccess node]. split_and!; [done| |by constructor|].
    - rewrite HUc, HGc, <- app_assoc. done.
    - rewrite HUp, HGp. destruct (pending c) as [|? [|? ?]]; simpl; lia. }
  destruct (IsConflict err) eqn:Hcf.
  - destruct (conflict_takes_two_events (Name (Meta node)) (withVersionOf node stored)
                c stored c1 err c2 HG eq_refl eq_refl HU) as [H2 Hp2].
    destruct (IH (withVersionOf node stored) c2) as (res & c' & tr & lg & Hrun & Hc & Hshape & Hp).
    { rewrite Hp2. destruct (pending c) as [|? [|? ?]]; simpl in *; lia. }
    exists res, c', (CallGet (Name (Meta node)) (Ok stored)
                      :: CallUpdate (withVersionOf node stored) (Err err) :: tr), lg.
    split_and!; [done| |by constructor|].
    + rewrite Hc, HUc, HGc, <- !app_assoc. done.
    + rewrite Hp2 in Hp. destruct (pending c) as [|? [|? ?]]; simpl in *; lia.
  - exists (Some err), c2,
      [CallGet (Name (Meta node)) (Ok stored);
       CallUpdate (withVersionOf node stored) (Err err)], [].
    rewrite app_nil_r. split_and!; [done| |by constructor|].
    + rewrite HUc, HGc, <- app_assoc. done.
    + rewrite HUp, HGp. destruct (pending c) as [|? [|? ?]]; simpl; lia.
Qed.

Lemma CreateOrUpdateNode_runs fuel node c lg0 :
  (length (pending c) < fuel)%nat →
  ∃ res c' tr lg,
    CreateOrUpdateNode ext fuel node (mkState c lg0) = Returns res (mkState c' (lg0 ++ lg))
    ∧ calls c' = calls c ++ tr
    ∧ UpsertRun ext node tr lg res
    ∧ (length (pending c') ≤ length (pending c))%nat.
Proof.
  intros Hfuel. rewrite CreateOrUpdateNode_unfold.
  pose proof (cluster_Get_calls (Name (Meta node)) c) as HGc.
  pose proof (cluster_Get_pending (Name (Meta node)) c) as HGp.
  destruct (cluster_Get (Name (Meta node)) c) as [[stored|err] c1] eqn:HG;
    simpl in HGc, HGp.
  - destruct (UpdateNode_runs fuel node c1 lg0) as (res & c' & tr & lg & Hrun & Hc & Hshape & Hp).
    { rewrite HGp. destruct (pending c); simpl in *; lia. }
    exists res, c', (CallGet (Name (Meta node)) (Ok stored) :: tr), lg.
    split_and!; [done| |by constructor|].
    + rewrite Hc, HGc, <- app_assoc. done.
    + rewrite HGp in Hp. destruct (pending c); simpl in *; lia.
  - destruct (IsNotFound err) eqn:Hnf.
    + pose proof (cluster_Create_calls node c1) as HCc.
      pose proof (cluster_Create_pending node c1) as HCp.
      destruct (cluster_Create node c1) as [[w|err'] c2]; simpl in HCc, HCp.
      * eexists None, c2, _, [createSuccess node]. split_and!; [done| |by constructor|].
        -- rewrite HCc, HGc, <- app_assoc. done.
        -- rewrite HCp, HGp. destruct (pending c) as [|? [|? ?]]; simpl; lia.
      * exists (Some err'), c2,
          [CallGet (Name (Meta node)) (Err err); CallCreate node (Err err')], [].
        rewrite app_nil_r. split_and!; [done| |by constructor|].
        -- rewrite HCc, HGc, <- app_assoc. done.
        -- rewrite HCp, HGp. destruct (pending c) as [|? [|? ?]]; simpl; lia.
    + exists (Some err), c1, [CallGet (Name (Meta node)) (Err err)], [].
      rewrite app_nil_r. split_and!; [done|done|by constructor|].
      rewrite HGp. destruct (pending c); simpl; lia.
Qed.
End runs.

(** ** The two loops on the registry *)
Section loops.
Context (ext : Externals).

Lemma handleNodeUpdateMap_body_runs fuel entry c lg0 :
  is_Some entry.2 →
  (length (pending c) < fuel)%nat →
  ∃ c' chunk,
    handleNodeUpdateMap_body ext fuel entry (mkState c lg0)
      = Returns () (mkState c' (lg0 ++ chunk.2))
    ∧ calls c' = calls c ++ chunk.1
    ∧ UpdateEntryRun ext entry chunk
    ∧ (length (pending c') ≤ length (pending c))%nat.
Proof.
  intros [node Hnode] Hfuel.
  unfold handleNodeUpdateMap_body, UpdateEntryRun. rewrite Hnode.
  destruct (withUniqueName ext node) as [node' [err|]] eqn:Hid.
  - exists c, ([], [identityFailed "handleNodeUpdateMap" err]).
    simpl. rewrite app_nil_r. done.
  - destruct (CreateOrUpdateNode_runs ext fuel node' c lg0 Hfuel)
      as (res & c' & tr & lg & Hrun & Hc & Hshape & Hp).
    unfold bind. rewrite Hrun.
    exists c', (tr, lg ++ match res with Some err => [upsertFailed err] | None => [] end).
    simpl. split_and!; [|done|by exists res, lg|done].
    destruct res as [err|]; simpl.
    + unfold klog_Errorf. simpl. by rewrite app_assoc.
    + unfold ret. by rewrite app_nil_r.
Qed.

Lemma handleNodeDelMap_body_runs entry c lg0 :
  is_Some entry.2 →
  ∃ c' chunk,
    handleNodeDelMap_body ext entry (mkState c lg0)
      = Returns () (mkState c' (lg0 ++ chunk.2))
    ∧ calls c' = calls c ++ chunk.1
    ∧ DeleteEntryRun ext entry chunk
    ∧ (length (pending c') ≤ length (pending c))%nat.
Proof.
  intros [node Hnode].
  unfold handleNodeDelMap_body, DeleteEntryRun. rewrite Hnode.
  destruct (withUniqueName ext node) as [node' [err|]] eqn:Hid.
  - exists c, ([], [identityFailed "handleNodeDelMap" err]).
    simpl. rewrite app_nil_r. done.
  - unfold bind. rewrite DeleteNode_unfold.
    pose proof (cluster_Delete_calls (Name (Meta node')) c) as Hc.
    pose proof (cluster_Delete_pending (Name (Meta node')) c) as Hp.
    destruct (cluster_Delete (Name (Meta node')) c) as [r c'] eqn:HD. simpl in *.
    exists c', ([CallDelete (Name (Meta node')) r],
                [match r with Some err => deleteFailed err | None => deleteSuccess node' end]).
    simpl. split_and!; [by destruct r|done|by exists r|].
    rewrite Hp. destruct (pending c); simpl; lia.
Qed.

Lemma forRange_update_runs fuel l c lg0 :
  Forall (λ entry : string * option Node, is_Some entry.2) l →
  (length (pending c) < fuel)%nat →
  ∃ c' chunks,
    forRange l (handleNodeUpdateMap_body ext fuel) (mkState c lg0)
      = Returns () (mkState c' (lg0 ++ concat chunks.*2))
    ∧ calls c' = calls c ++ concat chunks.*1
    ∧ Forall2 (UpdateEntryRun ext) l chunks
    ∧ (length (pending c') ≤ length (pending c))%nat.
Proof.
  intros Hl. revert c lg0. induction Hl as [|entry l Hentry Hl IH]; intros c lg0 Hfuel.
  - exists c, []. simpl. rewrite !app_nil_r. done.
  - destruct (handleNodeUpdateMap_body_runs fuel entry c lg0 Hentry Hfuel)
      as (c1 & chunk & Hrun & Hc & Hshape & Hp).
    destruct (IH c1 (lg0 ++ chunk.2)) as (c' & chunks & Hrun' & Hc' & Hshape' & Hp'); [lia|].
    exists c', (chunk :: chunks). cbn [forRange]. unfold bind at 1. rewrite Hrun.
    rewrite Hrun', Hc', Hc. simpl. rewrite <- !app_assoc.
    split_and!; [done|done|by constructor|lia].
Qed.

Lemma forRange_delete_runs l c lg0 :
  Forall (λ entry : string * option Node, is_Some entry.2) l →
  ∃ c' chunks,
    forRange l (handleNodeDelMap_body ext) (mkState c lg0)
      = Returns () (mkState c' (lg0 ++ concat chunks.*2))
    ∧ calls c' = calls c ++ concat chunks.*1
    ∧ Forall2 (DeleteEntryRun ext) l chunks
    ∧ (length (pending c') ≤ length (pending c))%nat.
Proof.
  intros Hl. revert c lg0. induction Hl as [|entry l Hentry Hl IH]; intros c lg0.
  - exists c, []. simpl. rewrite !app_nil_r. done.
  - destruct (handleNodeDelMap_body_runs entry c lg0 Hentry)
      as (c1 & chunk & Hrun & Hc & Hshape & Hp).
    destruct (IH c1 (lg0 ++ chunk.2)) as (c' & chunks & Hrun' & Hc' & Hshape' & Hp').
    exists c', (chunk :: chunks). cbn [forRange]. unfold bind at 1. rewrite Hrun.
    rewrite Hrun', Hc', Hc. simpl. rewrite <- !app_assoc.
    split_and!; [done|done|by constructor|lia].
Qed.

(** Every entry of a map without nil pointers is an entry of its range. *)
Lemma rangeOf_noNil m :
  noNilEntry (Some m) →
  Forall (λ entry : string * option Node, is_Some entry.2) (rangeOf ext m).
Proof.
  intros Hm. apply Forall_forall. intros [k node] Hin.
  rewrite (rangeOf_visits_each_entry_once ext m) in Hin.
  apply elem_of_map_to_list in Hin. exact (Hm k node Hin).
Qed.

Lemma handleNodeReport_decoded fuel b nrs (s : State Cluster) :
  Unmarshal ext b = Ok nrs →
  handleNodeReport ext fuel b s =
  ((match UpdateMap nrs with
    | Some updateMap => handleNodeUpdateMap ext fuel updateMap
    | None => ret ()
    end);;
   (match DelMap nrs with
    | Some delMap => handleNodeDelMap ext delMap
    | None => ret ()
    end);;
   ret None) s.
Proof.
  intros Hb. unfold handleNodeReport, NodeReportStatusDeserialize. rewrite Hb.
  unfold bind, ret. by destruct (FullList nrs).
Qed.

Lemma handleNodeReport_undecoded `{!NodeInterface W} fuel b err (s : State W) :
  Unmarshal ext b = Err err →
  handleNodeReport ext fuel b s =
  Returns (Some (ErrorfV "NodeReportStatusDeserialize failed : %v" err)) s.
Proof.
  intros Hb. unfold handleNodeReport, NodeReportStatusDeserialize. by rewrite Hb.
Qed.
End loops.

Section report.
Context (ext : Externals).

Lemma rangeOfNilable_noNil m :
  noNilEntry m →
  Forall (λ entry : string * option Node, is_Some entry.2) (rangeOfNilable ext m).
Proof.
  destruct m as [m|]; simpl; [apply rangeOf_noNil|constructor].
Qed.

(** A decoded report without nil entries: the update entries in range
    order, then the delete entries in range order, each with its calls and
    its log lines; the report returns nil. *)
Lemma handleNodeReport_runs fuel b nrs c lg0 :
  Unmarshal ext b = Ok nrs →
  noNilEntry (UpdateMap nrs) →
  noNilEntry (DelMap nrs) →
  (length (pending c) < fuel)%nat →
  ∃ c' ups dels,
    handleNodeReport ext fuel b (mkState c lg0)
      = Returns None (mkState c' (lg0 ++ concat ups.*2 ++ concat dels.*2))
    ∧ calls c' = calls c ++ concat ups.*1 ++ concat dels.*1
    ∧ Forall2 (UpdateEntryRun ext) (rangeOfNilable ext (UpdateMap nrs)) ups
    ∧ Forall2 (DeleteEntryRun ext) (rangeOfNilable ext (DelMap nrs)) dels.
Proof.
  intros Hb Hu Hd Hfuel. rewrite (handleNodeReport_decoded ext fuel b nrs _ Hb).
  apply rangeOfNilable_noNil in Hu, Hd.
  destruct (forRange_update_runs ext fuel _ c lg0 Hu Hfuel)
    as (c1 & ups & Hrun1 & Hc1 & Hshape1 & Hp1).
  destruct (forRange_delete_runs ext _ c1 (lg0 ++ concat ups.*2) Hd)
    as (c2 & dels & Hrun2 & Hc2 & Hshape2 & Hp2).
  exists c2, ups, dels. split_and!; [|by rewrite Hc2, Hc1, <- app_assoc|done|done].
  unfold bind at 1.
  assert ((match UpdateMap nrs with
           | Some updateMap => handleNodeUpdateMap ext fuel updateMap
           | None => ret ()
           end) (mkState c lg0)
          = Returns () (mkState c1 (lg0 ++ concat ups.*2))) as ->.
  { destruct (UpdateMap nrs); exact Hrun1. }
  unfold bind at 1.
  assert ((match DelMap nrs with
           | Some delMap => handleNodeDelMap ext delMap
           | None => ret ()
           end) (mkState c1 (lg0 ++ concat ups.*2))
          = Returns () (mkState c2 ((lg0 ++ concat ups.*2) ++ concat dels.*2))) as ->.
  { destruct (DelMap nrs); exact Hrun2. }
  unfold ret. by rewrite <- app_assoc.
Qed.

Lemma UpdateRun_calls node tr lg res :
  UpdateRun ext node tr lg res → Forall isUpsertCall tr.
Proof. induction 1; repeat constructor; done. Qed.

Lemma UpsertRun_calls node tr lg res :
  UpsertRun ext node tr lg res →
  Forall isUpsertCall tr ∧ ∃ r tr', tr = CallGet (Name (Meta node)) r :: tr'.
Proof.
  destruct 1; (split; [|eauto]); repeat constructor.
  eapply UpdateRun_calls; eauto.
Qed.

Lemma update_entries_calls l ups :
  Forall2 (UpdateEntryRun ext) l ups →
  Forall isUpsertCall (concat ups.*1)
  ∧ ∀ node, node ∈ identified ext l →
      ∃ r, CallGet (Name (Meta node)) r ∈ concat ups.*1.
Proof.
  induction 1 as [|entry chunk l ups Hrun _ [IH1 IH2]]; simpl.
  { split; [constructor|]. intros node Hin. by apply elem_of_nil in Hin. }
  unfold UpdateEntryRun in Hrun. unfold identified. simpl.
  destruct entry.2 as [node|]; [|done].
  destruct (withUniqueName ext node) as [node' [err|]].
  - subst chunk. simpl. done.
  - destruct Hrun as (res & lg & Hrun & _).
    apply UpsertRun_calls in Hrun as [Hall (r & tr' & Htr)]. split.
    + apply Forall_app; done.
    + intros n Hin. apply elem_of_cons in Hin as [->|Hin].
      * exists r. rewrite Htr. apply elem_of_app. left. apply elem_of_cons. by left.
      * destruct (IH2 n Hin) as [r' Hr']. exists r'. apply elem_of_app. by right.
Qed.

Lemma delete_entries_calls l dels :
  Forall2 (DeleteEntryRun ext) l dels →
  Forall isDeleteCall (concat dels.*1)
  ∧ Forall2 (λ node k, ∃ r, k = CallDelete (Name (Meta node)) r)
      (identified ext l) (concat dels.*1).
Proof.
  induction 1 as [|entry chunk l dels Hrun _ [IH1 IH2]]; simpl.
  { split; constructor. }
  unfold DeleteEntryRun in Hrun. unfold identified. simpl.
  destruct entry.2 as [node|]; [|done].
  destruct (withUniqueName ext node) as [node' [err|]].
  - subst chunk. simpl. done.
  - destruct Hrun as (r & ->). simpl. split; constructor; eauto. done.
Qed.
End report.

(** ** A registry that never stops answering with conflicts *)
Lemma UpdateNode_contended ext fuel stored node (s : State nat) :
  checkNodeEdgeVersion ext node stored = None →
  @UpdateNode nat (contended_nodes stored) ext fuel node s = OutOfFuel.
Proof.
  revert node s. induction fuel as [|fuel IH]; intros node s Hck; [done|].
  cbn [UpdateNode]. unfold bind at 1. unfold GetNode, bind, call, ret.
  cbn [Get Update contended_nodes world klog]. rewrite Hck.
  cbn [IsConflict ReasonForError]. apply IH. exact Hck.
Qed.

(** ** The registry left alone

    With the script used up ([pending c = []]) no call fails by itself and
    nobody else writes: the calls are answered from the store. *)
Lemma cluster_Get_quiet name c :
  pending c = [] →
  ∃ c',
    cluster_Get name c
    = (match store c !! name with
       | Some stored => Ok stored
       | None => Err (StatusError StatusReasonNotFound)
       end, c')
    ∧ store c' = store c ∧ revision c' = revision c ∧ pending c' = []
    ∧ calls c' = calls c ++ [CallGet name (match store c !! name with
                                           | Some stored => Ok stored
                                           | None => Err (StatusError StatusReasonNotFound)
                                           end)].
Proof.
  intros Hq. unfold cluster_Get. rewrite (arrive_quiet c Hq).
  eexists. split; [reflexivity|]. done.
Qed.

Lemma cluster_Create_quiet node c :
  pending c = [] →
  store c !! Name (Meta node) = None →
  ∃ c',
    cluster_Create node c = (Ok (stamp (revision c + 1) node), c')
    ∧ store c' = <[Name (Meta node) := stamp (revision c + 1) node]> (store c)
    ∧ revision c' = (revision c + 1)%N ∧ pending c' = []
    ∧ calls c' = calls c ++ [CallCreate node (Ok (stamp (revision c + 1) node))].
Proof.
  intros Hq Habs. unfold cluster_Create. rewrite (arrive_quiet c Hq), Habs.
  eexists. split; [reflexivity|]. done.
Qed.

Lemma cluster_Update_quiet node c stored :
  pending c = [] →
  store c !! Name (Meta node) = Some stored →
  ResourceVersion (Meta node) = ResourceVersion (Meta stored) →
  ∃ c',
    cluster_Update node c = (Ok (stamp (revision c + 1) node), c')
    ∧ store c' = <[Name (Meta node) := stamp (revision c + 1) node]> (store c)
    ∧ revision c' = (revision c + 1)%N ∧ pending c' = []
    ∧ calls c' = calls c ++ [CallUpdate node (Ok (stamp (revision c + 1) node))].
Proof.
  intros Hq Hs Hrv. rewrite (cluster_Update_undisturbed node c stored Hq Hs Hrv).
  eexists. split; [reflexivity|]. done.
Qed.

Lemma cluster_Delete_quiet name c :
  pending c = [] →
  ∃ c',
    cluster_Delete name c
    = (match store c !! name with
       | Some _ => None
       | None => Some (StatusError StatusReasonNotFound)
       end, c')
    ∧ store c' = delete name (store c)
    ∧ pending c' = []
    ∧ calls c' = calls c ++ [CallDelete name (match store c !! name with
                                              | Some _ => None
                                              | None => Some (StatusError StatusReasonNotFound)
                                              end)].
Proof.
  intros Hq. unfold cluster_Delete. rewrite (arrive_quiet c Hq).
  destruct (store c !! name) eqn:E; eexists; (split; [reflexivity|]); simpl; split_and!; try done.
  symmetry. by apply delete_id.
Qed.

Section quiet.
Context (ext : Externals).

Lemma edgeVersion_setResourceVersion node rv :
  edgeVersion ext (setResourceVersion node rv) = edgeVersion ext node.
Proof. reflexivity. Qed.

(** The gate reads the two edge-version labels and nothing else. *)
Lemma checkNodeEdgeVersion_labels node node' stored stored' :
  edgeVersion ext node' = edgeVersion ext node →
  edgeVersion ext stored' = edgeVersion ext stored →
  checkNodeEdgeVersion ext node' stored' = checkNodeEdgeVersion ext node stored.
Proof. unfold checkNodeEdgeVersion. by intros -> ->. Qed.

(** A node is never newer than itself. *)
Lemma checkNodeEdgeVersion_same_version node stored :
  edgeVersion ext stored = edgeVersion ext node →
  is_Some (checkNodeEdgeVersion ext node stored).
Proof.
  intros E. unfold checkNodeEdgeVersion. rewrite E.
  case_bool_decide; [by eexists|].
  destruct (Atoi (edgeVersion ext node)) as [v|err]; [|by eexists].
  rewrite decide_True by lia. by eexists.
Qed.

(** First creation. *)
Lemma CreateOrUpdateNode_quiet_absent fuel node c lg0 :
  pending c = [] →
  store c !! Name (Meta node) = None →
  ∃ c',
    CreateOrUpdateNode ext fuel node (mkState c lg0)
    = Returns None (mkState c' (lg0 ++ [createSuccess node]))
    ∧ store c' = <[Name (Meta node) := stamp (revision c + 1) node]> (store c)
    ∧ revision c' = (revision c + 1)%N ∧ pending c' = []
    ∧ calls c' = calls c ++ [CallGet (Name (Meta node)) (Err (StatusError StatusReasonNotFound));
                             CallCreate node (Ok (stamp (revision c + 1) node))].
Proof.
  intros Hq Habs. rewrite CreateOrUpdateNode_unfold.
  destruct (cluster_Get_quiet (Name (Meta node)) c Hq) as (c1 & -> & Hs1 & Hr1 & Hq1 & Hc1).
  rewrite Habs in *.
  assert (IsNotFound (StatusError StatusReasonNotFound) = true) as -> by reflexivity.
  destruct (cluster_Create_quiet node c1 Hq1) as (c2 & -> & Hs2 & Hr2 & Hq2 & Hc2).
  { by rewrite Hs1. }
  exists c2. rewrite Hs2, Hr2, Hc2, Hs1, Hr1, Hc1, <- app_assoc. done.
Qed.

(** An update of a node that is there: the gate decides. *)
Lemma UpdateNode_quiet fuel node c lg0 stored :
  pending c = [] →
  store c !! Name (Meta node) = Some stored →
  match checkNodeEdgeVersion ext node stored with
  | Some err =>
      ∃ c',
        UpdateNode ext (S fuel) node (mkState c lg0) = Returns (Some err) (mkState c' lg0)
        ∧ store c' = store c ∧ revision c' = revision c ∧ pending c' = []
        ∧ calls c' = calls c ++ [CallGet (Name (Meta node)) (Ok stored)]
  | None =>
      ∃ c',
        UpdateNode ext (S fuel) node (mkState c lg0)
        = Returns None (mkState c' (lg0 ++ [updateSuccess node]))
        ∧ store c' = <[Name (Meta node) :=
                         stamp (revision c + 1) (withVersionOf node stored)]> (store c)
        ∧ revision c' = (revision c + 1)%N ∧ pending c' = []
        ∧ calls c' = calls c ++ [CallGet (Name (Meta node)) (Ok stored);
                                 CallUpdate (withVersionOf node stored)
                                   (Ok (stamp (revision c + 1) (withVersionOf node stored)))]
  end.
Proof.
  intros Hq Hs. rewrite UpdateNode_unfold.
  destruct (cluster_Get_quiet (Name (Meta node)) c Hq) as (c1 & -> & Hs1 & Hr1 & Hq1 & Hc1).
  rewrite Hs in *.
  destruct (checkNodeEdgeVersion ext node stored) as [err|] eqn:Hck.
  { exists c1. done. }
  destruct (cluster_Update_quiet (withVersionOf node stored) c1 stored Hq1)
    as (c2 & -> & Hs2 & Hr2 & Hq2 & Hc2); [by rewrite Hs1|done|].
  exists c2. rewrite Hs2, Hr2, Hc2, Hs1, Hr1, Hc1, <- app_assoc. done.
Qed.

Lemma CreateOrUpdateNode_quiet_present fuel node c lg0 stored :
  pending c = [] →
  store c !! Name (Meta node) = Some stored →
  match checkNodeEdgeVersion ext node stored with
  | Some err =>
      ∃ c',
        CreateOrUpdateNode ext (S fuel) node (mkState c lg0)
        = Returns (Some err) (mkState c' lg0)
        ∧ store c' = store c ∧ revision c' = revision c ∧ pending c' = []
        ∧ calls c' = calls c ++ [CallGet (Name (Meta node)) (Ok stored);
                                 CallGet (Name (Meta node)) (Ok stored)]
  | None =>
      ∃ c',
        CreateOrUpdateNode ext (S fuel) node (mkState c lg0)
        = Returns None (mkState c' (lg0 ++ [updateSuccess node]))
        ∧ store c' = <[Name (Meta node) :=
                         stamp (revision c + 1) (withVersionOf node stored)]> (store c)
        ∧ revision c' = (revision c + 1)%N ∧ pending c' = []
        ∧ calls c' = calls c ++ [CallGet (Name (Meta node)) (Ok stored);
                                 CallGet (Name (Meta node)) (Ok stored);
                                 CallUpdate (withVersionOf node stored)
                                   (Ok (stamp (revision c + 1) (withVersionOf node stored)))]
  end.
Proof.
  intros Hq Hs. rewrite CreateOrUpdateNode_unfold.
  destruct (cluster_Get_quiet (Name (Meta node)) c Hq) as (c1 & -> & Hs1 & Hr1 & Hq1 & Hc1).
  rewrite Hs in *.
  pose proof (UpdateNode_quiet fuel node c1 lg0 stored Hq1) as HU.
  rewrite Hs1 in HU. specialize (HU Hs).
  destruct (checkNodeEdgeVersion ext node stored) as [err|];
    destruct HU as (c2 & -> & Hs2 & Hr2 & Hq2 & Hc2); exists c2;
    rewrite Hs2, Hr2, Hc2, Hc1, <- app_assoc; rewrite ?Hs1, ?Hr1; done.
Qed.

Lemma DeleteNode_quiet node c lg0 :
  pending c = [] →
  ∃ c',
    DeleteNode node (mkState c lg0)
    = Returns (match store c !! Name (Meta node) with
               | Some _ => None
               | None => Some (StatusError StatusReasonNotFound)
               end) (mkState c' lg0)
    ∧ store c' = delete (Name (Meta node)) (store c)
    ∧ pending c' = []
    ∧ calls c' = calls c ++ [CallDelete (Name (Meta node))
                               (match store c !! Name (Meta node) with
                                | Some _ => None
                                | None => Some (StatusError StatusReasonNotFound)
                                end)].
Proof.
  intros Hq. rewrite DeleteNode_unfold.
  destruct (cluster_Delete_quiet (Name (Meta node)) c Hq) as (c' & -> & H).
  exists c'. done.
Qed.
End quiet.

(** ** What a run of [UpdateNode] says about reads, writes and retries *)
Section retries.
Context (ext : Externals).

Lemma UpdateRun_head node tr lg res :
  UpdateRun ext node tr lg res →
  ∃ r tr', tr = CallGet (Name (Meta node)) r :: tr'.
Proof. destruct 1; eauto. Qed.

(** Every write follows a read of the same name that found a node, and
    carries the resource version of that node. *)
Lemma UpdateRun_write_follows_read node tr lg res :
  UpdateRun ext node tr lg res →
  ∀ i node2 r,
    tr !! i = Some (CallUpdate node2 r) →
    ∃ j stored,
      i = S j
      ∧ tr !! j = Some (CallGet (Name (Meta node2)) (Ok stored))
      ∧ ResourceVersion (Meta node2) = ResourceVersion (Meta stored).
Proof.
  induction 1 as [node err|node stored err Hck|node stored written Hck
                 |node stored err Hck Hcf|node stored err tr lg res Hck Hcf Hrun IH];
    intros i node2 r Hi.
  - destruct i as [|[|i]]; simplify_eq/=.
  - destruct i as [|[|i]]; simplify_eq/=.
  - destruct i as [|[|[|i]]]; simplify_eq/=. exists 0%nat, stored. done.
  - destruct i as [|[|[|i]]]; simplify_eq/=. exists 0%nat, stored. done.
  - destruct i as [|[|i]]; simplify_eq/=.
    + exists 0%nat, stored. done.
    + destruct (IH i node2 r Hi) as (j & stored2 & -> & Hj & Hrv).
      exists (S (S j)), stored2. done.
Qed.

(** A write answered with a conflict is followed by a new read. *)
Lemma UpdateRun_conflict_is_retried node tr lg res :
  UpdateRun ext node tr lg res →
  ∀ i node2 err,
    tr !! i = Some (CallUpdate node2 (Err err)) →
    IsConflict err = true →
    ∃ r, tr !! S i = Some (CallGet (Name (Meta node2)) r).
Proof.
  induction 1 as [node err|node stored err Hck|node stored written Hck
                 |node stored err Hck Hcf|node stored err tr lg res Hck Hcf Hrun IH];
    intros i node2 err2 Hi Hcf2.
  - destruct i as [|[|i]]; simplify_eq/=.
  - destruct i as [|[|i]]; simplify_eq/=.
  - destruct i as [|[|[|i]]]; simplify_eq/=.
  - destruct i as [|[|[|i]]]; simplify_eq/=. rewrite Hcf in Hcf2. discriminate.
  - destruct i as [|[|i]]; simplify_eq/=.
    + destruct (UpdateRun_head _ _ _ _ Hrun) as (r & tr' & ->). by exists r.
    + exact (IH i node2 err2 Hi Hcf2).
Qed.

(** Any other failure, of a read or of a write, ends the run and is what
    [UpdateNode] returns. *)
Lemma UpdateRun_failure_is_returned node tr lg res :
  UpdateRun ext node tr lg res →
  ∀ i err,
    (∃ name, tr !! i = Some (CallGet name (Err err)))
    ∨ (∃ node2, tr !! i = Some (CallUpdate node2 (Err err)) ∧ IsConflict err = false) →
    res = Some err ∧ length tr = S i.
Proof.
  induction 1 as [node err|node stored err Hck|node stored written Hck
                 |node stored err Hck Hcf|node stored err tr lg res Hck Hcf Hrun IH];
    intros i err2 [[name Hi]|[node2 [Hi Hcf2]]].
  - destruct i as [|[|i]]; simplify_eq/=. done.
  - destruct i as [|[|i]]; simplify_eq/=.
  - destruct i as [|[|i]]; simplify_eq/=.
  - destruct i as [|[|i]]; simplify_eq/=.
  - destruct i as [|[|[|i]]]; simplify_eq/=.
  - destruct i as [|[|[|i]]]; simplify_eq/=.
  - destruct i as [|[|[|i]]]; simplify_eq/=.
  - destruct i as [|[|[|i]]]; simplify_eq/=. done.
  - destruct i as [|[|i]]; simplify_eq/=.
    destruct (IH i err2) as [-> Hlen]; [left; eauto|]. by rewrite Hlen.
  - destruct i as [|[|i]]; simplify_eq/=.
    + rewrite Hcf in Hcf2. discriminate.
    + destruct (IH i err2) as [-> Hlen]; [right; eauto|]. by rewrite Hlen.
Qed.

(** The retries have no bound of their own: [k] conflicts in a row take
    [k + 1] rounds, and the last one writes. *)
Lemma UpdateNode_contention k node c lg0 stored :
  store c !! Name (Meta node) = Some stored →
  checkNodeEdgeVersion ext node stored = None →
  pending c = contention k →
  UpdateNode ext k node (mkState c lg0) = OutOfFuel
  ∧ ∃ c' tr,
      UpdateNode ext (S k) node (mkState c lg0)
      = Returns None (mkState c' (lg0 ++ [updateSuccess node]))
      ∧ calls c' = calls c ++ tr
      ∧ updateAttempts tr = S k
      ∧ store c' !! Name (Meta node)
        = Some (stamp (revision c + 1) (withVersionOf node stored)).
Proof.
  revert node c. induction k as [|k IH]; intros node c Hs Hck Hp.
  - split; [done|].
    pose proof (UpdateNode_quiet ext 0 node c lg0 stored Hp Hs) as H.
    rewrite Hck in H. destruct H as (c' & Hrun & Hs' & _ & _ & Hc').
    exists c', [CallGet (Name (Meta node)) (Ok stored);
                CallUpdate (withVersionOf node stored)
                  (Ok (stamp (revision c + 1) (withVersionOf node stored)))].
    split_and!; [done|done|done|]. rewrite Hs'. apply lookup_insert_eq.
  - assert (∀ fuel,
              UpdateNode ext (S fuel) node (mkState c lg0)
              = UpdateNode ext fuel (withVersionOf node stored)
                  (mkState
                     (mkCluster (store c) (revision c) (contention k)
                        (calls c ++ [CallGet (Name (Meta node)) (Ok stored);
                                     CallUpdate (withVersionOf node stored)
                                       (Err (StatusError StatusReasonConflict))]))
                     lg0)) as Hstep.
    { intros fuel. rewrite UpdateNode_unfold.
      unfold cluster_Get, arrive. rewrite Hp. cbn [contention replicate concat app].
      cbn [store]. rewrite Hs, Hck.
      unfold cluster_Update, arrive, record. cbn [pending store revision calls].
      assert (IsConflict (StatusError StatusReasonConflict) = true) as -> by reflexivity.
      unfold contention. by rewrite <- app_assoc. }
    set (c1 := mkCluster _ _ _ _) in Hstep.
    destruct (IH (withVersionOf node stored) c1) as [Hout (c' & tr & Hrun & Hc & Hn & Hs')];
      [done|done|done|].
    split; [by rewrite Hstep|].
    exists c', ([CallGet (Name (Meta node)) (Ok stored);
                 CallUpdate (withVersionOf node stored)
                   (Err (StatusError StatusReasonConflict))] ++ tr).
    rewrite Hstep. split_and!; [done| |by simpl; rewrite Hn|done].
    rewrite Hc. unfold c1. cbn [calls]. by rewrite <- app_assoc.
Qed.
End retries.

(** ** The versions a run commits *)
Section lineages.
Context (ext : Externals).

Lemma checkNodeEdgeVersion_None node stored :
  checkNodeEdgeVersion ext node stored = None →
  newer (edgeVersion ext stored) (edgeVersion ext node).
Proof.
  unfold checkNodeEdgeVersion, newer. case_bool_decide; [done|].
  destruct (Atoi (edgeVersion ext node)) as [v|]; [|done].
  destruct (Atoi (edgeVersion ext stored)) as [sv|]; [|done].
  case_decide; [done|]. intros _. exists sv, v. split_and!; [done|done|lia].
Qed.

Lemma strictlyIncreasing_snoc l v :
  strictlyIncreasing l →
  (∀ u, last l = Some u → newer u v) →
  strictlyIncreasing (l ++ [v]).
Proof.
  induction l as [|a l IH]; intros Hl Hlast; [done|].
  destruct l as [|b l].
  - simpl. split_and!; [|done|done]. by apply Hlast.
  - destruct Hl as [Hab Hl]. split; [done|]. apply IH; [done|].
    intros u Hu. by apply Hlast.
Qed.

Lemma lineage_app name tr tr' :
  lineage ext name (tr ++ tr') = foldl (lineageStep ext name) (lineage ext name tr) tr'.
Proof. apply foldl_app. Qed.

(** Without a delete of the name that went through, the lineage is the
    whole sequence of commits. *)
Lemma lineage_committed name tr :
  CallDelete name None ∉ tr →
  lineage ext name tr = committed ext name tr.
Proof.
  unfold lineage, committed.
  assert (∀ acc, CallDelete name None ∉ tr →
            foldl (lineageStep ext name) acc tr
            = acc ++ (edgeVersion ext <$>
                        filter (λ node, Name (Meta node) = name) (omap commitOf tr)))
    as H; [|by apply (H [])].
  induction tr as [|k tr IH]; intros acc Hnot; [by rewrite app_nil_r|].
  apply not_elem_of_cons in Hnot as [Hk Hnot]. cbn [foldl]. rewrite (IH _ Hnot).
  destruct k as [n r|n [w|e]|n [w|e]|n [e|]]; simpl; try done.
  - rewrite filter_cons. case_decide; simpl; [by rewrite <- app_assoc|done].
  - rewrite filter_cons. case_decide; simpl; [by rewrite <- app_assoc|done].
  - case_decide; [congruence|done].
Qed.

Lemma tracks_reads c c' tr tr' :
  tracks ext c tr →
  store c' = store c →
  Forall (λ k, ∃ name r, k = CallGet name r) tr' →
  tracks ext c' (tr ++ tr').
Proof.
  intros Ht Hs Hreads name. rewrite lineage_app, Hs.
  assert (foldl (lineageStep ext name) (lineage ext name tr) tr' = lineage ext name tr) as ->.
  { generalize (lineage ext name tr). induction Hreads as [|k tr' (n & r & ->) _ IH]; done. }
  apply Ht.
Qed.

Lemma tracks_put c c' tr tr' node committedNode rev :
  tracks ext c tr →
  store c' = <[Name (Meta node) := stamp rev committedNode]> (store c) →
  edgeVersion ext committedNode = edgeVersion ext node →
  (∀ v, last (lineage ext (Name (Meta node)) tr) = Some v →
        newer v (edgeVersion ext node)) →
  (∀ name, foldl (lineageStep ext name) (lineage ext name tr) tr'
           = if decide (Name (Meta node) = name)
             then lineage ext name tr ++ [edgeVersion ext node]
             else lineage ext name tr) →
  tracks ext c' (tr ++ tr').
Proof.
  intros Ht Hs Hv Hnewer Hlin name. rewrite lineage_app, Hlin, Hs.
  destruct (Ht name) as [Hinc Hlast]. case_decide as Hname.
  - subst name. split; [by apply strictlyIncreasing_snoc|].
    intros v. rewrite last_snoc. intros [= <-].
    exists (stamp rev committedNode). by rewrite lookup_insert_eq.
  - split; [done|]. intros v Hl. rewrite lookup_insert_ne by done. by apply Hlast.
Qed.

(** One node through the upsert engine, on the registry left alone. *)
Lemma tracks_Upsert fuel node c lg0 tr :
  pending c = [] →
  tracks ext c tr →
  ∃ r c' lg tr',
    CreateOrUpdateNode ext (S fuel) node (mkState c lg0) = Returns r (mkState c' lg)
    ∧ calls c' = calls c ++ tr'
    ∧ pending c' = []
    ∧ tracks ext c' (tr ++ tr').
Proof.
  intros Hq Ht. destruct (store c !! Name (Meta node)) as [stored|] eqn:Hs.
  - pose proof (CreateOrUpdateNode_quiet_present ext fuel node c lg0 stored Hq Hs) as H.
    destruct (checkNodeEdgeVersion ext node stored) as [err|] eqn:Hck;
      destruct H as (c' & Hrun & Hs' & _ & Hq' & Hc').
    + eexists _, c', _, _. split_and!; [done|done|done|].
      eapply tracks_reads; [done|done|]. repeat constructor; eauto.
    + eexists _, c', _, _. split_and!; [done|done|done|].
      eapply (tracks_put c c' tr _ node); [done|done|done| |].
      * intros v Hlast. destruct (Ht (Name (Meta node))) as [_ Hl].
        destruct (Hl v Hlast) as (stored' & Hs2 & <-). rewrite Hs in Hs2.
        injection Hs2 as <-. by apply checkNodeEdgeVersion_None.
      * intros name. simpl. done.
  - destruct (CreateOrUpdateNode_quiet_absent ext (S fuel) node c lg0 Hq Hs)
      as (c' & Hrun & Hs' & _ & Hq' & Hc').
    eexists _, c', _, _. split_and!; [done|done|done|].
    eapply (tracks_put c c' tr _ node); [done|done|done| |].
    + intros v Hlast. destruct (Ht (Name (Meta node))) as [_ Hl].
      destruct (Hl v Hlast) as (stored' & Hs2 & _). congruence.
    + intros name. simpl. done.
Qed.

(** One node through [DeleteNode], on the registry left alone. *)
Lemma tracks_Removal node c lg0 tr :
  pending c = [] →
  tracks ext c tr →
  ∃ r c' tr',
    DeleteNode node (mkState c lg0) = Returns r (mkState c' lg0)
    ∧ calls c' = calls c ++ tr'
    ∧ pending c' = []
    ∧ tracks ext c' (tr ++ tr').
Proof.
  intros Hq Ht. destruct (DeleteNode_quiet node c lg0 Hq) as (c' & Hrun & Hs' & Hq' & Hc').
  eexists _, c', _. split_and!; [done|done|done|].
  intros name. rewrite lineage_app, Hs'. destruct (Ht name) as [Hinc Hlast].
  destruct (store c !! Name (Meta node)) as [stored|] eqn:Hs; simpl.
  - case_decide as Hname.
    + split; [done|]. intros v [=].
    + split; [done|]. intros v Hl. rewrite lookup_delete_ne by done. by apply Hlast.
  - split; [done|]. intros v Hl. rewrite delete_id by done. by apply Hlast.
Qed.

Lemma tracks_submit fuel subs c lg0 tr :
  pending c = [] →
  tracks ext c tr →
  ∃ c' lg tr',
    submit ext (S fuel) subs (mkState c lg0) = Returns () (mkState c' lg)
    ∧ calls c' = calls c ++ tr'
    ∧ pending c' = []
    ∧ tracks ext c' (tr ++ tr').
Proof.
  revert c lg0 tr. induction subs as [|[node|node] subs IH]; intros c lg0 tr Hq Ht.
  - exists c, lg0, []. rewrite !app_nil_r. done.
  - destruct (tracks_Upsert fuel node c lg0 tr Hq Ht)
      as (r & c1 & lg1 & tr1 & Hrun1 & Hc1 & Hq1 & Ht1).
    destruct (IH c1 lg1 (tr ++ tr1) Hq1 Ht1) as (c' & lg & tr' & Hrun & Hc & Hq' & Ht').
    exists c', lg, (tr1 ++ tr'). cbn [submit]. unfold bind at 1. rewrite Hrun1, Hrun.
    rewrite Hc, Hc1, <- !app_assoc. rewrite <- app_assoc in Ht'. done.
  - destruct (tracks_Removal node c lg0 tr Hq Ht)
      as (r & c1 & tr1 & Hrun1 & Hc1 & Hq1 & Ht1).
    destruct (IH c1 lg0 (tr ++ tr1) Hq1 Ht1) as (c' & lg & tr' & Hrun & Hc & Hq' & Ht').
    exists c', lg, (tr1 ++ tr'). cbn [submit]. unfold bind at 1. rewrite Hrun1, Hrun.
    rewrite Hc, Hc1, <- !app_assoc. rewrite <- app_assoc in Ht'. done.
Qed.

Lemma tracks_nil c : tracks ext c [].
Proof. intros name. split; [done|]. intros v [=]. Qed.
End lineages.

Lemma checkNodeEdgeVersion_stale ext node stored v sv :
  Atoi (edgeVersion ext node) = Ok v →
  Atoi (edgeVersion ext stored) = Ok sv →
  v ≤ sv →
  checkNodeEdgeVersion ext node stored
  = Some (Errorf
      "Current node edge-version(%s) is less than or equal to ETCD's node edge-version(%s)"
      [edgeVersion ext node; edgeVersion ext stored]).
Proof.
  intros Hv Hsv Hle. unfold checkNodeEdgeVersion. rewrite Hv, Hsv.
  case_bool_decide as Hempty.
  - exfalso. destruct Hempty as [E|E]; rewrite E in *; discriminate.
  - by rewrite decide_True.
Qed.

(** ** Optimistic concurrency in the registry

    Resource versions are never given out twice, so a write that carries
    the resource version of a read and goes through lands on the very node
    that was read, whatever others wrote in between. *)
Lemma pretty_N_go_grows x s :
  (String.length s ≤ String.length (pretty_N_go x s))%nat.
Proof.
  revert s. induction (N.lt_wf_0 x) as [x _ IH]. intros s.
  destruct (decide (x = 0)%N) as [->|Hx]; [by rewrite pretty_N_go_0|].
  rewrite pretty_N_go_step by lia.
  specialize (IH (x `div` 10)%N). etrans; [|apply IH].
  - simpl. lia.
  - apply N.div_lt; lia.
Qed.

Lemma pretty_N_nonempty (rev : N) : pretty rev ≠ "".
Proof.
  unfold pretty, pretty_N. case_decide as Hrev; [done|].
  rewrite pretty_N_go_step by lia. intros H.
  pose proof (pretty_N_go_grows (rev `div` 10)
                (String (pretty_N_char (rev `mod` 10)) "")) as Hlen.
  rewrite H in Hlen. simpl in Hlen. lia.
Qed.

Lemma wellStamped_put node c : wellStamped c → wellStamped (put node c).
Proof.
  intros Hw name stored. unfold put. cbn [store revision].
  destruct (decide (Name (Meta node) = name)) as [->|Hne].
  - rewrite lookup_insert_eq. intros [= <-]. exists (revision c + 1)%N. split; [lia|done].
  - rewrite lookup_insert_ne by done. intros Hs.
    destruct (Hw name stored Hs) as (rev & Hle & Hrv). exists rev. split; [lia|done].
Qed.

Lemma wellStamped_remove name c : wellStamped c → wellStamped (remove name c).
Proof.
  intros Hw name' stored. unfold remove. cbn [store revision]. intros Hs.
  apply lookup_delete_Some in Hs as [_ Hs].
  destruct (Hw name' stored Hs) as (rev & Hle & Hrv). exists rev. split; [lia|done].
Qed.

Lemma wellStamped_arrive c : wellStamped c → wellStamped (arrive c).2.
Proof.
  intros Hw. unfold arrive. destruct (pending c) as [|[|err|[node|name]] evs]; simpl; try done.
  - by apply (wellStamped_put node (mkCluster (store c) (revision c) evs (calls c))).
  - by apply (wellStamped_remove name (mkCluster (store c) (revision c) evs (calls c))).
Qed.

Lemma wellStamped_Get name c : wellStamped c → wellStamped (cluster_Get name c).2.
Proof.
  intros Hw. unfold cluster_Get. pose proof (wellStamped_arrive c Hw) as H.
  destruct (arrive c) as [fault c0]. exact H.
Qed.

(** What the event of a call can do to the entry of [name]: leave it, or
    replace it by a node stamped with a revision never given out before. *)
Lemma arrive_entry name c :
  store (arrive c).2 !! name = store c !! name
  ∨ store (arrive c).2 !! name = None
  ∨ ∃ node, store (arrive c).2 !! name = Some (stamp (revision c + 1) node).
Proof.
  unfold arrive. destruct (pending c) as [|[|err|[node|name']] evs]; simpl; auto.
  - destruct (decide (Name (Meta node) = name)) as [->|Hne].
    + right. right. exists node. apply lookup_insert_eq.
    + left. by apply lookup_insert_ne.
  - destruct (decide (name' = name)) as [->|Hne].
    + right. left. apply lookup_delete_eq.
    + left. by apply lookup_delete_ne.
Qed.

Lemma accepted_write_lands_on_what_was_read ext node c stored c1 written c2 :
  wellStamped c →
  cluster_Get (Name (Meta node)) c = (Ok stored, c1) →
  cluster_Update (withVersionOf node stored) c1 = (Ok written, c2) →
  store (arrive c1).2 !! Name (Meta node) = Some stored
  ∧ store c2 = <[Name (Meta node) := written]> (store (arrive c1).2)
  ∧ edgeVersion ext written = edgeVersion ext node.
Proof.
  intros Hw HG HU.
  pose proof (wellStamped_Get (Name (Meta node)) c Hw) as Hw1. rewrite HG in Hw1.
  apply cluster_Get_Ok in HG as [Hs1 _]. simpl in Hw1.
  destruct (Hw1 _ _ Hs1) as (rev & Hle & Hrv).
  pose proof (arrive_entry (Name (Meta node)) c1) as Hentry.
  revert HU. unfold cluster_Update.
  destruct (arrive c1) as [[err|] c1'] eqn:Harr; [by intros [=]|].
  simpl in Hentry |- *. cbn [withVersionOf setResourceVersion Meta Name ResourceVersion].
  destruct (store c1' !! Name (Meta node)) as [cur|] eqn:Hcur; [|by intros [=]].
  case_bool_decide as Hrvs; [|by intros [=]]. intros [= <- <-].
  assert (cur = stored) as ->.
  { destruct Hentry as [Hsame|[Hnone|[other Hother]]].
    - rewrite Hs1 in Hsame. by injection Hsame.
    - discriminate.
    - injection Hother as ->. exfalso. destruct Hrvs as [Hrvs|Hrvs].
      + rewrite Hrv in Hrvs. by apply pretty_N_nonempty in Hrvs.
      + rewrite Hrv in Hrvs. cbn in Hrvs. apply (inj pretty) in Hrvs. lia. }
  done.
Qed.

(** ** The upsert engine where nobody else writes *)

Lemma arrive_noWriter c :
  noWriter c →
  store (arrive c).2 = store c
  ∧ revision (arrive c).2 = revision c
  ∧ noWriter (arrive c).2.
Proof.
  unfold noWriter, arrive. intros H.
  destruct (pending c) as [|[|err|op] evs] eqn:E; simpl.
  - by rewrite E.
  - by apply Forall_cons in H as [_ H].
  - by apply Forall_cons in H as [_ H].
  - apply Forall_cons in H as [H _]. by destruct H.
Qed.

Lemma cluster_Get_noWriter name c :
  noWriter c →
  store (cluster_Get name c).2 = store c
  ∧ noWriter (cluster_Get name c).2
  ∧ ∀ stored, (cluster_Get name c).1 = Ok stored → store c !! name = Some stored.
Proof.
  intros H. destruct (arrive_noWriter c H) as (Hs & _ & Hn). unfold cluster_Get.
  destruct (arrive c) as [[err|] c0]; simpl in *; (split_and!; [done|done|]).
  - by intros stored [=].
  - rewrite <- Hs. destruct (store c0 !! name); by intros stored [= <-].
Qed.

Lemma cluster_Create_noWriter node c :
  noWriter c →
  noWriter (cluster_Create node c).2
  ∧ match (cluster_Create node c).1 with
    | Ok stamped =>
        store c !! Name (Meta node) = None
        ∧ store (cluster_Create node c).2 = <[Name (Meta node) := stamped]> (store c)
        ∧ stamped = stamp (revision c + 1) node
    | Err _ => store (cluster_Create node c).2 = store c
    end.
Proof.
  intros H. destruct (arrive_noWriter c H) as (Hs & Hr & Hn). unfold cluster_Create.
  destruct (arrive c) as [[err|] c0]; simpl in *; [done|].
  destruct (store c0 !! Name (Meta node)) eqn:E; simpl; [done|].
  rewrite <- Hs, <- Hr. done.
Qed.

Lemma cluster_Update_noWriter node c :
  noWriter c →
  noWriter (cluster_Update node c).2
  ∧ match (cluster_Update node c).1 with
    | Ok stamped =>
        store (cluster_Update node c).2 = <[Name (Meta node) := stamped]> (store c)
        ∧ stamped = stamp (revision c + 1) node
    | Err _ => store (cluster_Update node c).2 = store c
    end.
Proof.
  intros H. destruct (arrive_noWriter c H) as (Hs & Hr & Hn). unfold cluster_Update.
  destruct (arrive c) as [[err|] c0]; simpl in *; [done|].
  destruct (store c0 !! Name (Meta node)) eqn:E; simpl; [|done].
  case_bool_decide; simpl; [|done]. rewrite <- Hs, <- Hr. done.
Qed.

Lemma cluster_Delete_noWriter name c :
  noWriter c →
  noWriter (cluster_Delete name c).2
  ∧ store (cluster_Delete name c).2
    = match (cluster_Delete name c).1 with
      | None => delete name (store c)
      | Some _ => store c
      end.
Proof.
  intros H. destruct (arrive_noWriter c H) as (Hs & Hr & Hn). unfold cluster_Delete.
  destruct (arrive c) as [[err|] c0]; simpl in *; [done|].
  destruct (store c0 !! name) eqn:E; simpl; by rewrite <- Hs.
Qed.

Section no_writer.
Context (ext : Externals).

Lemma UpdateNode_noWriter fuel node c lg0 :
  noWriter c →
  (length (pending c) < fuel)%nat →
  ∃ r c' lg tr,
    UpdateNode ext fuel node (mkState c lg0) = Returns r (mkState c' lg)
    ∧ calls c' = calls c ++ tr
    ∧ noWriter c'
    ∧ (length (pending c') ≤ length (pending c))%nat
    ∧ upsertEffect ext node (store c) (store c') r tr.
Proof.
  revert node c. induction fuel as [|fuel IH]; intros node c Hn Hfuel; [lia|].
  rewrite UpdateNode_unfold.
  pose proof (cluster_Get_calls (Name (Meta node)) c) as HGc.
  pose proof (cluster_Get_pending (Name (Meta node)) c) as HGp.
  destruct (cluster_Get_noWriter (Name (Meta node)) c Hn) as (HGs & HGn & HGok).
  destruct (cluster_Get (Name (Meta node)) c) as [[stored|err] c1] eqn:HG;
    simpl in HGc, HGp, HGs, HGn, HGok.
  2:{ exists (Some err), c1, lg0, [CallGet (Name (Meta node)) (Err err)].
      split_and!; [done|done|done| |].
      - rewrite HGp. destruct (pending c); simpl; lia.
      - split; [done|]. by repeat constructor. }
  specialize (HGok stored eq_refl).
  destruct (checkNodeEdgeVersion ext node stored) as [err|] eqn:Hck.
  { exists (Some err), c1, lg0, [CallGet (Name (Meta node)) (Ok stored)].
    split_and!; [done|done|done| |].
    - rewrite HGp. destruct (pending c); simpl; lia.
    - split; [done|]. by repeat constructor. }
  pose proof (cluster_Update_calls (withVersionOf node stored) c1) as HUc.
  pose proof (cluster_Update_pending (withVersionOf node stored) c1) as HUp.
  destruct (cluster_Update_noWriter (withVersionOf node stored) c1 HGn) as (HUn & HUs).
  destruct (cluster_Update (withVersionOf node stored) c1) as [[w|err] c2] eqn:HU;
    simpl in HUc, HUp, HUn, HUs.
  { destruct HUs as [HUs ->].
    exists None, c2, (lg0 ++ [updateSuccess node]),
      ([CallGet (Name (Meta node)) (Ok stored)]
         ++ [CallUpdate (withVersionOf node stored)
               (Ok (stamp (revision c1 + 1) (withVersionOf node stored)))]).
    split_and!; [done| |done| |].
    - rewrite HUc, HGc, <- app_assoc. done.
    - rewrite HUp, HGp. destruct (pending c) as [|? [|? ?]]; simpl; lia.
    - exists [CallGet (Name (Meta node)) (Ok stored)],
        (CallUpdate (withVersionOf node stored)
           (Ok (stamp (revision c1 + 1) (withVersionOf node stored)))),
        (withVersionOf node stored), (stamp (revision c1 + 1) (withVersionOf node stored)).
      split_and!; [done|by repeat constructor|done|done|done|done| |done|].
      + rewrite HUs, HGs. done.
      + by rewrite HGok. }
  destruct (IsConflict err) eqn:Hcf.
  - destruct (conflict_takes_two_events (Name (Meta node)) (withVersionOf node stored)
                c stored c1 err c2 HG eq_refl eq_refl HU) as [H2 Hp2].
    destruct (IH (withVersionOf node stored) c2 HUn)
      as (r & c' & lg & tr & Hrun & Hc & Hn' & Hp & Heff).
    { rewrite Hp2. destruct (pending c) as [|? [|? ?]]; simpl in *; lia. }
    exists r, c', lg, ([CallGet (Name (Meta node)) (Ok stored);
                        CallUpdate (withVersionOf node stored) (Err err)] ++ tr).
    split_and!; [done| |done| |].
    + rewrite Hc, HUc, HGc, <- !app_assoc. done.
    + rewrite Hp2 in Hp. destruct (pending c) as [|? [|? ?]]; simpl in *; lia.
    + rewrite HUs, HGs in Heff. destruct r as [err'|].
      * destruct Heff as [-> Hidle]. split; [done|].
        apply Forall_app. split; [by repeat constructor|done].
      * destruct Heff as (tr0 & k & committedNode & stamped & -> & Hidle & Hk & Hup
                          & Hname & Hver & Hafter & Hstamped & Hgate).
        exists ([CallGet (Name (Meta node)) (Ok stored);
                 CallUpdate (withVersionOf node stored) (Err err)] ++ tr0),
          k, committedNode, stamped.
        split_and!; [by rewrite <- app_assoc| |done|done|done|done|done|done|done].
        apply Forall_app. split; [by repeat constructor|done].
  - exists (Some err), c2, lg0,
      [CallGet (Name (Meta node)) (Ok stored);
       CallUpdate (withVersionOf node stored) (Err err)].
    split_and!; [done| |done| |].
    + rewrite HUc, HGc, <- app_assoc. done.
    + rewrite HUp, HGp. destruct (pending c) as [|? [|? ?]]; simpl; lia.
    + split; [by rewrite HUs, HGs|]. by repeat constructor.
Qed.

Lemma CreateOrUpdateNode_noWriter fuel node c lg0 :
  noWriter c →
  (length (pending c) < fuel)%nat →
  ∃ r c' lg tr,
    CreateOrUpdateNode ext fuel node (mkState c lg0) = Returns r (mkState c' lg)
    ∧ calls c' = calls c ++ tr
    ∧ noWriter c'
    ∧ (length (pending c') ≤ length (pending c))%nat
    ∧ upsertEffect ext node (store c) (store c') r tr.
Proof.
  intros Hn Hfuel. rewrite CreateOrUpdateNode_unfold.
  pose proof (cluster_Get_calls (Name (Meta node)) c) as HGc.
  pose proof (cluster_Get_pending (Name (Meta node)) c) as HGp.
  destruct (cluster_Get_noWriter (Name (Meta node)) c Hn) as (HGs & HGn & _).
  destruct (cluster_Get (Name (Meta node)) c) as [[stored|err] c1] eqn:HG;
    simpl in HGc, HGp, HGs, HGn.
  - destruct (UpdateNode_noWriter fuel node c1 lg0 HGn)
      as (r & c' & lg & tr & Hrun & Hc & Hn' & Hp & Heff).
    { rewrite HGp. destruct (pending c); simpl in *; lia. }
    exists r, c', lg, ([CallGet (Name (Meta node)) (Ok stored)] ++ tr).
    split_and!; [done| |done| |].
    + rewrite Hc, HGc, <- app_assoc. done.
    + rewrite HGp in Hp. destruct (pending c); simpl in *; lia.
    + rewrite HGs in Heff. destruct r as [err'|].
      * destruct Heff as [-> Hidle]. split; [done|].
        apply Forall_app. split; [by repeat constructor|done].
      * destruct Heff as (tr0 & k & committedNode & stamped & -> & Hidle & Hrest).
        exists ([CallGet (Name (Meta node)) (Ok stored)] ++ tr0), k, committedNode, stamped.
        split_and!; [by rewrite <- app_assoc| |apply Hrest..].
        apply Forall_app. split; [by repeat constructor|done].
  - destruct (IsNotFound err) eqn:Hnf.
    + pose proof (cluster_Create_calls node c1) as HCc.
      pose proof (cluster_Create_pending node c1) as HCp.
      destruct (cluster_Create_noWriter node c1 HGn) as (HCn & HCs).
      destruct (cluster_Create node c1) as [[w|err'] c2]; simpl in HCc, HCp, HCn, HCs.
      * destruct HCs as (Habs & HCs & ->).
        exists None, c2, (lg0 ++ [createSuccess node]),
          ([CallGet (Name (Meta node)) (Err err)]
             ++ [CallCreate node (Ok (stamp (revision c1 + 1) node))]).
        split_and!; [done| |done| |].
        -- rewrite HCc, HGc, <- app_assoc. done.
        -- rewrite HCp, HGp. destruct (pending c) as [|? [|? ?]]; simpl; lia.
        -- exists [CallGet (Name (Meta node)) (Err err)],
             (CallCreate node (Ok (stamp (revision c1 + 1) node))),
             node, (stamp (revision c1 + 1) node).
           split_and!; [done|by repeat constructor|done|done|done|done| |done|].
           ++ by rewrite HCs, HGs.
           ++ rewrite <- HGs. by rewrite Habs.
      * exists (Some err'), c2, lg0,
          [CallGet (Name (Meta node)) (Err err); CallCreate node (Err err')].
        split_and!; [done| |done| |].
        -- rewrite HCc, HGc, <- app_assoc. done.
        -- rewrite HCp, HGp. destruct (pending c) as [|? [|? ?]]; simpl; lia.
        -- split; [by rewrite HCs, HGs|]. by repeat constructor.
    + exists (Some err), c1, lg0, [CallGet (Name (Meta node)) (Err err)].
      split_and!; [done|done|done| |].
      * rewrite HGp. destruct (pending c); simpl; lia.
      * split; [done|]. by repeat constructor.
Qed.

Lemma lineage_idle name acc tr :
  Forall idleCall tr → foldl (lineageStep ext name) acc tr = acc.
Proof.
  induction 1 as [|k tr [Hk Hup] _ IH]; [done|]. cbn [foldl].
  assert (lineageStep ext name acc k = acc) as ->; [|done].
  unfold lineageStep. rewrite Hk. by destruct k.
Qed.

Lemma commits_idle tr : Forall idleCall tr → commits tr = [].
Proof.
  induction 1 as [|k tr [Hk _] _ IH]; [done|].
  unfold commits in *. cbn [omap list_omap]. by rewrite Hk.
Qed.

Lemma tracks_upsertEffect c c' tr tr' node r :
  tracks ext c tr →
  upsertEffect ext node (store c) (store c') r tr' →
  tracks ext c' (tr ++ tr').
Proof.
  intros Ht Heff name. rewrite lineage_app. destruct (Ht name) as [Hinc Hlast].
  destruct r as [err|].
  - destruct Heff as [-> Hidle]. by rewrite lineage_idle.
  - destruct Heff as (tr0 & k & committedNode & stamped & -> & Hidle & Hk & Hup
                      & Hname & Hver & -> & Hstamped & Hgate).
    rewrite foldl_app, (lineage_idle name _ tr0 Hidle). cbn [foldl].
    assert (lineageStep ext name (lineage ext name tr) k
            = if decide (Name (Meta node) = name)
              then lineage ext name tr ++ [edgeVersion ext node]
              else lineage ext name tr) as ->.
    { unfold lineageStep. rewrite Hk, Hname, Hver. by destruct k. }
    case_decide as Hn.
    + subst name. split.
      * apply strictlyIncreasing_snoc; [done|]. intros u Hu.
        destruct (Hlast u Hu) as (stored & Hs & <-). rewrite Hs in Hgate.
        by apply checkNodeEdgeVersion_None.
      * intros v. rewrite last_snoc. intros [= <-].
        exists stamped. by rewrite lookup_insert_eq.
    + split; [done|]. intros v Hv. rewrite lookup_insert_ne by done. by apply Hlast.
Qed.

Lemma DeleteNode_noWriter node c lg0 tr :
  noWriter c →
  tracks ext c tr →
  ∃ r c' tr',
    DeleteNode node (mkState c lg0) = Returns r (mkState c' lg0)
    ∧ calls c' = calls c ++ tr'
    ∧ noWriter c'
    ∧ (length (pending c') ≤ length (pending c))%nat
    ∧ tracks ext c' (tr ++ tr').
Proof.
  intros Hn Ht. rewrite DeleteNode_unfold.
  pose proof (cluster_Delete_calls (Name (Meta node)) c) as Hc.
  pose proof (cluster_Delete_pending (Name (Meta node)) c) as Hp.
  destruct (cluster_Delete_noWriter (Name (Meta node)) c Hn) as (Hn' & Hs).
  destruct (cluster_Delete (Name (Meta node)) c) as [r c'] eqn:HD. simpl in *.
  exists r, c', [CallDelete (Name (Meta node)) r]. split_and!; [done|done|done| |].
  { rewrite Hp. destruct (pending c); simpl; lia. }
  intros name. rewrite lineage_app, Hs. destruct (Ht name) as [Hinc Hlast].
  destruct r as [err|]; simpl; [done|].
  case_decide as Hname.
  - split; [done|]. intros v [=].
  - split; [done|]. intros v Hl. rewrite lookup_delete_ne by done. by apply Hlast.
Qed.

Lemma tracks_submit_noWriter fuel subs c lg0 tr :
  noWriter c →
  (length (pending c) < fuel)%nat →
  tracks ext c tr →
  ∃ c' lg tr',
    submit ext fuel subs (mkState c lg0) = Returns () (mkState c' lg)
    ∧ calls c' = calls c ++ tr'
    ∧ tracks ext c' (tr ++ tr').
Proof.
  revert c lg0 tr. induction subs as [|[node|node] subs IH]; intros c lg0 tr Hn Hfuel Ht.
  - exists c, lg0, []. rewrite !app_nil_r. done.
  - destruct (CreateOrUpdateNode_noWriter fuel node c lg0 Hn Hfuel)
      as (r & c1 & lg1 & tr1 & Hrun1 & Hc1 & Hn1 & Hp1 & Heff).
    pose proof (tracks_upsertEffect c c1 tr tr1 node r Ht Heff) as Ht1.
    destruct (IH c1 lg1 (tr ++ tr1) Hn1) as (c' & lg & tr' & Hrun & Hc & Ht'); [lia|done|].
    exists c', lg, (tr1 ++ tr'). cbn [submit]. unfold bind at 1. rewrite Hrun1, Hrun.
    rewrite Hc, Hc1, <- !app_assoc. rewrite <- app_assoc in Ht'. done.
  - destruct (DeleteNode_noWriter node c lg0 tr Hn Ht)
      as (r & c1 & tr1 & Hrun1 & Hc1 & Hn1 & Hp1 & Ht1).
    destruct (IH c1 lg0 (tr ++ tr1) Hn1) as (c' & lg & tr' & Hrun & Hc & Ht'); [lia|done|].
    exists c', lg, (tr1 ++ tr'). cbn [submit]. unfold bind at 1. rewrite Hrun1, Hrun.
    rewrite Hc, Hc1, <- !app_assoc. rewrite <- app_assoc in Ht'. done.
Qed.
End no_writer.

(** * The statements of the specification *)

(** ** The version gate *)

Lemma Atoi_empty_fails : Atoi "" = Err (NumError "Atoi" "").
Proof. reflexivity. Qed.

(** C2. [checkNodeEdgeVersion] returns an error whenever the edge-version
    label of the incoming node or of the stored node is missing or empty,
    or is not accepted by [strconv.Atoi]; when both parse, it returns nil
    exactly when the incoming version is strictly greater than the stored
    one, and the error about a version less than or equal otherwise. *)
Theorem checkNodeEdgeVersion_accepts_exactly_newer
    (ext : Externals) (node storedNode : Node) :
  (edgeVersion ext node = "" ∨ edgeVersion ext storedNode = ""
   ∨ (∃ err, Atoi (edgeVersion ext node) = Err err)
   ∨ (∃ err, Atoi (edgeVersion ext storedNode) = Err err) →
   is_Some (checkNodeEdgeVersion ext node storedNode))
  ∧ (∀ nodeVersion storedNodeVersion,
       Atoi (edgeVersion ext node) = Ok nodeVersion →
       Atoi (edgeVersion ext storedNode) = Ok storedNodeVersion →
       (checkNodeEdgeVersion ext node storedNode = None
          ↔ storedNodeVersion < nodeVersion)
       ∧ (nodeVersion ≤ storedNodeVersion →
          checkNodeEdgeVersion ext node storedNode
          = Some (Errorf
              "Current node edge-version(%s) is less than or equal to ETCD's node edge-version(%s)"
              [edgeVersion ext node; edgeVersion ext storedNode]))).
Proof.
  unfold checkNodeEdgeVersion. split.
  - intros H. case_bool_decide as Hempty; [by eexists|].
    destruct (Atoi (edgeVersion ext node)) as [v|e] eqn:Hv; [|by eexists].
    destruct (Atoi (edgeVersion ext storedNode)) as [sv|e] eqn:Hsv; [|by eexists].
    destruct H as [H|[H|[[e H]|[e H]]]]; try discriminate; exfalso; tauto.
  - intros v sv Hv Hsv. rewrite Hv, Hsv.
    case_bool_decide as Hempty.
    { exfalso. destruct Hempty as [E|E]; rewrite E, Atoi_empty_fails in *; discriminate. }
    destruct (decide (v ≤ sv)) as [Hle|Hgt].
    + split; [|done]. split; [discriminate|lia].
    + split; [|lia]. split; [lia|done].
Qed.

Lemma checkNodeEdgeVersion_accepts_exactly_newer_witness :
  let ext := sampleExternals (report [] []) in
  checkNodeEdgeVersion ext (nodeAt "node-a" "2") (nodeAt "node-a" "1") = None
  ∧ is_Some (checkNodeEdgeVersion ext (nodeAt "node-a" "1") (nodeAt "node-a" "1"))
  ∧ is_Some (checkNodeEdgeVersion ext (nodeAt "node-a" "2") (bareNode "node-a"))
  ∧ is_Some (checkNodeEdgeVersion ext (nodeAt "node-a" "v2") (nodeAt "node-a" "1")).
Proof.
  intros ext.
  pose proof (checkNodeEdgeVersion_accepts_exactly_newer ext
                (nodeAt "node-a" "2") (nodeAt "node-a" "1")) as [_ H21].
  pose proof (checkNodeEdgeVersion_accepts_exactly_newer ext
                (nodeAt "node-a" "1") (nodeAt "node-a" "1")) as [_ H11].
  pose proof (checkNodeEdgeVersion_accepts_exactly_newer ext
                (nodeAt "node-a" "2") (bareNode "node-a")) as [Hbare _].
  pose proof (checkNodeEdgeVersion_accepts_exactly_newer ext
                (nodeAt "node-a" "v2") (nodeAt "node-a" "1")) as [Hv2 _].
  split_and!.
  - apply (H21 2 1); [reflexivity|reflexivity|lia].
  - destruct (H11 1 1) as [_ H]; [reflexivity|reflexivity|].
    rewrite H by lia. by eexists.
  - apply Hbare. right. left. reflexivity.
  - apply Hv2. right. right. left. eexists. reflexivity.
Defined.

(** ** The dispatcher *)

(** C8. An envelope that decodes to a report with the full list only, the
    update map and the delete map nil, returns nil and leaves the state as
    it was: no call reached the registry (the history of calls and the
    script of events are untouched) and nothing was logged. *)
Theorem handleNodeReport_full_list_only
    (ext : Externals) (fuel : nat) (b : list Byte.byte)
    (nrs : NodeResourceStatus) (full : list (option Node))
    (c : Cluster) (lg0 : list LogEntry) :
  Unmarshal ext b = Ok nrs →
  FullList nrs = Some full →
  UpdateMap nrs = None →
  DelMap nrs = None →
  ∃ s',
    handleNodeReport ext fuel b (mkState c lg0) = Returns None s'
    ∧ calls (world s') = calls c
    ∧ pending (world s') = pending c
    ∧ world s' = c
    ∧ klog s' = lg0.
Proof.
  intros Hb Hfull Hupd Hdel. exists (mkState c lg0).
  rewrite (handleNodeReport_decoded ext fuel b nrs _ Hb), Hupd, Hdel. done.
Qed.

Lemma handleNodeReport_full_list_only_witness :
  let nrs := {| UpdateMap := None; DelMap := None;
                FullList := Some [Some (nodeAt "node-a" "1"); None] |} in
  ∃ s',
    handleNodeReport (sampleExternals nrs) 0 envelope (mkState emptyCluster [])
      = Returns None s'
    ∧ calls (world s') = []
    ∧ pending (world s') = []
    ∧ world s' = emptyCluster
    ∧ klog s' = [].
Proof.
  intros nrs.
  exact (handleNodeReport_full_list_only (sampleExternals nrs) 0 envelope nrs
           [Some (nodeAt "node-a" "1"); None] emptyCluster []
           eq_refl eq_refl eq_refl eq_refl).
Defined.

(** C4, as stated, fails twice over. An envelope that decodes to an update
    map with a nil entry makes [handleNodeReport] panic on
    [&node.ObjectMeta]; and against a registry that answers every write
    with a conflict, the report with one newer update is never done,
    whatever the depth allowed to [UpdateNode]. *)
Lemma handleNodeReport_does_not_always_return :
  (let nrs := {| UpdateMap := Some {[ "node-a" := None ]};
                 DelMap := None; FullList := None |} in
   Unmarshal (sampleExternals nrs) envelope = Ok nrs
   ∧ handleNodeReport (sampleExternals nrs) 1 envelope (start emptyCluster)
     = Panics (start emptyCluster))
  ∧ (let nrs := report [("node-a", Some (nodeAt "node-a" "2"))] [] in
     Unmarshal (sampleExternals nrs) envelope = Ok nrs
     ∧ ¬ ∃ fuel r s',
         @handleNodeReport nat (contended_nodes (nodeAt "node-a" "1"))
           (sampleExternals nrs) fuel envelope (mkState 0%nat []) = Returns r s').
Proof.
  split.
  - split; [reflexivity|]. vm_compute. reflexivity.
  - split; [reflexivity|]. intros (fuel & r & s' & H). revert H.
    unfold handleNodeReport, NodeReportStatusDeserialize.
    cbn [Unmarshal sampleExternals sampleUnmarshal envelope FullList UpdateMap DelMap report].
    unfold handleNodeUpdateMap. cbn [rangeOf sampleExternals].
    assert (map_to_list (list_to_map [("node-a", Some (nodeAt "node-a" "2"))]
                           : gmap string (option Node))
            = [("node-a", Some (nodeAt "node-a" "2"))]) as -> by (vm_compute; reflexivity).
    unfold bind at 1. unfold bind at 1. unfold ret at 1. unfold bind at 1.
    cbn [forRange]. unfold bind at 1.
    unfold handleNodeUpdateMap_body. cbn [snd].
    assert (withUniqueName
              (sampleExternals (report [("node-a", Some (nodeAt "node-a" "2"))] []))
              (nodeAt "node-a" "2") = (nodeAt "node-a" "2", None)) as -> by reflexivity.
    unfold bind at 1. unfold CreateOrUpdateNode, GetNode.
    unfold bind at 1. unfold bind at 1. unfold call at 1.
    cbn [Get contended_nodes world klog]. unfold ret at 1.
    rewrite UpdateNode_contended by (vm_compute; reflexivity). discriminate.
Qed.

(** C4, amended. [handleNodeReport] returns an error when the envelope does
    not decode, and then nothing else happens. For an envelope that decodes
    to a report whose update and delete entries are all non-nil, it returns
    nil as soon as the registry stops answering writes with conflicts (a
    finite script of events, and fuel for it): every entry of the update
    map and then every entry of the delete map gets its turn in range
    order, and an entry that fails (identity, version or store error)
    leaves its error line in the log and the following entries are
    processed all the same. *)
Theorem handleNodeReport_fails_only_on_decode
    (ext : Externals) (fuel : nat) (b : list Byte.byte)
    (c : Cluster) (lg0 : list LogEntry) :
  (∀ err,
     Unmarshal ext b = Err err →
     handleNodeReport ext fuel b (mkState c lg0)
     = Returns (Some (ErrorfV "NodeReportStatusDeserialize failed : %v" err))
               (mkState c lg0))
  ∧ (∀ nrs,
       Unmarshal ext b = Ok nrs →
       noNilEntry (UpdateMap nrs) →
       noNilEntry (DelMap nrs) →
       (length (pending c) < fuel)%nat →
       ∃ c' ups dels,
         handleNodeReport ext fuel b (mkState c lg0)
         = Returns None (mkState c' (lg0 ++ concat ups.*2 ++ concat dels.*2))
         ∧ calls c' = calls c ++ concat ups.*1 ++ concat dels.*1
         ∧ Forall2 (UpdateEntryRun ext) (rangeOfNilable ext (UpdateMap nrs)) ups
         ∧ Forall2 (DeleteEntryRun ext) (rangeOfNilable ext (DelMap nrs)) dels).
Proof.
  split.
  - intros err Hb. by apply handleNodeReport_undecoded.
  - intros nrs Hb Hu Hd Hfuel. by apply handleNodeReport_runs.
Qed.

Lemma handleNodeReport_fails_only_on_decode_witness :
  let nrs := report [("node-a", Some (nodeAt "node-a" "1"));
                     ("node-b", Some (nodeAt "node-b" "3"));
                     ("node-c", Some (nodeAt "node-c" "1"))]
                    [("node-d", Some (bareNode "node-d"))] in
  let ext := sampleExternals nrs in
  let c := clusterOf [nodeAt "node-b" "5"] in
  handleNodeReport ext 1 [] (mkState c [])
  = Returns (Some (ErrorfV "NodeReportStatusDeserialize failed : %v"
                     (OtherError "unexpected end of JSON input")))
            (mkState c [])
  ∧ ∃ c' ups dels,
      handleNodeReport ext 1 envelope (mkState c [])
      = Returns None (mkState c' ([] ++ concat ups.*2 ++ concat dels.*2))
      ∧ calls c' = calls c ++ concat ups.*1 ++ concat dels.*1
      ∧ Forall2 (UpdateEntryRun ext) (rangeOfNilable ext (UpdateMap nrs)) ups
      ∧ Forall2 (DeleteEntryRun ext) (rangeOfNilable ext (DelMap nrs)) dels.
Proof.
  intros nrs ext c. split.
  - apply (handleNodeReport_fails_only_on_decode ext 1 [] c []). reflexivity.
  - apply (handleNodeReport_fails_only_on_decode ext 1 envelope c [] ); [reflexivity| | |simpl; lia].
    + apply (bool_decide_unpack _). vm_compute. exact I.
    + apply (bool_decide_unpack _). vm_compute. exact I.
Defined.

(** The isolation of entries on a report of three updates and one delete,
    against a registry that holds node-b at version 5: node-b is stale and
    is skipped with its error line, node-a and node-c are created, and the
    delete of the absent node-d leaves its error line. *)
Example partial_isolation :
  let nrs := report [("node-a", Some (nodeAt "node-a" "1"));
                     ("node-b", Some (nodeAt "node-b" "3"));
                     ("node-c", Some (nodeAt "node-c" "1"))]
                    [("node-d", Some (bareNode "node-d"))] in
  let out := handleNodeReport (sampleExternals nrs) 1 envelope
               (start (clusterOf [nodeAt "node-b" "5"])) in
  dom (storeOf out) = {[ "node-a"; "node-b"; "node-c" ]}
  ∧ edgeVersion (sampleExternals nrs) <$> storeOf out !! "node-b" = Some "5"
  ∧ KErrorf "Report node create or update event failed : %v"
      (Errorf
         "Current node edge-version(%s) is less than or equal to ETCD's node edge-version(%s)"
         ["3"; "5"]) ∈ klogOf out
  ∧ KErrorf "Report node delete event failed : %v" (StatusError "NotFound") ∈ klogOf out.
Proof.
  split_and!.
  - vm_compute. reflexivity.
  - vm_compute. reflexivity.
  - apply (bool_decide_unpack _). vm_compute. exact I.
  - apply (bool_decide_unpack _). vm_compute. exact I.
Qed.

(** C9, as stated, fails. One report that updates and deletes node-a, on
    an empty registry: the read and the create of the update come first
    and the delete last, so the node is gone at the end; with the deletes
    first it would be there. *)
Lemma deletes_do_not_run_first :
  let nrs := report [("node-a", Some (nodeAt "node-a" "1"))]
                    [("node-a", Some (nodeAt "node-a" "1"))] in
  let ext := sampleExternals nrs in
  let s := start emptyCluster in
  callsOf (handleNodeReport ext 1 envelope s)
  = [CallGet "node-a" (Err (StatusError "NotFound"));
     CallCreate (nodeAt "node-a" "1") (Ok (stamp 1 (nodeAt "node-a" "1")));
     CallDelete "node-a" None]
  ∧ storeOf (handleNodeReport ext 1 envelope s) = ∅
  ∧ storeOf (handleNodeReport_deletesFirst ext 1 envelope s)
    = {[ "node-a" := stamp 1 (nodeAt "node-a" "1") ]}
  ∧ handleNodeReport ext 1 envelope s ≠ handleNodeReport_deletesFirst ext 1 envelope s.
Proof.
  intros nrs ext s. split_and!.
  - vm_compute. reflexivity.
  - vm_compute. reflexivity.
  - vm_compute. reflexivity.
  - intros H. apply (f_equal storeOf) in H. vm_compute in H. discriminate H.
Qed.

(** C9, amended. Within one report the update map is processed before the
    delete map: the calls of the report are the calls of the upsert engine
    (reads, creates and updates, with a read for every update entry that
    gets past [UniqueResourceName]) followed by the calls of the delete
    handler (one delete for every delete entry that gets past it, in range
    order). *)
Theorem handleNodeReport_updates_before_deletes
    (ext : Externals) (fuel : nat) (b : list Byte.byte)
    (nrs : NodeResourceStatus) (c : Cluster) (lg0 : list LogEntry) :
  Unmarshal ext b = Ok nrs →
  noNilEntry (UpdateMap nrs) →
  noNilEntry (DelMap nrs) →
  (length (pending c) < fuel)%nat →
  ∃ s' ups dels,
    handleNodeReport ext fuel b (mkState c lg0) = Returns None s'
    ∧ calls (world s') = calls c ++ ups ++ dels
    ∧ Forall isUpsertCall ups
    ∧ (∀ node, node ∈ identified ext (rangeOfNilable ext (UpdateMap nrs)) →
         ∃ r, CallGet (Name (Meta node)) r ∈ ups)
    ∧ Forall isDeleteCall dels
    ∧ Forall2 (λ node k, ∃ r, k = CallDelete (Name (Meta node)) r)
        (identified ext (rangeOfNilable ext (DelMap nrs))) dels.
Proof.
  intros Hb Hu Hd Hfuel.
  destruct (handleNodeReport_runs ext fuel b nrs c lg0 Hb Hu Hd Hfuel)
    as (c' & ups & dels & Hrun & Hc & Hups & Hdels).
  apply update_entries_calls in Hups as [Hups1 Hups2].
  apply delete_entries_calls in Hdels as [Hdels1 Hdels2].
  eexists _, (concat ups.*1), (concat dels.*1). split_and!; eauto.
Qed.

Lemma handleNodeReport_updates_before_deletes_witness :
  let nrs := report [("node-a", Some (nodeAt "node-a" "1"))]
                    [("node-a", Some (nodeAt "node-a" "1"))] in
  let ext := sampleExternals nrs in
  ∃ s' ups dels,
    handleNodeReport ext 1 envelope (mkState emptyCluster []) = Returns None s'
    ∧ calls (world s') = calls emptyCluster ++ ups ++ dels
    ∧ Forall isUpsertCall ups
    ∧ (∀ node, node ∈ identified ext (rangeOfNilable ext (UpdateMap nrs)) →
         ∃ r, CallGet (Name (Meta node)) r ∈ ups)
    ∧ Forall isDeleteCall dels
    ∧ Forall2 (λ node k, ∃ r, k = CallDelete (Name (Meta node)) r)
        (identified ext (rangeOfNilable ext (DelMap nrs))) dels.
Proof.
  intros nrs ext.
  apply (handleNodeReport_updates_before_deletes ext 1 envelope nrs emptyCluster []);
    [reflexivity| | |simpl; lia].
  - apply (bool_decide_unpack _). vm_compute. exact I.
  - apply (bool_decide_unpack _). vm_compute. exact I.
Defined.

(** ** The delete handler *)

(** C3, as stated, fails. The delete of a node that the registry does not
    hold: [DeleteNode] returns the not found error of the registry, and the
    handler logs it as a failed delete event, with no success line. *)
Lemma not_found_is_a_failed_delete :
  let nrs := report [] [("node-a", Some (nodeAt "node-a" "1"))] in
  let out := handleNodeReport (sampleExternals nrs) 1 envelope (start emptyCluster) in
  (∃ s', DeleteNode (nodeAt "node-a" "1") (start emptyCluster)
         = Returns (Some (StatusError "NotFound")) s')
  ∧ callsOf out = [CallDelete "node-a" (Some (StatusError "NotFound"))]
  ∧ klogOf out = [KErrorf "Report node delete event failed : %v" (StatusError "NotFound")].
Proof.
  intros nrs out. split_and!.
  - eexists. vm_compute. reflexivity.
  - vm_compute. reflexivity.
  - vm_compute. reflexivity.
Qed.

(** C3, amended. [DeleteNode] issues one [Delete] and returns its outcome as
    it is; the handler logs every outcome that is not nil as a failed
    delete event, not found included (that is what the registry answers
    for an absent name, and nothing is removed), logs the success line
    only for nil, and goes on with the next entry: one [Delete] for each
    entry that gets past [UniqueResourceName], never a second one. *)
Theorem delete_failures_are_all_reported
    (ext : Externals) (c : Cluster) (lg0 : list LogEntry) :
  (∀ entry node node',
     entry.2 = Some node →
     withUniqueName ext node = (node', None) →
     ∃ r c',
       DeleteNode node' (mkState c lg0) = Returns r (mkState c' lg0)
       ∧ handleNodeDelMap_body ext entry (mkState c lg0)
         = Returns () (mkState c' (lg0 ++ [match r with
                                          | Some err => deleteFailed err
                                          | None => deleteSuccess node'
                                          end]))
       ∧ calls c' = calls c ++ [CallDelete (Name (Meta node')) r]
       ∧ (pending c = [] →
          store c !! Name (Meta node') = None →
          r = Some (StatusError StatusReasonNotFound) ∧ store c' = store c))
  ∧ (∀ delMap,
       noNilEntry (Some delMap) →
       ∃ c' chunks,
         handleNodeDelMap ext delMap (mkState c lg0)
         = Returns () (mkState c' (lg0 ++ concat chunks.*2))
         ∧ calls c' = calls c ++ concat chunks.*1
         ∧ Forall2 (DeleteEntryRun ext) (rangeOf ext delMap) chunks).
Proof.
  split.
  - intros entry node node' Hentry Hid.
    exists (cluster_Delete (Name (Meta node')) c).1, (cluster_Delete (Name (Meta node')) c).2.
    split_and!.
    + apply DeleteNode_unfold.
    + unfold handleNodeDelMap_body. rewrite Hentry, Hid. unfold bind.
      rewrite DeleteNode_unfold.
      by destruct (cluster_Delete (Name (Meta node')) c).1.
    + apply cluster_Delete_calls.
    + intros Hq Habs.
      destruct (cluster_Delete_quiet (Name (Meta node')) c Hq) as (c' & -> & Hs & _).
      simpl. rewrite Habs. split; [done|]. rewrite Hs. by apply delete_id.
  - intros delMap Hnil.
    destruct (forRange_delete_runs ext (rangeOf ext delMap) c lg0)
      as (c' & chunks & Hrun & Hc & Hshape & _).
    { by apply rangeOf_noNil. }
    exists c', chunks. done.
Qed.

Lemma delete_failures_are_all_reported_witness :
  let delMap : gmap string (option Node) :=
    {[ "node-a" := Some (nodeAt "node-a" "1") ]} in
  let ext := sampleExternals (report [] []) in
  (∃ r c',
     DeleteNode (nodeAt "node-a" "1") (mkState emptyCluster []) = Returns r (mkState c' [])
     ∧ handleNodeDelMap_body ext ("node-a", Some (nodeAt "node-a" "1"))
         (mkState emptyCluster [])
       = Returns () (mkState c' ([] ++ [match r with
                                       | Some err => deleteFailed err
                                       | None => deleteSuccess (nodeAt "node-a" "1")
                                       end]))
     ∧ calls c' = calls emptyCluster ++ [CallDelete "node-a" r]
     ∧ (pending emptyCluster = [] →
        store emptyCluster !! "node-a" = None →
        r = Some (StatusError StatusReasonNotFound) ∧ store c' = store emptyCluster))
  ∧ ∃ c' chunks,
      handleNodeDelMap ext delMap (mkState emptyCluster [])
      = Returns () (mkState c' ([] ++ concat chunks.*2))
      ∧ calls c' = calls emptyCluster ++ concat chunks.*1
      ∧ Forall2 (DeleteEntryRun ext) (rangeOf ext delMap) chunks.
Proof.
  intros delMap ext.
  destruct (delete_failures_are_all_reported ext emptyCluster []) as [Hentry Hmap].
  split.
  - apply (Hentry ("node-a", Some (nodeAt "node-a" "1")) (nodeAt "node-a" "1"));
      reflexivity.
  - apply Hmap. apply (bool_decide_unpack _). vm_compute. exact I.
Defined.

(** ** The upsert engine on the registry left alone *)

(** C6. A node whose name the registry does not hold is created exactly as
    given, whatever its labels (no version is read or compared), and
    [CreateOrUpdateNode] returns nil; when the create call itself fails,
    its error is returned and nothing is stored. So after a delete, an
    update for the same name is a first creation again and succeeds,
    whatever version the registry held before. *)
Theorem CreateOrUpdateNode_creates_absent_node
    (ext : Externals) (fuel : nat) (node : Node) (c : Cluster) (lg0 : list LogEntry) :
  (pending c = [] →
   store c !! Name (Meta node) = None →
   ∃ c',
     CreateOrUpdateNode ext fuel node (mkState c lg0)
     = Returns None (mkState c' (lg0 ++ [createSuccess node]))
     ∧ store c' = <[Name (Meta node) := stamp (revision c + 1) node]> (store c)
     ∧ calls c' = calls c ++ [CallGet (Name (Meta node)) (Err (StatusError StatusReasonNotFound));
                              CallCreate node (Ok (stamp (revision c + 1) node))])
  ∧ (∀ err evs,
       pending c = Quiet :: Fault err :: evs →
       store c !! Name (Meta node) = None →
       ∃ c',
         CreateOrUpdateNode ext fuel node (mkState c lg0)
         = Returns (Some err) (mkState c' lg0)
         ∧ store c' = store c
         ∧ calls c' = calls c ++ [CallGet (Name (Meta node)) (Err (StatusError StatusReasonNotFound));
                                  CallCreate node (Err err)])
  ∧ (∀ old,
       pending c = [] →
       is_Some (store c !! Name (Meta old)) →
       Name (Meta node) = Name (Meta old) →
       ∃ c1 c2,
         DeleteNode old (mkState c lg0) = Returns None (mkState c1 lg0)
         ∧ store c1 !! Name (Meta old) = None
         ∧ CreateOrUpdateNode ext fuel node (mkState c1 lg0)
           = Returns None (mkState c2 (lg0 ++ [createSuccess node]))
         ∧ store c2 !! Name (Meta node) = Some (stamp (revision c1 + 1) node)).
Proof.
  split_and!.
  - intros Hq Habs.
    destruct (CreateOrUpdateNode_quiet_absent ext fuel node c lg0 Hq Habs)
      as (c' & Hrun & Hs & _ & _ & Hc).
    exists c'. done.
  - intros err evs Hp Habs. rewrite CreateOrUpdateNode_unfold.
    unfold cluster_Get, arrive. rewrite Hp. cbn [store]. rewrite Habs.
    assert (IsNotFound (StatusError StatusReasonNotFound) = true) as -> by reflexivity.
    unfold cluster_Create, arrive, record. cbn [pending store revision calls].
    eexists. split; [reflexivity|]. cbn [store calls]. by rewrite <- app_assoc.
  - intros old Hq [stored Hs] Hname.
    destruct (DeleteNode_quiet old c lg0 Hq) as (c1 & Hdel & Hs1 & Hq1 & _).
    rewrite Hs in Hdel.
    assert (store c1 !! Name (Meta node) = None) as Habs.
    { rewrite Hs1, Hname. apply lookup_delete_eq. }
    destruct (CreateOrUpdateNode_quiet_absent ext fuel node c1 lg0 Hq1 Habs)
      as (c2 & Hrun & Hs2 & _).
    exists c1, c2. split_and!; [done| |done|].
    + by rewrite <- Hname.
    + rewrite Hs2. apply lookup_insert_eq.
Qed.

Lemma CreateOrUpdateNode_creates_absent_node_witness :
  let ext := sampleExternals (report [] []) in
  let c := clusterOf [nodeAt "n1" "2"] in
  (∃ c',
     CreateOrUpdateNode ext 0 (bareNode "n2") (mkState c [])
     = Returns None (mkState c' ([] ++ [createSuccess (bareNode "n2")]))
     ∧ store c' = <["n2" := stamp (revision c + 1) (bareNode "n2")]> (store c)
     ∧ calls c' = calls c ++ [CallGet "n2" (Err (StatusError StatusReasonNotFound));
                              CallCreate (bareNode "n2")
                                (Ok (stamp (revision c + 1) (bareNode "n2")))])
  ∧ ∃ c1 c2,
      DeleteNode (nodeAt "n1" "2") (mkState c []) = Returns None (mkState c1 [])
      ∧ store c1 !! "n1" = None
      ∧ CreateOrUpdateNode ext 0 (nodeAt "n1" "1") (mkState c1 [])
        = Returns None (mkState c2 ([] ++ [createSuccess (nodeAt "n1" "1")]))
      ∧ store c2 !! "n1" = Some (stamp (revision c1 + 1) (nodeAt "n1" "1")).
Proof.
  intros ext c. split.
  - apply (CreateOrUpdateNode_creates_absent_node ext 0 (bareNode "n2") c []);
      reflexivity.
  - apply (CreateOrUpdateNode_creates_absent_node ext 0 (nodeAt "n1" "1") c []
             ); [reflexivity| |reflexivity].
    vm_compute. by eexists.
Defined.

(** C10. First creation does not look at the edge-version label: a node
    without it (or with an empty one) whose name the registry does not
    hold is created. From then on, as long as the registry holds a node
    without edge-version under that name, every update for the name,
    whatever version it carries, is turned down by the gate with the
    empty-version error and writes nothing, so the registry keeps holding
    it; only a delete removes it. *)
Theorem node_created_without_edge_version_is_never_updated
    (ext : Externals) (fuel : nat) (node : Node) (c : Cluster) (lg0 : list LogEntry) :
  edgeVersion ext node = "" →
  pending c = [] →
  store c !! Name (Meta node) = None →
  ∃ c1 stored,
    CreateOrUpdateNode ext fuel node (mkState c lg0)
    = Returns None (mkState c1 (lg0 ++ [createSuccess node]))
    ∧ store c1 !! Name (Meta node) = Some stored
    ∧ edgeVersion ext stored = ""
    ∧ pending c1 = []
    ∧ ∀ c2 lg2 stored2,
        pending c2 = [] →
        store c2 !! Name (Meta node) = Some stored2 →
        edgeVersion ext stored2 = "" →
        (∀ fuel' node',
           Name (Meta node') = Name (Meta node) →
           ∃ c3,
             CreateOrUpdateNode ext (S fuel') node' (mkState c2 lg2)
             = Returns (Some (Errorf "node edge-version is empty" [])) (mkState c3 lg2)
             ∧ store c3 = store c2
             ∧ revision c3 = revision c2
             ∧ pending c3 = []
             ∧ calls c3 = calls c2 ++ [CallGet (Name (Meta node)) (Ok stored2);
                                       CallGet (Name (Meta node)) (Ok stored2)])
        ∧ ∃ c3,
            DeleteNode node (mkState c2 lg2) = Returns None (mkState c3 lg2)
            ∧ store c3 !! Name (Meta node) = None.
Proof.
  intros Hempty Hq Habs.
  destruct (CreateOrUpdateNode_quiet_absent ext fuel node c lg0 Hq Habs)
    as (c1 & Hrun & Hs1 & _ & Hq1 & _).
  exists c1, (stamp (revision c + 1) node). split_and!; [done| |done|done|].
  { rewrite Hs1. apply lookup_insert_eq. }
  intros c2 lg2 stored2 Hq2 Hs2 Hempty2. split.
  - intros fuel' node' Hname. rewrite <- Hname in Hs2.
    pose proof (CreateOrUpdateNode_quiet_present ext fuel' node' c2 lg2 stored2 Hq2 Hs2) as H.
    assert (checkNodeEdgeVersion ext node' stored2
            = Some (Errorf "node edge-version is empty" [])) as Hck.
    { unfold checkNodeEdgeVersion. rewrite bool_decide_eq_true_2; auto. }
    rewrite Hck in H. destruct H as (c3 & Hrun3 & Hs3 & Hr3 & Hq3 & Hc3).
    exists c3. rewrite <- Hname. done.
  - destruct (DeleteNode_quiet node c2 lg2 Hq2) as (c3 & Hdel & Hs3 & _).
    rewrite Hs2 in Hdel. exists c3. split; [done|].
    rewrite Hs3. apply lookup_delete_eq.
Qed.

Lemma node_created_without_edge_version_is_never_updated_witness :
  let ext := sampleExternals (report [] []) in
  ∃ c1 stored,
    CreateOrUpdateNode ext 1 (bareNode "n1") (mkState emptyCluster [])
    = Returns None (mkState c1 ([] ++ [createSuccess (bareNode "n1")]))
    ∧ store c1 !! "n1" = Some stored
    ∧ edgeVersion ext stored = ""
    ∧ pending c1 = []
    ∧ ∃ c3,
        CreateOrUpdateNode ext 1 (nodeAt "n1" "7") (mkState c1 [])
        = Returns (Some (Errorf "node edge-version is empty" [])) (mkState c3 [])
        ∧ store c3 = store c1.
Proof.
  intros ext.
  destruct (node_created_without_edge_version_is_never_updated
              ext 1 (bareNode "n1") emptyCluster [] eq_refl eq_refl eq_refl)
    as (c1 & stored & Hrun & Hs & Hv & Hq & Hstuck).
  exists c1, stored. split_and!; try done.
  destruct (Hstuck c1 [] stored Hq Hs Hv) as [Hupd _].
  destruct (Hupd 0%nat (nodeAt "n1" "7") eq_refl) as (c3 & Hrun3 & Hs3 & _).
  exists c3. done.
Defined.

(** C7. The same update twice, on the registry left alone: whatever the
    first submission did, the second one (same name, same edge-version) is
    turned down by the version gate against the node the registry then
    holds, and writes nothing: two reads, and the store and its revision
    are those the first submission left. *)
Theorem second_submission_is_rejected_without_write
    (ext : Externals) (fuel : nat) (node node' : Node) (c : Cluster) (lg0 : list LogEntry) :
  pending c = [] →
  Name (Meta node') = Name (Meta node) →
  edgeVersion ext node' = edgeVersion ext node →
  ∃ r1 c1 lg1 stored err c2,
    CreateOrUpdateNode ext (S fuel) node (mkState c lg0) = Returns r1 (mkState c1 lg1)
    ∧ store c1 !! Name (Meta node) = Some stored
    ∧ checkNodeEdgeVersion ext node' stored = Some err
    ∧ CreateOrUpdateNode ext (S fuel) node' (mkState c1 lg1)
      = Returns (Some err) (mkState c2 lg1)
    ∧ store c2 = store c1
    ∧ revision c2 = revision c1
    ∧ calls c2 = calls c1 ++ [CallGet (Name (Meta node)) (Ok stored);
                              CallGet (Name (Meta node)) (Ok stored)].
Proof.
  intros Hq Hname Hver.
  assert (∃ r1 c1 lg1 stored,
            CreateOrUpdateNode ext (S fuel) node (mkState c lg0) = Returns r1 (mkState c1 lg1)
            ∧ store c1 !! Name (Meta node) = Some stored
            ∧ pending c1 = []
            ∧ is_Some (checkNodeEdgeVersion ext node stored))
    as (r1 & c1 & lg1 & stored & Hrun1 & Hs1 & Hq1 & Hck).
  { destruct (store c !! Name (Meta node)) as [stored0|] eqn:Hs.
    - pose proof (CreateOrUpdateNode_quiet_present ext fuel node c lg0 stored0 Hq Hs) as H.
      destruct (checkNodeEdgeVersion ext node stored0) as [err|] eqn:Hck0;
        destruct H as (c1 & Hrun & Hs1 & _ & Hq1 & _).
      + exists (Some err), c1, lg0, stored0. rewrite Hs1, Hck0. by eauto.
      + eexists None, c1, _, _. split_and!; [done| |done|].
        * rewrite Hs1. apply lookup_insert_eq.
        * by apply checkNodeEdgeVersion_same_version.
    - destruct (CreateOrUpdateNode_quiet_absent ext (S fuel) node c lg0 Hq Hs)
        as (c1 & Hrun & Hs1 & _ & Hq1 & _).
      eexists None, c1, _, _. split_and!; [done| |done|].
      + rewrite Hs1. apply lookup_insert_eq.
      + by apply checkNodeEdgeVersion_same_version. }
  rewrite <- (checkNodeEdgeVersion_labels ext node node' stored stored Hver eq_refl) in Hck.
  destruct Hck as [err Hck].
  rewrite <- Hname in Hs1.
  pose proof (CreateOrUpdateNode_quiet_present ext fuel node' c1 lg1 stored Hq1 Hs1) as H.
  rewrite Hck in H. destruct H as (c2 & Hrun2 & Hs2 & Hr2 & _ & Hc2).
  exists r1, c1, lg1, stored, err, c2. rewrite <- Hname. done.
Qed.

Lemma second_submission_is_rejected_without_write_witness :
  let ext := sampleExternals (report [] []) in
  ∃ r1 c1 lg1 stored err c2,
    CreateOrUpdateNode ext 1 (nodeAt "node-a" "1") (mkState emptyCluster [])
    = Returns r1 (mkState c1 lg1)
    ∧ store c1 !! "node-a" = Some stored
    ∧ checkNodeEdgeVersion ext (nodeAt "node-a" "1") stored = Some err
    ∧ CreateOrUpdateNode ext 1 (nodeAt "node-a" "1") (mkState c1 lg1)
      = Returns (Some err) (mkState c2 lg1)
    ∧ store c2 = store c1
    ∧ revision c2 = revision c1
    ∧ calls c2 = calls c1 ++ [CallGet "node-a" (Ok stored); CallGet "node-a" (Ok stored)].
Proof.
  intros ext.
  exact (second_submission_is_rejected_without_write ext 0
           (nodeAt "node-a" "1") (nodeAt "node-a" "1") emptyCluster []
           eq_refl eq_refl eq_refl).
Defined.

(** The scenario of the specification, report after report. *)
Example scenario_of_the_specification :
  let upd v := report [("node-a", Some (nodeAt "node-a" v))] [] in
  let del := report [] [("node-a", Some (bareNode "node-a"))] in
  let run nrs o :=
    match o with
    | Returns _ s => handleNodeReport (sampleExternals nrs) 1 envelope s
    | o => o
    end in
  let o1 := handleNodeReport (sampleExternals (upd "1")) 1 envelope (start emptyCluster) in
  let o2 := run (upd "1") o1 in
  let o3 := run (upd "2") o2 in
  let o4 := run del o3 in
  storeOf o1 = {[ "node-a" := stamp 1 (nodeAt "node-a" "1") ]}
  ∧ storeOf o2 = storeOf o1
  ∧ storeOf o3 = {[ "node-a" := stamp 2 (nodeAt "node-a" "2") ]}
  ∧ storeOf o4 = ∅.
Proof. vm_compute. done. Qed.

(** ** Optimistic concurrency *)

(** C5. A run of [UpdateNode] against the registry, whatever the script of
    failures and of writes by others: every [Update] it attempts comes
    right after a [Get] of the same name that found a node, and carries the
    resource version of that node; an [Update] answered with a conflict is
    followed by a new [Get], the start of the next round; any other
    failure, of a [Get] or of an [Update], ends the run and is returned.
    The number of rounds has no bound of its own: under [k] conflicts in a
    row, [k] levels of recursion are not enough, and with one more the
    [k + 1]-th write goes through. *)
Theorem UpdateNode_retries_on_conflict_with_a_fresh_read
    (ext : Externals) (fuel : nat) (node : Node) (c : Cluster) (lg0 : list LogEntry) :
  ((length (pending c) < fuel)%nat →
   ∃ res c' tr lg,
     UpdateNode ext fuel node (mkState c lg0) = Returns res (mkState c' (lg0 ++ lg))
     ∧ calls c' = calls c ++ tr
     ∧ UpdateRun ext node tr lg res
     ∧ (∀ i node2 r,
          tr !! i = Some (CallUpdate node2 r) →
          ∃ j stored,
            i = S j
            ∧ tr !! j = Some (CallGet (Name (Meta node2)) (Ok stored))
            ∧ ResourceVersion (Meta node2) = ResourceVersion (Meta stored))
     ∧ (∀ i node2 err,
          tr !! i = Some (CallUpdate node2 (Err err)) →
          IsConflict err = true →
          ∃ r, tr !! S i = Some (CallGet (Name (Meta node2)) r))
     ∧ (∀ i err,
          (∃ name, tr !! i = Some (CallGet name (Err err)))
          ∨ (∃ node2, tr !! i = Some (CallUpdate node2 (Err err))
                      ∧ IsConflict err = false) →
          res = Some err ∧ length tr = S i))
  ∧ (∀ k stored,
       store c !! Name (Meta node) = Some stored →
       checkNodeEdgeVersion ext node stored = None →
       pending c = contention k →
       UpdateNode ext k node (mkState c lg0) = OutOfFuel
       ∧ ∃ c' tr,
           UpdateNode ext (S k) node (mkState c lg0)
           = Returns None (mkState c' (lg0 ++ [updateSuccess node]))
           ∧ calls c' = calls c ++ tr
           ∧ updateAttempts tr = S k
           ∧ store c' !! Name (Meta node)
             = Some (stamp (revision c + 1) (withVersionOf node stored))).
Proof.
  split.
  - intros Hfuel.
    destruct (UpdateNode_runs ext fuel node c lg0 Hfuel)
      as (res & c' & tr & lg & Hrun & Hc & Hshape & _).
    exists res, c', tr, lg. split_and!; [done|done|done|..].
    + by apply (UpdateRun_write_follows_read ext node tr lg res).
    + by apply (UpdateRun_conflict_is_retried ext node tr lg res).
    + by apply (UpdateRun_failure_is_returned ext node tr lg res).
  - intros k stored Hs Hck Hp. by apply UpdateNode_contention.
Qed.

Lemma UpdateNode_retries_on_conflict_with_a_fresh_read_witness :
  let ext := sampleExternals (report [] []) in
  let c := clusterOf [nodeAt "node-a" "1"] in
  let busy := mkCluster (store c) (revision c) (contention 2) [] in
  let node := nodeAt "node-a" "2" in
  (∃ res c' tr lg,
     UpdateNode ext 5 node (mkState busy []) = Returns res (mkState c' ([] ++ lg))
     ∧ calls c' = calls busy ++ tr
     ∧ UpdateRun ext node tr lg res)
  ∧ UpdateNode ext 2 node (mkState busy []) = OutOfFuel
  ∧ ∃ c' tr,
      UpdateNode ext 3 node (mkState busy [])
      = Returns None (mkState c' ([] ++ [updateSuccess node]))
      ∧ calls c' = calls busy ++ tr
      ∧ updateAttempts tr = 3%nat.
Proof.
  intros ext c busy node. split.
  - destruct (UpdateNode_retries_on_conflict_with_a_fresh_read ext 5 node busy [])
      as [Hrun _].
    destruct Hrun as (res & c' & tr & lg & H1 & H2 & H3 & _); [simpl; lia|].
    exists res, c', tr, lg. done.
  - destruct (UpdateNode_retries_on_conflict_with_a_fresh_read ext 5 node busy [])
      as [_ Hk].
    destruct (Hk 2%nat (stamp 1 (nodeAt "node-a" "1")))
      as [Hout (c' & tr & H1 & H2 & H3 & _)]; [reflexivity|reflexivity|reflexivity|].
    split; [done|]. exists c', tr. done.
Defined.

(** ** Monotonic edge-versions *)

(** C1, as stated, fails. node n1 goes through the upsert engine at version
    2, is deleted, and goes through the upsert engine again at version 1:
    the three calls succeed, and the versions the engine committed for n1
    are 2 and then 1. *)
Lemma a_delete_resets_the_edge_version :
  let ext := sampleExternals (report [] []) in
  let out := submit ext 1 [Upsert (nodeAt "n1" "2");
                           Removal (nodeAt "n1" "2");
                           Upsert (nodeAt "n1" "1")] (start emptyCluster) in
  callsOf out
  = [CallGet "n1" (Err (StatusError "NotFound"));
     CallCreate (nodeAt "n1" "2") (Ok (stamp 1 (nodeAt "n1" "2")));
     CallDelete "n1" None;
     CallGet "n1" (Err (StatusError "NotFound"));
     CallCreate (nodeAt "n1" "1") (Ok (stamp 3 (nodeAt "n1" "1")))]
  ∧ committed ext "n1" (callsOf out) = ["2"; "1"]
  ∧ ¬ strictlyIncreasing (committed ext "n1" (callsOf out))
  ∧ storeOf out = {[ "n1" := stamp 3 (nodeAt "n1" "1") ]}.
Proof.
  intros ext out.
  assert (committed ext "n1" (callsOf out) = ["2"; "1"]) as Hc by (vm_compute; reflexivity).
  split_and!.
  - vm_compute. reflexivity.
  - exact Hc.
  - rewrite Hc. intros [(x & y & Hx & Hy & Hlt) _].
    vm_compute in Hx, Hy. injection Hx as <-. injection Hy as <-. lia.
  - vm_compute. reflexivity.
Qed.

(** Nor does the sequence go up beside another writer: the engine
    commits n1 at version 5, somebody else stores n1 at version 1, and the
    engine's update to version 2 is accepted over it. No delete took
    place, and the engine committed 5 and then 2. *)
Example another_writer_resets_the_edge_version :
  let ext := sampleExternals (report [] []) in
  let c := mkCluster ∅ 0 [Quiet; Quiet; Writer (Put (nodeAt "n1" "1"))] [] in
  let out := submit ext 2 [Upsert (nodeAt "n1" "5"); Upsert (nodeAt "n1" "2")]
               (start c) in
  committed ext "n1" (callsOf out) = ["5"; "2"]
  ∧ lineage ext "n1" (callsOf out) = ["5"; "2"]
  ∧ klogOf out = [createSuccess (nodeAt "n1" "5"); updateSuccess (nodeAt "n1" "2")].
Proof. vm_compute. done. Qed.

(** C1, amended. As long as no other client writes to the registry (calls
    may fail), for every node name and every run of upserts and deletes the
    edge-versions the upsert engine committed for the name since the last
    delete of the name (all its commits, when the run never deletes it)
    parse and are strictly increasing in commit order. An update for a
    node the registry holds whose edge-version is less than or equal to the
    stored one is rejected - [CreateOrUpdateNode] returns an error, the
    version error after two reads when no call fails - and nothing is
    written; and when an update for a node the registry holds is accepted,
    the edge-version it stores is strictly greater than the one it
    replaces. The last part holds beside other writers too: in a round of
    [UpdateNode] (read, gate, write) under any script, a write that goes
    through lands on the very node that was read and compared, so it
    replaces a strictly older edge-version. *)
Theorem edge_versions_increase_within_a_lineage
    (ext : Externals) (fuel : nat) (c : Cluster) (lg0 : list LogEntry) :
  (noWriter c →
   (length (pending c) < fuel)%nat →
   (∀ subs,
      ∃ c' lg tr,
        submit ext fuel subs (mkState c lg0) = Returns () (mkState c' lg)
        ∧ calls c' = calls c ++ tr
        ∧ ∀ name,
            strictlyIncreasing (lineage ext name tr)
            ∧ (CallDelete name None ∉ tr → strictlyIncreasing (committed ext name tr)))
   ∧ (∀ node stored,
        store c !! Name (Meta node) = Some stored →
        ∃ r c' lg tr,
          CreateOrUpdateNode ext fuel node (mkState c lg0) = Returns r (mkState c' lg)
          ∧ calls c' = calls c ++ tr
          ∧ (∀ v sv,
               Atoi (edgeVersion ext node) = Ok v →
               Atoi (edgeVersion ext stored) = Ok sv →
               v ≤ sv →
               is_Some r
               ∧ store c' = store c
               ∧ commits tr = []
               ∧ (pending c = [] →
                  r = Some (Errorf
                    "Current node edge-version(%s) is less than or equal to ETCD's node edge-version(%s)"
                    [edgeVersion ext node; edgeVersion ext stored])
                  ∧ tr = [CallGet (Name (Meta node)) (Ok stored);
                          CallGet (Name (Meta node)) (Ok stored)]))
          ∧ (r = None →
             newer (edgeVersion ext stored) (edgeVersion ext node)
             ∧ ∃ stored',
                 store c' !! Name (Meta node) = Some stored'
                 ∧ edgeVersion ext stored' = edgeVersion ext node)))
  ∧ (wellStamped c →
     ∀ node stored c1 written c2,
       cluster_Get (Name (Meta node)) c = (Ok stored, c1) →
       checkNodeEdgeVersion ext node stored = None →
       cluster_Update (withVersionOf node stored) c1 = (Ok written, c2) →
       store (arrive c1).2 !! Name (Meta node) = Some stored
       ∧ store c2 = <[Name (Meta node) := written]> (store (arrive c1).2)
       ∧ newer (edgeVersion ext stored) (edgeVersion ext written)).
Proof.
  split; [intros Hn Hfuel; split|].
  - intros subs.
    destruct (tracks_submit_noWriter ext fuel subs c lg0 [] Hn Hfuel (tracks_nil ext c))
      as (c' & lg & tr & Hrun & Hc & Ht).
    exists c', lg, tr. split_and!; [done|done|].
    intros name. destruct (Ht name) as [Hinc _]. simpl in Hinc. split; [done|].
    intros Hnot. by rewrite <- lineage_committed.
  - intros node stored Hs.
    destruct (CreateOrUpdateNode_noWriter ext fuel node c lg0 Hn Hfuel)
      as (r & c' & lg & tr & Hrun & Hc & _ & _ & Heff).
    exists r, c', lg, tr. split_and!; [done|done| |].
    + intros v sv Hv Hsv Hle.
      pose proof (checkNodeEdgeVersion_stale ext node stored v sv Hv Hsv Hle) as Hstale.
      destruct r as [err|].
      * destruct Heff as [Hstore Hidle].
        split_and!; [by eexists|done|by apply commits_idle|].
        intros Hq. destruct fuel as [|fuel']; [simpl in Hfuel; lia|].
        pose proof (CreateOrUpdateNode_quiet_present ext fuel' node c lg0 stored Hq Hs) as H.
        rewrite Hstale in H. destruct H as (c2 & Hrun2 & _ & _ & _ & Hc2).
        rewrite Hrun2 in Hrun. injection Hrun as -> -> _.
        split; [done|]. rewrite Hc2 in Hc. by apply app_inv_head in Hc.
      * exfalso. destruct Heff as (_ & _ & _ & _ & _ & _ & _ & _ & _ & _ & _ & _ & Hgate).
        rewrite Hs, Hstale in Hgate. discriminate.
    + intros ->.
      destruct Heff as (tr0 & k & committedNode & stamped & _ & _ & _ & _ & _ & _
                        & Hafter & Hstamped & Hgate).
      rewrite Hs in Hgate. split; [by apply checkNodeEdgeVersion_None|].
      exists stamped. rewrite Hafter, lookup_insert_eq. done.
  - intros Hw node stored c1 written c2 HG Hck HU.
    destruct (accepted_write_lands_on_what_was_read ext node c stored c1 written c2 Hw HG HU)
      as (Hread & Hs2 & Hv).
    split_and!; [done|done|]. rewrite Hv. by apply checkNodeEdgeVersion_None.
Qed.

Lemma edge_versions_increase_within_a_lineage_witness :
  let ext := sampleExternals (report [] []) in
  let c := clusterOf [nodeAt "n1" "2"] in
  let faulty := mkCluster (store c) (revision c)
                  [Fault (OtherError "connection reset"); Quiet;
                   Fault (StatusError StatusReasonConflict); Quiet] [] in
  let busy := mkCluster (store c) (revision c)
                [Quiet; Writer (Put (nodeAt "n2" "9"))] [] in
  noWriter faulty
  ∧ (∃ c' lg tr,
       submit ext 5 [Upsert (nodeAt "n1" "3"); Upsert (nodeAt "n1" "3");
                     Upsert (nodeAt "n1" "5"); Removal (nodeAt "n1" "5");
                     Upsert (nodeAt "n1" "1"); Upsert (nodeAt "n1" "4")]
         (mkState faulty []) = Returns () (mkState c' lg)
       ∧ calls c' = calls faulty ++ tr
       ∧ ∀ name,
           strictlyIncreasing (lineage ext name tr)
           ∧ (CallDelete name None ∉ tr → strictlyIncreasing (committed ext name tr)))
  ∧ (∃ r c' lg tr,
       CreateOrUpdateNode ext 1 (nodeAt "n1" "2") (mkState c []) = Returns r (mkState c' lg)
       ∧ calls c' = calls c ++ tr
       ∧ is_Some r
       ∧ store c' = store c
       ∧ commits tr = []
       ∧ r = Some (Errorf
           "Current node edge-version(%s) is less than or equal to ETCD's node edge-version(%s)"
           ["2"; "2"])
       ∧ tr = [CallGet "n1" (Ok (stamp 1 (nodeAt "n1" "2")));
               CallGet "n1" (Ok (stamp 1 (nodeAt "n1" "2")))])
  ∧ wellStamped busy
  ∧ newer "2" (edgeVersion ext (stamp 3 (withVersionOf (nodeAt "n1" "3")
                                           (stamp 1 (nodeAt "n1" "2"))))).
Proof.
  intros ext c faulty busy.
  assert (noWriter faulty) as Hn.
  { unfold noWriter, faulty. cbn [pending]. repeat constructor; simpl; tauto. }
  assert (wellStamped busy) as Hw.
  { intros name stored Hs. exists 1%N.
    destruct (decide (name = "n1")) as [->|Hne].
    - vm_compute in Hs. injection Hs as <-. split; [vm_compute; discriminate|reflexivity].
    - unfold busy, c in Hs. cbn in Hs. rewrite lookup_insert_ne in Hs by done.
      rewrite lookup_empty in Hs. discriminate. }
  split_and!; [exact Hn| | |exact Hw|].
  - destruct (edge_versions_increase_within_a_lineage ext 5 faulty []) as [Hquiet _].
    destruct Hquiet as [Hruns _]; [exact Hn|simpl; lia|]. apply Hruns.
  - destruct (edge_versions_increase_within_a_lineage ext 1 c []) as [Hquiet _].
    destruct Hquiet as [_ Hone]; [constructor|simpl; lia|].
    destruct (Hone (nodeAt "n1" "2") (stamp 1 (nodeAt "n1" "2")) eq_refl)
      as (r & c' & lg & tr & Hrun & Hc & Hrej & _).
    destruct (Hrej 2 2) as (Hr & Hstore & Hcommits & Hquiet);
      [reflexivity|reflexivity|lia|].
    destruct (Hquiet eq_refl) as [Hstale Htr].
    exists r, c', lg, tr. done.
  - destruct (edge_versions_increase_within_a_lineage ext 0 busy []) as [_ Hround].
    eapply (Hround Hw (nodeAt "n1" "3") (stamp 1 (nodeAt "n1" "2"))).
    + vm_compute. reflexivity.
    + vm_compute. reflexivity.
    + vm_compute. reflexivity.
Defined.

Example lineage_of_a_run :
  let ext := sampleExternals (report [] []) in
  let out := submit ext 1 [Upsert (nodeAt "n1" "3"); Upsert (nodeAt "n1" "3");
                           Upsert (nodeAt "n1" "5"); Removal (nodeAt "n1" "5");
                           Upsert (nodeAt "n1" "1"); Upsert (nodeAt "n1" "4")]
               (start (clusterOf [nodeAt "n1" "2"])) in
  committed ext "n1" (callsOf out) = ["3"; "5"; "1"; "4"]
  ∧ lineage ext "n1" (callsOf out) = ["1"; "4"].
Proof. vm_compute. done. Qed.

(** * Further properties of the processor *)

(** ** The version gate as an order *)

Lemma checkNodeEdgeVersion_newer ext node stored :
  checkNodeEdgeVersion ext node stored = None
  ↔ newer (edgeVersion ext stored) (edgeVersion ext node).
Proof.
  split; [apply checkNodeEdgeVersion_None|].
  intros (sv & v & Hsv & Hv & Hlt). unfold checkNodeEdgeVersion. rewrite Hv, Hsv.
  case_bool_decide as Hempty.
  - exfalso. destruct Hempty as [E|E]; rewrite E in *; discriminate.
  - by rewrite decide_False by lia.
Qed.

(** X1. "Supersedes" is a strict order on nodes: the gate never accepts a
    node over itself (nor over a node with the same edge-version label), it
    never accepts two nodes over each other, and if it accepts [a] over [b]
    and [b] over [c] it accepts [a] over [c]. *)
Theorem checkNodeEdgeVersion_is_a_strict_order (ext : Externals) (a b c : Node) :
  (edgeVersion ext a = edgeVersion ext b →
   is_Some (checkNodeEdgeVersion ext a b))
  ∧ (checkNodeEdgeVersion ext a b = None →
     is_Some (checkNodeEdgeVersion ext b a))
  ∧ (checkNodeEdgeVersion ext a b = None →
     checkNodeEdgeVersion ext b c = None →
     checkNodeEdgeVersion ext a c = None).
Proof.
  split_and!.
  - intros E. by apply checkNodeEdgeVersion_same_version.
  - intros Hab. apply checkNodeEdgeVersion_newer in Hab as (y & x & Hy & Hx & Hlt).
    destruct (checkNodeEdgeVersion ext b a) as [err|] eqn:Hba; [by eexists|].
    apply checkNodeEdgeVersion_newer in Hba as (x' & y' & Hx' & Hy' & Hlt').
    rewrite Hx in Hx'. rewrite Hy in Hy'. injection Hx' as <-. injection Hy' as <-. lia.
  - intros Hab Hbc.
    apply checkNodeEdgeVersion_newer in Hab as (y & x & Hy & Hx & Hlt).
    apply checkNodeEdgeVersion_newer in Hbc as (z & y' & Hz & Hy' & Hlt').
    rewrite Hy in Hy'. injection Hy' as <-.
    apply checkNodeEdgeVersion_newer. exists z, x. split_and!; [done|done|lia].
Qed.

Lemma checkNodeEdgeVersion_is_a_strict_order_witness :
  let ext := sampleExternals (report [] []) in
  checkNodeEdgeVersion ext (nodeAt "n" "10") (nodeAt "n" "7") = None.
Proof.
  intros ext.
  destruct (checkNodeEdgeVersion_is_a_strict_order ext
              (nodeAt "n" "10") (nodeAt "n" "9") (nodeAt "n" "7")) as (_ & _ & Htrans).
  apply Htrans; reflexivity.
Defined.

(** ** Edge-versions written in decimal *)

Lemma digits_app n a b :
  digits n (a +:+ b) = match digits n a with
                       | Some m => digits m b
                       | None => None
                       end.
Proof.
  revert n. induction a as [|ch a IH]; intros n; simpl; [done|].
  destruct (digit ch); [apply IH|done].
Qed.

Lemma digit_pretty_N_char (d : N) :
  (d < 10)%N → digit (pretty_N_char d) = Some (Z.of_N d).
Proof.
  intros Hd.
  assert (d = 0 ∨ d = 1 ∨ d = 2 ∨ d = 3 ∨ d = 4 ∨ d = 5 ∨ d = 6 ∨ d = 7
          ∨ d = 8 ∨ d = 9)%N as H by lia.
  repeat (destruct H as [->|H]; [reflexivity|]). by subst.
Qed.

Lemma string_app_assoc (a b c : string) : (a +:+ b) +:+ c = a +:+ (b +:+ c).
Proof.
  induction a as [|ch a IH]; [done|].
  change (String ch ((a +:+ b) +:+ c) = String ch (a +:+ (b +:+ c))).
  by rewrite IH.
Qed.

Lemma pretty_N_go_app x s : pretty_N_go x s = pretty_N_go x "" +:+ s.
Proof.
  revert s. induction (N.lt_wf_0 x) as [x _ IH]. intros s.
  destruct (decide (x = 0)%N) as [->|Hx]; [by rewrite !pretty_N_go_0|].
  rewrite !(pretty_N_go_step x) by lia.
  assert (x `div` 10 < x)%N as Hlt by (apply N.div_lt; lia).
  rewrite (IH _ Hlt (String _ s)), (IH _ Hlt (String _ "")).
  rewrite string_app_assoc. done.
Qed.

Lemma digits_pretty_N_go x : digits 0 (pretty_N_go x "") = Some (Z.of_N x).
Proof.
  induction (N.lt_wf_0 x) as [x _ IH].
  destruct (decide (x = 0)%N) as [->|Hx]; [done|].
  rewrite pretty_N_go_step by lia. rewrite pretty_N_go_app, digits_app.
  rewrite IH by (apply N.div_lt; lia). simpl.
  rewrite digit_pretty_N_char by (apply N.mod_lt; lia).
  f_equal. rewrite (N.div_mod x 10) at 3 by lia. lia.
Qed.

(** A positive number is printed digits first. *)
Lemma pretty_N_go_head x :
  (0 < x)%N →
  ∃ ch rest d, pretty_N_go x "" = String ch rest ∧ digit ch = Some d.
Proof.
  induction (N.lt_wf_0 x) as [x _ IH]. intros Hx.
  rewrite pretty_N_go_step by lia. rewrite pretty_N_go_app.
  destruct (decide (x `div` 10 = 0)%N) as [E|E].
  - rewrite E, pretty_N_go_0. simpl. eexists _, _, _. split; [done|].
    apply digit_pretty_N_char. apply N.mod_lt; lia.
  - destruct (IH (x `div` 10)%N) as (ch & rest & d & Hs & Hd);
      [apply N.div_lt; lia|by apply N.neq_0_lt_0|].
    rewrite Hs. simpl. eauto.
Qed.

Lemma Atoi_pretty_N (x : N) :
  Z.of_N x < 2 ^ (intSize - 1) → Atoi (pretty x) = Ok (Z.of_N x).
Proof.
  intros Hx. unfold pretty, pretty_N. case_decide as H0; [by subst|].
  destruct (pretty_N_go_head x) as (ch & rest & d & Hs & Hd); [lia|].
  pose proof (digits_pretty_N_go x) as Hdigits. rewrite Hs in *.
  unfold Atoi.
  assert (ch ≠ "-"%char ∧ ch ≠ "+"%char) as [Hminus Hplus].
  { split; intros ->; discriminate. }
  rewrite (bool_decide_eq_false_2 (ch = "-"%char)) by done.
  rewrite bool_decide_eq_false_2 by (intros [?|?]; done).
  rewrite Hdigits. rewrite decide_True; [done|].
  split; [|done]. unfold intSize. lia.
Qed.

(** [strconv.Atoi] reads back every [int] written in decimal. *)
Lemma Atoi_pretty_Z (z : Z) :
  - 2 ^ (intSize - 1) ≤ z < 2 ^ (intSize - 1) → Atoi (pretty z) = Ok z.
Proof.
  intros [Hlo Hhi]. destruct z as [|p|p].
  - reflexivity.
  - change (pretty (Z.pos p)) with (pretty (N.pos p)).
    by rewrite Atoi_pretty_N.
  - change (pretty (Z.neg p)) with ("-" +:+ pretty (N.pos p)).
    unfold pretty, pretty_N. rewrite decide_False by done.
    destruct (pretty_N_go_head (N.pos p)) as (ch & rest & d & Hs & Hd); [lia|].
    pose proof (digits_pretty_N_go (N.pos p)) as Hdigits. rewrite Hs in *.
    change ("-" +:+ String ch rest) with (String "-"%char (String ch rest)).
    unfold Atoi.
    rewrite (bool_decide_eq_true_2 ("-"%char = "-"%char)) by done.
    rewrite bool_decide_eq_true_2 by (by left).
    rewrite Hdigits. simpl Z.of_N. rewrite decide_True; [done|].
    split; [done|]. unfold intSize in *. lia.
Qed.

(** X2. Edge-versions are compared as numbers, not as strings: for two
    nodes whose edge-version labels are integers of the [int] range written
    in decimal, the gate accepts exactly when the incoming integer is the
    greater (10 supersedes 9, and -1 supersedes -2). *)
Theorem checkNodeEdgeVersion_compares_numbers
    (ext : Externals) (node storedNode : Node) (v sv : Z) :
  - 2 ^ (intSize - 1) ≤ v < 2 ^ (intSize - 1) →
  - 2 ^ (intSize - 1) ≤ sv < 2 ^ (intSize - 1) →
  edgeVersion ext node = pretty v →
  edgeVersion ext storedNode = pretty sv →
  checkNodeEdgeVersion ext node storedNode = None ↔ sv < v.
Proof.
  intros Hv Hsv Ev Esv. rewrite checkNodeEdgeVersion_newer. unfold newer.
  rewrite Ev, Esv, (Atoi_pretty_Z v Hv), (Atoi_pretty_Z sv Hsv). split.
  - intros (x & y & [= <-] & [= <-] & Hlt). done.
  - intros Hlt. exists sv, v. done.
Qed.

Lemma checkNodeEdgeVersion_compares_numbers_witness :
  let ext := sampleExternals (report [] []) in
  checkNodeEdgeVersion ext (nodeAt "n" "10") (nodeAt "n" "9") = None
  ∧ checkNodeEdgeVersion ext (nodeAt "n" "-1") (nodeAt "n" "-2") = None.
Proof.
  intros ext. split.
  - apply (checkNodeEdgeVersion_compares_numbers ext _ _ 10 9);
      [by vm_compute|by vm_compute|reflexivity|reflexivity|lia].
  - apply (checkNodeEdgeVersion_compares_numbers ext _ _ (-1) (-2));
      [by vm_compute|by vm_compute|reflexivity|reflexivity|lia].
Defined.

(** ** Reads and writes that cross a write of somebody else *)

Lemma cluster_Get_after_Quiet name c evs :
  pending c = Quiet :: evs →
  cluster_Get name c
  = (match store c !! name with
     | Some stored => Ok stored
     | None => Err (StatusError StatusReasonNotFound)
     end,
     mkCluster (store c) (revision c) evs
       (calls c ++ [CallGet name (match store c !! name with
                                  | Some stored => Ok stored
                                  | None => Err (StatusError StatusReasonNotFound)
                                  end)])).
Proof. intros Hp. unfold cluster_Get, arrive. rewrite Hp. done. Qed.

(** X3. [UpdateNode] never creates a node. On a registry that does not hold
    the name it returns the not found error of its read and writes
    nothing; and when the node is removed by somebody else between the
    read of [CreateOrUpdateNode] and the read of [UpdateNode], the update
    is given up with not found: no create is attempted and the node stays
    removed. *)
Theorem UpdateNode_never_creates
    (ext : Externals) (fuel : nat) (node : Node) (c : Cluster) (lg0 : list LogEntry) :
  (pending c = [] →
   store c !! Name (Meta node) = None →
   ∃ c',
     UpdateNode ext (S fuel) node (mkState c lg0)
     = Returns (Some (StatusError StatusReasonNotFound)) (mkState c' lg0)
     ∧ store c' = store c
     ∧ calls c' = calls c ++ [CallGet (Name (Meta node))
                                (Err (StatusError StatusReasonNotFound))])
  ∧ (∀ stored evs,
       store c !! Name (Meta node) = Some stored →
       pending c = Quiet :: Writer (Remove (Name (Meta node))) :: evs →
       ∃ c',
         CreateOrUpdateNode ext (S fuel) node (mkState c lg0)
         = Returns (Some (StatusError StatusReasonNotFound)) (mkState c' lg0)
         ∧ store c' = delete (Name (Meta node)) (store c)
         ∧ pending c' = evs
         ∧ calls c' = calls c ++ [CallGet (Name (Meta node)) (Ok stored);
                                  CallGet (Name (Meta node))
                                    (Err (StatusError StatusReasonNotFound))]).
Proof.
  split.
  - intros Hq Habs. rewrite UpdateNode_unfold.
    destruct (cluster_Get_quiet (Name (Meta node)) c Hq) as (c1 & -> & Hs1 & _ & _ & Hc1).
    rewrite Habs in *. exists c1. done.
  - intros stored evs Hs Hp. rewrite CreateOrUpdateNode_unfold.
    rewrite (cluster_Get_after_Quiet _ c _ Hp), Hs. rewrite UpdateNode_unfold.
    unfold cluster_Get, arrive. cbn [pending store revision calls apply remove record].
    rewrite lookup_delete_eq. eexists. split; [reflexivity|].
    cbn [store pending calls record remove]. by rewrite <- app_assoc.
Qed.

Lemma UpdateNode_never_creates_witness :
  let ext := sampleExternals (report [] []) in
  let c := clusterOf [nodeAt "n1" "1"] in
  let racing := mkCluster (store c) (revision c) [Quiet; Writer (Remove "n1")] [] in
  (∃ c',
     UpdateNode ext 1 (nodeAt "n2" "1") (mkState c [])
     = Returns (Some (StatusError StatusReasonNotFound)) (mkState c' [])
     ∧ store c' = store c
     ∧ calls c' = calls c ++ [CallGet "n2" (Err (StatusError StatusReasonNotFound))])
  ∧ ∃ c',
      CreateOrUpdateNode ext 1 (nodeAt "n1" "2") (mkState racing [])
      = Returns (Some (StatusError StatusReasonNotFound)) (mkState c' [])
      ∧ store c' = delete "n1" (store racing)
      ∧ pending c' = []
      ∧ calls c' = calls racing ++ [CallGet "n1" (Ok (stamp 1 (nodeAt "n1" "1")));
                                    CallGet "n1" (Err (StatusError StatusReasonNotFound))].
Proof.
  intros ext c racing. split.
  - apply (UpdateNode_never_creates ext 0 (nodeAt "n2" "1") c []); reflexivity.
  - apply (UpdateNode_never_creates ext 0 (nodeAt "n1" "2") racing []); reflexivity.
Defined.

(** X4. A create that loses the race is not turned into an update. When
    somebody else stores a node under the name between the read that found
    nothing and the create, [CreateOrUpdateNode] returns the already-exists
    error of the create, never enters [UpdateNode], and the registry keeps
    the node of the other writer. *)
Theorem CreateOrUpdateNode_does_not_update_after_a_lost_create
    (ext : Externals) (fuel : nat) (node rival : Node) (c : Cluster)
    (lg0 : list LogEntry) (evs : list Event) :
  store c !! Name (Meta node) = None →
  Name (Meta rival) = Name (Meta node) →
  pending c = Quiet :: Writer (Put rival) :: evs →
  ∃ c',
    CreateOrUpdateNode ext fuel node (mkState c lg0)
    = Returns (Some (StatusError StatusReasonAlreadyExists)) (mkState c' lg0)
    ∧ store c' !! Name (Meta node) = Some (stamp (revision c + 1) rival)
    ∧ pending c' = evs
    ∧ calls c' = calls c ++ [CallGet (Name (Meta node))
                               (Err (StatusError StatusReasonNotFound));
                             CallCreate node (Err (StatusError StatusReasonAlreadyExists))].
Proof.
  intros Habs Hname Hp. rewrite CreateOrUpdateNode_unfold.
  rewrite (cluster_Get_after_Quiet _ c _ Hp), Habs.
  assert (IsNotFound (StatusError StatusReasonNotFound) = true) as -> by reflexivity.
  unfold cluster_Create, arrive. cbn [pending store revision calls apply put record].
  rewrite Hname, lookup_insert_eq. eexists. split; [reflexivity|].
  cbn [store pending calls record put revision].
  rewrite Hname, lookup_insert_eq, <- app_assoc. done.
Qed.

Lemma CreateOrUpdateNode_does_not_update_after_a_lost_create_witness :
  let ext := sampleExternals (report [] []) in
  let racing := mkCluster ∅ 0 [Quiet; Writer (Put (nodeAt "n1" "1"))] [] in
  ∃ c',
    CreateOrUpdateNode ext 1 (nodeAt "n1" "5") (mkState racing [])
    = Returns (Some (StatusError StatusReasonAlreadyExists)) (mkState c' [])
    ∧ store c' !! "n1" = Some (stamp (revision racing + 1) (nodeAt "n1" "1"))
    ∧ pending c' = []
    ∧ calls c' = calls racing ++ [CallGet "n1" (Err (StatusError StatusReasonNotFound));
                                  CallCreate (nodeAt "n1" "5")
                                    (Err (StatusError StatusReasonAlreadyExists))].
Proof.
  intros ext racing.
  exact (CreateOrUpdateNode_does_not_update_after_a_lost_create ext 1
           (nodeAt "n1" "5") (nodeAt "n1" "1") racing [] [] eq_refl eq_refl eq_refl).
Defined.

(** The write of somebody else makes the write that follows conflict. *)
Lemma cluster_Update_after_rival node rival c evs stored :
  wellStamped c →
  store c !! Name (Meta node) = Some stored →
  ResourceVersion (Meta node) = ResourceVersion (Meta stored) →
  Name (Meta rival) = Name (Meta node) →
  pending c = Writer (Put rival) :: evs →
  cluster_Update node c
  = (Err (StatusError StatusReasonConflict),
     mkCluster (<[Name (Meta node) := stamp (revision c + 1) rival]> (store c))
       (revision c + 1) evs
       (calls c ++ [CallUpdate node (Err (StatusError StatusReasonConflict))])).
Proof.
  intros Hw Hs Hrv Hname Hp. destruct (Hw _ _ Hs) as (rev & Hle & Hstored).
  unfold cluster_Update, arrive. rewrite Hp.
  cbn [pending store revision calls apply put record]. rewrite Hname, lookup_insert_eq.
  rewrite bool_decide_eq_false_2.
  - unfold put, record. cbn [pending store revision calls]. by rewrite Hname.
  - rewrite Hrv, Hstored. cbn [stamp setResourceVersion Meta ResourceVersion].
    intros [E|E].
    + by apply pretty_N_nonempty in E.
    + apply (inj pretty) in E. lia.
Qed.

(** X5. After a conflict the version gate is applied again, to the node the
    conflicting writer stored. A node that passed the gate against the
    node it read, and whose write meets the write of a rival, is read and
    checked once more: if the rival's edge-version is not older, the update
    is rejected with the gate's error and the rival's node stays; if it is
    older, the second write goes through with the resource version of the
    second read. *)
Theorem UpdateNode_checks_the_version_again_after_a_conflict
    (ext : Externals) (fuel : nat) (node stored rival : Node)
    (c : Cluster) (lg0 : list LogEntry) :
  wellStamped c →
  store c !! Name (Meta node) = Some stored →
  checkNodeEdgeVersion ext node stored = None →
  Name (Meta rival) = Name (Meta node) →
  pending c = [Quiet; Writer (Put rival)] →
  ∃ c',
    let stored' := stamp (revision c + 1) rival in
    let round1 := [CallGet (Name (Meta node)) (Ok stored);
                   CallUpdate (withVersionOf node stored)
                     (Err (StatusError StatusReasonConflict))] in
    match checkNodeEdgeVersion ext node rival with
    | Some err =>
        UpdateNode ext (S (S fuel)) node (mkState c lg0)
        = Returns (Some err) (mkState c' lg0)
        ∧ store c' !! Name (Meta node) = Some stored'
        ∧ calls c' = calls c ++ round1 ++ [CallGet (Name (Meta node)) (Ok stored')]
    | None =>
        UpdateNode ext (S (S fuel)) node (mkState c lg0)
        = Returns None (mkState c' (lg0 ++ [updateSuccess node]))
        ∧ store c' !! Name (Meta node)
          = Some (stamp (revision c + 2) (withVersionOf node stored'))
        ∧ calls c' = calls c ++ round1
                       ++ [CallGet (Name (Meta node)) (Ok stored');
                           CallUpdate (withVersionOf node stored')
                             (Ok (stamp (revision c + 2) (withVersionOf node stored')))]
    end.
Proof.
  intros Hw Hs Hck Hname Hp. rewrite UpdateNode_unfold.
  rewrite (cluster_Get_after_Quiet _ c _ Hp), Hs, Hck.
  set (c1 := mkCluster (store c) (revision c) [Writer (Put rival)]
               (calls c ++ [CallGet (Name (Meta node)) (Ok stored)])).
  rewrite (cluster_Update_after_rival (withVersionOf node stored) rival c1 [] stored);
    [|exact Hw|exact Hs|reflexivity|exact Hname|reflexivity].
  assert (IsConflict (StatusError StatusReasonConflict) = true) as -> by reflexivity.
  set (c2 := mkCluster _ _ _ _).
  pose proof (UpdateNode_quiet ext fuel (withVersionOf node stored) c2 lg0
                (stamp (revision c + 1) rival) eq_refl) as H.
  rewrite (checkNodeEdgeVersion_labels ext node (withVersionOf node stored)
             rival (stamp (revision c + 1) rival) eq_refl eq_refl) in H.
  specialize (H (lookup_insert_eq _ _ _)).
  assert (revision c2 + 1 = revision c + 2)%N as Hrev by (unfold c2, c1; simpl; lia).
  assert (calls c2 = calls c ++ [CallGet (Name (Meta node)) (Ok stored);
                                 CallUpdate (withVersionOf node stored)
                                   (Err (StatusError StatusReasonConflict))]) as Hc2.
  { unfold c2, c1. cbn [calls]. by rewrite <- app_assoc. }
  rewrite Hrev, Hc2 in H. clear Hrev Hc2.
  destruct (checkNodeEdgeVersion ext node rival) as [err|];
    destruct H as (c' & Hrun & Hs' & Hr' & _ & Hc'); exists c'; cbv zeta.
  - split_and!; [exact Hrun| |].
    + rewrite Hs'. apply lookup_insert_eq.
    + rewrite Hc', <- !app_assoc. done.
  - split_and!; [exact Hrun| |].
    + rewrite Hs'. apply lookup_insert_eq.
    + rewrite Hc', <- !app_assoc. done.
Qed.

Lemma wellStamped_empty : wellStamped emptyCluster.
Proof. intros name stored Hs. simpl in Hs. by rewrite lookup_empty in Hs. Qed.

Lemma wellStamped_clusterOf nodes : wellStamped (clusterOf nodes).
Proof.
  unfold clusterOf. generalize wellStamped_empty. generalize emptyCluster.
  induction nodes as [|node nodes IH]; intros c Hw; [done|].
  simpl. apply IH. by apply wellStamped_put.
Qed.

Lemma UpdateNode_checks_the_version_again_after_a_conflict_witness :
  let ext := sampleExternals (report [] []) in
  let c := clusterOf [nodeAt "n1" "1"] in
  let racing rival := mkCluster (store c) (revision c) [Quiet; Writer (Put rival)] [] in
  (∃ c' err,
     UpdateNode ext 2 (nodeAt "n1" "3") (mkState (racing (nodeAt "n1" "5")) [])
     = Returns (Some err) (mkState c' [])
     ∧ store c' !! "n1" = Some (stamp 2 (nodeAt "n1" "5")))
  ∧ (∃ c',
       UpdateNode ext 2 (nodeAt "n1" "3") (mkState (racing (nodeAt "n1" "2")) [])
       = Returns None (mkState c' ([] ++ [updateSuccess (nodeAt "n1" "3")]))
       ∧ store c' !! "n1"
         = Some (stamp 3 (withVersionOf (nodeAt "n1" "3") (stamp 2 (nodeAt "n1" "2"))))).
Proof.
  intros ext c racing.
  assert (∀ rival, wellStamped (racing rival)) as Hw.
  { intros rival. exact (wellStamped_clusterOf [nodeAt "n1" "1"]). }
  split.
  - destruct (UpdateNode_checks_the_version_again_after_a_conflict ext 0
                (nodeAt "n1" "3") (stamp 1 (nodeAt "n1" "1")) (nodeAt "n1" "5")
                (racing (nodeAt "n1" "5")) [] (Hw _) eq_refl eq_refl eq_refl eq_refl)
      as (c' & H).
    cbv zeta in H.
    change (checkNodeEdgeVersion ext (nodeAt "n1" "3") (nodeAt "n1" "5"))
      with (Some (Errorf
        "Current node edge-version(%s) is less than or equal to ETCD's node edge-version(%s)"
        ["3"; "5"])) in H.
    destruct H as (Hrun & Hs & _). eexists c', _. split; [exact Hrun|exact Hs].
  - destruct (UpdateNode_checks_the_version_again_after_a_conflict ext 0
                (nodeAt "n1" "3") (stamp 1 (nodeAt "n1" "1")) (nodeAt "n1" "2")
                (racing (nodeAt "n1" "2")) [] (Hw _) eq_refl eq_refl eq_refl eq_refl)
      as (c' & H).
    cbv zeta in H.
    change (checkNodeEdgeVersion ext (nodeAt "n1" "3") (nodeAt "n1" "2"))
      with (@None error) in H.
    destruct H as (Hrun & Hs & _). exists c'. split; [exact Hrun|exact Hs].
Defined.

(** ** A report on the registry left alone *)

Lemma cluster_Delete_quiet_contents node c :
  pending c = [] →
  (store (cluster_Delete (Name (Meta node)) c).2,
   revision (cluster_Delete (Name (Meta node)) c).2)
  = removeFrom (store c, revision c) node
  ∧ pending (cluster_Delete (Name (Meta node)) c).2 = [].
Proof.
  intros Hq. unfold cluster_Delete, removeFrom. rewrite (arrive_quiet c Hq).
  destruct (store c !! Name (Meta node)); done.
Qed.

Section quiet_report.
Context (ext : Externals).

Lemma CreateOrUpdateNode_quiet_contents fuel node c lg0 :
  pending c = [] →
  ∃ r c' lg,
    CreateOrUpdateNode ext (S fuel) node (mkState c lg0) = Returns r (mkState c' lg)
    ∧ pending c' = []
    ∧ (store c', revision c') = upsertInto ext (store c, revision c) node.
Proof.
  intros Hq. unfold upsertInto.
  destruct (store c !! Name (Meta node)) as [stored|] eqn:Hs.
  - pose proof (CreateOrUpdateNode_quiet_present ext fuel node c lg0 stored Hq Hs) as H.
    destruct (checkNodeEdgeVersion ext node stored) as [err|];
      destruct H as (c' & Hrun & Hs' & Hr' & Hq' & _);
      eexists _, c', _; rewrite Hs', Hr'; done.
  - destruct (CreateOrUpdateNode_quiet_absent ext (S fuel) node c lg0 Hq Hs)
      as (c' & Hrun & Hs' & Hr' & Hq' & _).
    eexists _, c', _. rewrite Hs', Hr'. done.
Qed.

Lemma forRange_update_quiet fuel l c lg0 :
  Forall (λ entry : string * option Node, is_Some entry.2) l →
  pending c = [] →
  ∃ c' lg,
    forRange l (handleNodeUpdateMap_body ext (S fuel)) (mkState c lg0)
    = Returns () (mkState c' lg)
    ∧ pending c' = []
    ∧ (store c', revision c') = foldl (upsertInto ext) (store c, revision c) (identified ext l).
Proof.
  intros Hl. revert c lg0.
  induction Hl as [|entry l [node Hnode] _ IH]; intros c lg0 Hq.
  { exists c, lg0. done. }
  cbn [forRange]. unfold bind at 1, handleNodeUpdateMap_body, identified.
  cbn [omap list_omap]. rewrite Hnode.
  destruct (withUniqueName ext node) as [node' [err|]].
  - unfold klog_Errorf at 1. cbn [world klog].
    destruct (IH c (lg0 ++ [identityFailed "handleNodeUpdateMap" err]) Hq)
      as (c' & lg & Hrun & Hq' & Hcontents).
    exists c', lg. done.
  - destruct (CreateOrUpdateNode_quiet_contents fuel node' c lg0 Hq)
      as (r & c1 & lg1 & Hrun1 & Hq1 & Hcontents1).
    unfold bind at 1. rewrite Hrun1. cbn [foldl]. rewrite <- Hcontents1.
    destruct r as [err|].
    + unfold klog_Errorf at 1. cbn [world klog].
      destruct (IH c1 (lg1 ++ [upsertFailed err]) Hq1) as (c' & lg & Hrun & Hq' & Hcontents).
      exists c', lg. done.
    + unfold ret at 1.
      destruct (IH c1 lg1 Hq1) as (c' & lg & Hrun & Hq' & Hcontents).
      exists c', lg. done.
Qed.

Lemma forRange_delete_quiet l c lg0 :
  Forall (λ entry : string * option Node, is_Some entry.2) l →
  pending c = [] →
  ∃ c' lg,
    forRange l (handleNodeDelMap_body ext) (mkState c lg0)
    = Returns () (mkState c' lg)
    ∧ pending c' = []
    ∧ (store c', revision c') = foldl removeFrom (store c, revision c) (identified ext l).
Proof.
  intros Hl. revert c lg0.
  induction Hl as [|entry l [node Hnode] _ IH]; intros c lg0 Hq.
  { exists c, lg0. done. }
  cbn [forRange]. unfold bind at 1, handleNodeDelMap_body, identified.
  cbn [omap list_omap]. rewrite Hnode.
  destruct (withUniqueName ext node) as [node' [err|]].
  - unfold klog_Errorf at 1. cbn [world klog].
    destruct (IH c (lg0 ++ [identityFailed "handleNodeDelMap" err]) Hq)
      as (c' & lg & Hrun & Hq' & Hcontents).
    exists c', lg. done.
  - unfold bind at 1. rewrite DeleteNode_unfold.
    destruct (cluster_Delete_quiet_contents node' c Hq) as [Hcontents1 Hq1].
    cbn [foldl]. rewrite <- Hcontents1.
    destruct (cluster_Delete (Name (Meta node')) c) as [[err|] c1]; cbn [fst snd] in *.
    + unfold klog_Errorf at 1. cbn [world klog].
      destruct (IH c1 (lg0 ++ [deleteFailed err]) Hq1) as (c' & lg & Hrun & Hq' & Hcontents).
      exists c', lg. done.
    + unfold klog_Infof at 1. cbn [world klog].
      destruct (IH c1 (lg0 ++ [deleteSuccess node']) Hq1) as (c' & lg & Hrun & Hq' & Hcontents).
      exists c', lg. done.
Qed.

Lemma handleNodeReport_quiet fuel b nrs c lg0 :
  Unmarshal ext b = Ok nrs →
  noNilEntry (UpdateMap nrs) →
  noNilEntry (DelMap nrs) →
  pending c = [] →
  ∃ c' lg,
    handleNodeReport ext (S fuel) b (mkState c lg0) = Returns None (mkState c' lg)
    ∧ pending c' = []
    ∧ (store c', revision c') = afterReport ext nrs (store c, revision c).
Proof.
  intros Hb Hu Hd Hq. rewrite (handleNodeReport_decoded ext (S fuel) b nrs _ Hb).
  apply (rangeOfNilable_noNil ext) in Hu, Hd.
  destruct (forRange_update_quiet fuel _ c lg0 Hu Hq) as (c1 & lg1 & Hrun1 & Hq1 & Hc1).
  destruct (forRange_delete_quiet _ c1 lg1 Hd Hq1) as (c2 & lg2 & Hrun2 & Hq2 & Hc2).
  exists c2, lg2. unfold afterReport. rewrite <- Hc1, <- Hc2. split_and!; [|done|done].
  unfold bind at 1.
  assert ((match UpdateMap nrs with
           | Some updateMap => handleNodeUpdateMap ext (S fuel) updateMap
           | None => ret ()
           end) (mkState c lg0) = Returns () (mkState c1 lg1)) as ->.
  { destruct (UpdateMap nrs); exact Hrun1. }
  unfold bind at 1.
  assert ((match DelMap nrs with
           | Some delMap => handleNodeDelMap ext delMap
           | None => ret ()
           end) (mkState c1 lg1) = Returns () (mkState c2 lg2)) as ->.
  { destruct (DelMap nrs); exact Hrun2. }
  done.
Qed.
End quiet_report.

Lemma upsertInto_other ext contents node name :
  name ≠ Name (Meta node) →
  (upsertInto ext contents node).1 !! name = contents.1 !! name.
Proof.
  intros Hne. destruct contents as [m rev]. unfold upsertInto.
  destruct (m !! Name (Meta node)) as [stored|]; simpl.
  - destruct (checkNodeEdgeVersion ext node stored); simpl; [done|].
    by rewrite lookup_insert_ne.
  - by rewrite lookup_insert_ne.
Qed.

Lemma removeFrom_other contents node name :
  name ≠ Name (Meta node) →
  (removeFrom contents node).1 !! name = contents.1 !! name.
Proof.
  intros Hne. destruct contents as [m rev]. unfold removeFrom.
  destruct (m !! Name (Meta node)); simpl; [|done]. by rewrite lookup_delete_ne.
Qed.

Lemma removeFrom_absent contents node name :
  contents.1 !! name = None →
  (removeFrom contents node).1 !! name = None.
Proof.
  destruct contents as [m rev]. unfold removeFrom. simpl. intros Habs.
  destruct (m !! Name (Meta node)); simpl; [|done].
  destruct (decide (name = Name (Meta node))) as [->|Hne].
  - apply lookup_delete_eq.
  - by rewrite lookup_delete_ne.
Qed.

Lemma removeFrom_removes contents node :
  (removeFrom contents node).1 !! Name (Meta node) = None.
Proof.
  destruct contents as [m rev]. unfold removeFrom.
  destruct (m !! Name (Meta node)) eqn:E; simpl; [apply lookup_delete_eq|done].
Qed.

Lemma foldl_upsertInto_other ext nodes contents name :
  name ∉ (λ node, Name (Meta node)) <$> nodes →
  (foldl (upsertInto ext) contents nodes).1 !! name = contents.1 !! name.
Proof.
  revert contents. induction nodes as [|node nodes IH]; intros contents Hnot; [done|].
  rewrite fmap_cons in Hnot. apply not_elem_of_cons in Hnot as [Hne Hnot].
  simpl. rewrite IH by done. by apply upsertInto_other.
Qed.

Lemma foldl_removeFrom_other nodes contents name :
  name ∉ (λ node, Name (Meta node)) <$> nodes →
  (foldl removeFrom contents nodes).1 !! name = contents.1 !! name.
Proof.
  revert contents. induction nodes as [|node nodes IH]; intros contents Hnot; [done|].
  rewrite fmap_cons in Hnot. apply not_elem_of_cons in Hnot as [Hne Hnot].
  simpl. rewrite IH by done. by apply removeFrom_other.
Qed.

Lemma foldl_removeFrom_absent nodes contents name :
  contents.1 !! name = None →
  (foldl removeFrom contents nodes).1 !! name = None.
Proof.
  revert contents. induction nodes as [|node nodes IH]; intros contents Habs; [done|].
  simpl. apply IH. by apply removeFrom_absent.
Qed.

Lemma foldl_removeFrom_removes nodes contents node :
  node ∈ nodes →
  (foldl removeFrom contents nodes).1 !! Name (Meta node) = None.
Proof.
  revert contents. induction nodes as [|node' nodes IH]; intros contents Hin.
  { by apply elem_of_nil in Hin. }
  simpl. apply elem_of_cons in Hin as [->|Hin]; [|by apply IH].
  apply foldl_removeFrom_absent, removeFrom_removes.
Qed.

(** X6. On the registry left alone, what a report leaves in the registry is
    the fold of its entries: the update entries that get past
    [UniqueResourceName], in range order, each one created when its name is
    absent, written when the gate accepts it over the stored node and
    skipped otherwise; then the delete entries, in range order, each one
    removed when its name is there. The report returns nil whatever the
    entries did. *)
Theorem handleNodeReport_folds_its_entries
    (ext : Externals) (fuel : nat) (b : list Byte.byte) (nrs : NodeResourceStatus)
    (c : Cluster) (lg0 : list LogEntry) :
  Unmarshal ext b = Ok nrs →
  noNilEntry (UpdateMap nrs) →
  noNilEntry (DelMap nrs) →
  pending c = [] →
  ∃ c' lg,
    handleNodeReport ext (S fuel) b (mkState c lg0) = Returns None (mkState c' lg)
    ∧ (store c', revision c')
      = foldl removeFrom
          (foldl (upsertInto ext) (store c, revision c)
             (identified ext (rangeOfNilable ext (UpdateMap nrs))))
          (identified ext (rangeOfNilable ext (DelMap nrs))).
Proof.
  intros Hb Hu Hd Hq.
  destruct (handleNodeReport_quiet ext fuel b nrs c lg0 Hb Hu Hd Hq)
    as (c' & lg & Hrun & _ & Hcontents).
  exists c', lg. done.
Qed.

Lemma handleNodeReport_folds_its_entries_witness :
  let nrs := report [("a", Some (nodeAt "node-a" "1"));
                     ("b", Some (nodeAt "node-b" "3"));
                     ("c", Some (nodeAt "" "1"))]
                    [("a", Some (bareNode "node-a"))] in
  let ext := sampleExternals nrs in
  let c := clusterOf [nodeAt "node-b" "5"] in
  ∃ c' lg,
    handleNodeReport ext 1 envelope (mkState c []) = Returns None (mkState c' lg)
    ∧ (store c', revision c')
      = foldl removeFrom
          (foldl (upsertInto ext) (store c, revision c)
             (identified ext (rangeOfNilable ext (UpdateMap nrs))))
          (identified ext (rangeOfNilable ext (DelMap nrs))).
Proof.
  intros nrs ext c.
  apply (handleNodeReport_folds_its_entries ext 0 envelope nrs c []);
    [reflexivity| | |reflexivity].
  - apply (bool_decide_unpack _). vm_compute. exact I.
  - apply (bool_decide_unpack _). vm_compute. exact I.
Defined.

(** X7. Within a report the deletes have the last word. On the registry
    left alone, every node of the delete map that gets past
    [UniqueResourceName] is absent from the registry when the report is
    done, also when the update map of the same report creates or updates
    it. *)
Theorem handleNodeReport_deleted_nodes_are_gone
    (ext : Externals) (fuel : nat) (b : list Byte.byte) (nrs : NodeResourceStatus)
    (c : Cluster) (lg0 : list LogEntry) :
  Unmarshal ext b = Ok nrs →
  noNilEntry (UpdateMap nrs) →
  noNilEntry (DelMap nrs) →
  pending c = [] →
  ∃ c' lg,
    handleNodeReport ext (S fuel) b (mkState c lg0) = Returns None (mkState c' lg)
    ∧ ∀ node,
        node ∈ identified ext (rangeOfNilable ext (DelMap nrs)) →
        store c' !! Name (Meta node) = None.
Proof.
  intros Hb Hu Hd Hq.
  destruct (handleNodeReport_quiet ext fuel b nrs c lg0 Hb Hu Hd Hq)
    as (c' & lg & Hrun & _ & Hcontents).
  exists c', lg. split; [done|]. intros node Hin.
  change (store c') with (store c', revision c').1. rewrite Hcontents.
  by apply foldl_removeFrom_removes.
Qed.

Lemma handleNodeReport_deleted_nodes_are_gone_witness :
  let nrs := report [("a", Some (nodeAt "node-a" "7"))]
                    [("a", Some (bareNode "node-a"))] in
  let ext := sampleExternals nrs in
  let c := clusterOf [nodeAt "node-a" "5"] in
  ∃ c' lg,
    handleNodeReport ext 1 envelope (mkState c []) = Returns None (mkState c' lg)
    ∧ ∀ node,
        node ∈ identified ext (rangeOfNilable ext (DelMap nrs)) →
        store c' !! Name (Meta node) = None.
Proof.
  intros nrs ext c.
  apply (handleNodeReport_deleted_nodes_are_gone ext 0 envelope nrs c []);
    [reflexivity| | |reflexivity].
  - apply (bool_decide_unpack _). vm_compute. exact I.
  - apply (bool_decide_unpack _). vm_compute. exact I.
Defined.

(** X8. A report touches only the nodes it names. On the registry left
    alone, the entry of every name that is not the name of an update or
    delete entry, as [UniqueResourceName] leaves it, is after the report
    what it was before. *)
Theorem handleNodeReport_leaves_other_nodes_alone
    (ext : Externals) (fuel : nat) (b : list Byte.byte) (nrs : NodeResourceStatus)
    (c : Cluster) (lg0 : list LogEntry) (name : string) :
  Unmarshal ext b = Ok nrs →
  noNilEntry (UpdateMap nrs) →
  noNilEntry (DelMap nrs) →
  pending c = [] →
  name ∉ (λ node, Name (Meta node))
           <$> identified ext (rangeOfNilable ext (UpdateMap nrs)) →
  name ∉ (λ node, Name (Meta node))
           <$> identified ext (rangeOfNilable ext (DelMap nrs)) →
  ∃ c' lg,
    handleNodeReport ext (S fuel) b (mkState c lg0) = Returns None (mkState c' lg)
    ∧ store c' !! name = store c !! name.
Proof.
  intros Hb Hu Hd Hq Hnu Hnd.
  destruct (handleNodeReport_quiet ext fuel b nrs c lg0 Hb Hu Hd Hq)
    as (c' & lg & Hrun & _ & Hcontents).
  exists c', lg. split; [done|].
  change (store c') with (store c', revision c').1. rewrite Hcontents.
  unfold afterReport. rewrite foldl_removeFrom_other by done.
  by rewrite foldl_upsertInto_other.
Qed.

Lemma handleNodeReport_leaves_other_nodes_alone_witness :
  let nrs := report [("a", Some (nodeAt "node-a" "7"))]
                    [("c", Some (bareNode "node-c"))] in
  let ext := sampleExternals nrs in
  let c := clusterOf [nodeAt "node-a" "5"; nodeAt "node-b" "5"; nodeAt "node-c" "1"] in
  ∃ c' lg,
    handleNodeReport ext 1 envelope (mkState c []) = Returns None (mkState c' lg)
    ∧ store c' !! "node-b" = store c !! "node-b".
Proof.
  intros nrs ext c.
  apply (handleNodeReport_leaves_other_nodes_alone ext 0 envelope nrs c [] "node-b");
    [reflexivity| | |reflexivity| |].
  - apply (bool_decide_unpack _). vm_compute. exact I.
  - apply (bool_decide_unpack _). vm_compute. exact I.
  - apply (bool_decide_unpack _). vm_compute. exact I.
  - apply (bool_decide_unpack _). vm_compute. exact I.
Defined.

(** ** The keys of the maps *)

Lemma forRange_values `{!NodeInterface W} (body : string * option Node → M W unit)
    (l l' : list (string * option Node)) (s : State W) :
  (∀ entry entry' s, entry.2 = entry'.2 → body entry s = body entry' s) →
  l.*2 = l'.*2 →
  forRange l body s = forRange l' body s.
Proof.
  intros Hbody. revert l' s. induction l as [|entry l IH]; intros [|entry' l'] s Hvalues;
    try done.
  rewrite !fmap_cons in Hvalues. injection Hvalues as Hentry Hvalues.
  cbn [forRange]. unfold bind. rewrite (Hbody entry entry' s Hentry).
  destruct (body entry' s) as [[] s1|s1|]; [by apply IH|done|done].
Qed.

(** X9. The keys of the update map and of the delete map are never read:
    two maps that hold the same nodes, visited in the same order, are
    handled alike, whatever the client and its state. The name under which
    a node reaches the registry is the one [UniqueResourceName] leaves in
    its object meta. *)
Theorem handlers_never_read_the_keys
    `{!NodeInterface W} (ext : Externals) (fuel : nat)
    (m m' : gmap string (option Node)) (s : State W) :
  (rangeOf ext m).*2 = (rangeOf ext m').*2 →
  handleNodeUpdateMap ext fuel m s = handleNodeUpdateMap ext fuel m' s
  ∧ handleNodeDelMap ext m s = handleNodeDelMap ext m' s.
Proof.
  intros Hvalues. unfold handleNodeUpdateMap, handleNodeDelMap. split.
  - apply forRange_values; [|done]. intros entry entry' s' E.
    unfold handleNodeUpdateMap_body. by rewrite E.
  - apply forRange_values; [|done]. intros entry entry' s' E.
    unfold handleNodeDelMap_body. by rewrite E.
Qed.

Lemma handlers_never_read_the_keys_witness :
  let ext := sampleExternals (report [] []) in
  let m : gmap string (option Node) := {[ "node-a" := Some (nodeAt "node-a" "1") ]} in
  let m' : gmap string (option Node) := {[ "zzz" := Some (nodeAt "node-a" "1") ]} in
  handleNodeUpdateMap ext 1 m (start emptyCluster)
  = handleNodeUpdateMap ext 1 m' (start emptyCluster)
  ∧ handleNodeDelMap ext m (start emptyCluster)
    = handleNodeDelMap ext m' (start emptyCluster).
Proof.
  intros ext m m'.
  apply (handlers_never_read_the_keys ext 1 m m' (start emptyCluster)).
  vm_compute. reflexivity.
Defined.

(** ** One line in the log for every entry *)
Section log_lines.
Context (ext : Externals).

Lemma UpdateRun_log node tr lg res :
  UpdateRun ext node tr lg res →
  length lg = match res with None => 1%nat | Some _ => 0%nat end.
Proof. induction 1; done. Qed.

Lemma UpsertRun_log node tr lg res :
  UpsertRun ext node tr lg res →
  length lg = match res with None => 1%nat | Some _ => 0%nat end.
Proof. destruct 1; try done. by eapply UpdateRun_log. Qed.

Lemma update_entries_log l chunks :
  Forall2 (UpdateEntryRun ext) l chunks →
  length (concat chunks.*2) = length l.
Proof.
  induction 1 as [|entry chunk l chunks Hrun _ IH]; [done|].
  rewrite fmap_cons. cbn [concat]. rewrite length_app, IH. cbn [length]. f_equal.
  unfold UpdateEntryRun in Hrun. destruct entry.2 as [node|]; [|done].
  destruct (withUniqueName ext node) as [node' [err|]].
  - by subst chunk.
  - destruct Hrun as (res & lg & Hrun & ->). apply UpsertRun_log in Hrun.
    rewrite length_app, Hrun. by destruct res.
Qed.

Lemma delete_entries_log l chunks :
  Forall2 (DeleteEntryRun ext) l chunks →
  length (concat chunks.*2) = length l.
Proof.
  induction 1 as [|entry chunk l chunks Hrun _ IH]; [done|].
  rewrite fmap_cons. cbn [concat]. rewrite length_app, IH. cbn [length]. f_equal.
  unfold DeleteEntryRun in Hrun. destruct entry.2 as [node|]; [|done].
  destruct (withUniqueName ext node) as [node' [err|]].
  - by subst chunk.
  - by destruct Hrun as (r & ->).
Qed.

Lemma rangeOfNilable_length m : length (rangeOfNilable ext m) = sizeNilable m.
Proof.
  destruct m as [m|]; [|done]. simpl.
  rewrite (rangeOf_visits_each_entry_once ext m). apply length_map_to_list.
Qed.
End log_lines.

Lemma written_app v l1 l2 : written v (l1 ++ l2) = written v l1 ++ written v l2.
Proof. apply filter_app. Qed.

Lemma written_at_3 v l : 3 ≤ v → written v l = l.
Proof.
  intros Hv. unfold written. induction l as [|entry l IH]; [done|].
  rewrite filter_cons_True, IH; [done|].
  destruct entry; simpl; [done|]. by apply bool_decide_eq_true_2.
Qed.

Lemma written_below_3 v l :
  v < 3 → Forall (λ entry, ∃ format err, entry = KErrorf format err) (written v l).
Proof.
  intros Hv. unfold written. induction l as [|entry l IH]; [constructor|].
  destruct entry as [format err|format name].
  - rewrite filter_cons_True by done. constructor; eauto.
  - rewrite filter_cons_False; [done|]. simpl.
    rewrite bool_decide_eq_false_2 by lia. done.
Qed.

(** X10. Every entry of a report executes exactly one klog statement: the
    [Errorf] of what failed (identity, read, gate or write) or the
    [V(3).Infof] of the create, update or delete that succeeded. So, under
    any script of events that ends, the log of a decoded report without nil
    entries grows by exactly one line per entry of the update map and of
    the delete map when klog runs at verbosity 3 or more, and at a lower
    verbosity by error lines only, at most one per entry. *)
Theorem handleNodeReport_logs_one_statement_per_entry
    (ext : Externals) (fuel : nat) (b : list Byte.byte) (nrs : NodeResourceStatus)
    (c : Cluster) (lg0 : list LogEntry) :
  Unmarshal ext b = Ok nrs →
  noNilEntry (UpdateMap nrs) →
  noNilEntry (DelMap nrs) →
  (length (pending c) < fuel)%nat →
  ∃ s' statements,
    handleNodeReport ext fuel b (mkState c lg0) = Returns None s'
    ∧ klog s' = lg0 ++ statements
    ∧ length statements
      = (sizeNilable (UpdateMap nrs) + sizeNilable (DelMap nrs))%nat
    ∧ (∀ v, 3 ≤ v →
         length (written v (klog s'))
         = (length (written v lg0)
            + sizeNilable (UpdateMap nrs) + sizeNilable (DelMap nrs))%nat)
    ∧ (∀ v, v < 3 →
         written v (klog s') = written v lg0 ++ written v statements
         ∧ Forall (λ entry, ∃ format err, entry = KErrorf format err)
             (written v statements)
         ∧ (length (written v statements)
            ≤ sizeNilable (UpdateMap nrs) + sizeNilable (DelMap nrs))%nat).
Proof.
  intros Hb Hu Hd Hfuel.
  destruct (handleNodeReport_runs ext fuel b nrs c lg0 Hb Hu Hd Hfuel)
    as (c' & ups & dels & Hrun & _ & Hups & Hdels).
  assert (length (concat ups.*2 ++ concat dels.*2)
          = (sizeNilable (UpdateMap nrs) + sizeNilable (DelMap nrs))%nat) as Hlen.
  { rewrite length_app.
    rewrite (update_entries_log ext _ _ Hups), (delete_entries_log ext _ _ Hdels).
    by rewrite !rangeOfNilable_length. }
  eexists _, (concat ups.*2 ++ concat dels.*2).
  split_and!; [exact Hrun|done|exact Hlen| |].
  - intros v Hv. cbn [klog]. rewrite !written_at_3 by done.
    rewrite length_app, Hlen. lia.
  - intros v Hv. cbn [klog]. split_and!.
    + apply written_app.
    + by apply written_below_3.
    + rewrite <- Hlen. apply length_filter.
Qed.

Lemma handleNodeReport_logs_one_statement_per_entry_witness :
  let nrs := report [("a", Some (nodeAt "node-a" "1"));
                     ("b", Some (nodeAt "node-b" "3"));
                     ("c", Some (nodeAt "" "1"))]
                    [("d", Some (bareNode "node-d"))] in
  let ext := sampleExternals nrs in
  let c := mkCluster (store (clusterOf [nodeAt "node-b" "5"])) 1
             [Fault (OtherError "connection refused")] [] in
  ∃ s' statements,
    handleNodeReport ext 2 envelope (mkState c []) = Returns None s'
    ∧ klog s' = [] ++ statements
    ∧ length statements = (3 + 1)%nat
    ∧ length (written 3 (klog s')) = (length (written 3 []) + 3 + 1)%nat
    ∧ (length (written 0 statements) ≤ 3 + 1)%nat.
Proof.
  intros nrs ext c.
  destruct (handleNodeReport_logs_one_statement_per_entry ext 2 envelope nrs c [])
    as (s' & statements & Hrun & Hlog & Hlen & Hhigh & Hlow);
    [reflexivity| | |simpl; lia|].
  - apply (bool_decide_unpack _). vm_compute. exact I.
  - apply (bool_decide_unpack _). vm_compute. exact I.
  - exists s', statements. split_and!; [done|done|done|by apply Hhigh|].
    by destruct (Hlow 0) as (_ & _ & H).
Defined.

(** At the default verbosity only the failures leave a line: of three
    updates and one delete against a registry that holds node-b at version
    5, the stale node-b and the delete of the absent node-d do; the two
    creates do not. *)
Example lines_written_at_default_verbosity :
  let nrs := report [("node-a", Some (nodeAt "node-a" "1"));
                     ("node-b", Some (nodeAt "node-b" "3"));
                     ("node-c", Some (nodeAt "node-c" "1"))]
                    [("node-d", Some (bareNode "node-d"))] in
  let out := handleNodeReport (sampleExternals nrs) 1 envelope
               (start (clusterOf [nodeAt "node-b" "5"])) in
  length (klogOf out) = 4%nat
  ∧ length (written 3 (klogOf out)) = 4%nat
  ∧ written 0 (klogOf out)
    = [upsertFailed
         (Errorf
            "Current node edge-version(%s) is less than or equal to ETCD's node edge-version(%s)"
            ["3"; "5"]);
       deleteFailed (StatusError "NotFound")].
Proof. vm_compute. done. Qed.

(** ** What [CreateOrUpdateNode] returns and what it wrote *)
Section commits.
Context (ext : Externals).

Lemma UpdateRun_commits node tr lg res :
  UpdateRun ext node tr lg res →
  match res with
  | None => ∃ rv, commits tr = [setResourceVersion node rv]
  | Some _ => commits tr = []
  end.
Proof.
  induction 1 as [node err|node stored err Hck|node stored written Hck
                 |node stored err Hck Hcf|node stored err tr lg res Hck Hcf Hrun IH];
    [done|done| |done|].
  - by exists (ResourceVersion (Meta stored)).
  - destruct res as [err'|]; [exact IH|]. destruct IH as [rv IH]. exists rv. exact IH.
Qed.

Lemma UpsertRun_commits node tr lg res :
  UpsertRun ext node tr lg res →
  match res with
  | None => commits tr = [node] ∨ ∃ rv, commits tr = [setResourceVersion node rv]
  | Some _ => commits tr = []
  end.
Proof.
  destruct 1 as [err Hnf|err created Hnf|err err' Hnf|stored tr lg res Hrun];
    [done| |done|].
  - by left.
  - apply UpdateRun_commits in Hrun. destruct res; [done|by right].
Qed.
End commits.

(** X11. [CreateOrUpdateNode] returns nil exactly when one of its writes
    went through, and then it is the only one: the node as given (a create)
    or the node as given with the resource version of a read (an update).
    When it returns an error, none of its writes went through. This holds
    under any script of failures and of writes by others that ends. *)
Theorem CreateOrUpdateNode_returns_nil_iff_it_wrote_the_node
    (ext : Externals) (fuel : nat) (node : Node) (c : Cluster) (lg0 : list LogEntry) :
  (length (pending c) < fuel)%nat →
  ∃ res c' lg tr,
    CreateOrUpdateNode ext fuel node (mkState c lg0) = Returns res (mkState c' lg)
    ∧ calls c' = calls c ++ tr
    ∧ match res with
      | None => commits tr = [node] ∨ ∃ rv, commits tr = [setResourceVersion node rv]
      | Some _ => commits tr = []
      end.
Proof.
  intros Hfuel.
  destruct (CreateOrUpdateNode_runs ext fuel node c lg0 Hfuel)
    as (res & c' & tr & lg & Hrun & Hc & Hshape & _).
  exists res, c', (lg0 ++ lg), tr. split_and!; [done|done|].
  by apply (UpsertRun_commits ext node tr lg res).
Qed.

Lemma CreateOrUpdateNode_returns_nil_iff_it_wrote_the_node_witness :
  let ext := sampleExternals (report [] []) in
  let c := mkCluster (store (clusterOf [nodeAt "n1" "1"])) 1 (contention 2) [] in
  ∃ res c' lg tr,
    CreateOrUpdateNode ext 5 (nodeAt "n1" "2") (mkState c []) = Returns res (mkState c' lg)
    ∧ calls c' = calls c ++ tr
    ∧ match res with
      | None => commits tr = [nodeAt "n1" "2"]
                ∨ ∃ rv, commits tr = [setResourceVersion (nodeAt "n1" "2") rv]
      | Some _ => commits tr = []
      end.
Proof.
  intros ext c.
  apply (CreateOrUpdateNode_returns_nil_iff_it_wrote_the_node ext 5 (nodeAt "n1" "2") c []).
  simpl. lia.
Defined.

(** ** Entries with names of their own *)

Lemma upsertInto_entry ext m rev node :
  (upsertInto ext (m, rev) node).1 !! Name (Meta node)
  = upsertedEntry ext (rev + 1) (m !! Name (Meta node)) node.
Proof.
  unfold upsertInto, upsertedEntry.
  destruct (m !! Name (Meta node)) as [stored|] eqn:Hs; simpl.
  - destruct (checkNodeEdgeVersion ext node stored); simpl; [done|].
    apply lookup_insert_eq.
  - apply lookup_insert_eq.
Qed.

Lemma foldl_upsertInto_distinct ext nodes contents node :
  NoDup ((λ node, Name (Meta node)) <$> nodes) →
  node ∈ nodes →
  ∃ rev,
    (foldl (upsertInto ext) contents nodes).1 !! Name (Meta node)
    = upsertedEntry ext rev (contents.1 !! Name (Meta node)) node.
Proof.
  revert contents. induction nodes as [|x nodes IH]; intros contents Hnodup Hin.
  { by apply elem_of_nil in Hin. }
  rewrite fmap_cons in Hnodup. apply NoDup_cons in Hnodup as [Hx Hnodup].
  cbn [foldl]. apply elem_of_cons in Hin as [->|Hin].
  - destruct contents as [m rev]. exists (rev + 1)%N.
    rewrite foldl_upsertInto_other by done. apply upsertInto_entry.
  - destruct (IH (upsertInto ext contents x) Hnodup Hin) as [rev Hrev].
    exists rev. rewrite Hrev. rewrite upsertInto_other; [done|].
    intros E. apply Hx. rewrite <- E.
    by apply (list_elem_of_fmap_2 (λ node, Name (Meta node))).
Qed.

(** X12. Entries with names of their own do not depend on each other. On
    the registry left alone, when the update entries that get past
    [UniqueResourceName] have pairwise distinct names, what the report
    leaves under the name of such an entry that the report does not delete
    is decided by that entry and the node stored under its name before the
    report: created if there was none, replaced if the gate accepts the
    entry over it, kept as it was otherwise - whatever the other entries
    are, fail with, or in whatever order [range] visits them. *)
Theorem update_entries_with_distinct_names_are_independent
    (ext : Externals) (fuel : nat) (b : list Byte.byte) (nrs : NodeResourceStatus)
    (c : Cluster) (lg0 : list LogEntry) (node : Node) :
  Unmarshal ext b = Ok nrs →
  noNilEntry (UpdateMap nrs) →
  noNilEntry (DelMap nrs) →
  pending c = [] →
  NoDup ((λ node, Name (Meta node))
           <$> identified ext (rangeOfNilable ext (UpdateMap nrs))) →
  node ∈ identified ext (rangeOfNilable ext (UpdateMap nrs)) →
  Name (Meta node) ∉ (λ node, Name (Meta node))
                       <$> identified ext (rangeOfNilable ext (DelMap nrs)) →
  ∃ c' lg rev,
    handleNodeReport ext (S fuel) b (mkState c lg0) = Returns None (mkState c' lg)
    ∧ store c' !! Name (Meta node)
      = upsertedEntry ext rev (store c !! Name (Meta node)) node.
Proof.
  intros Hb Hu Hd Hq Hnodup Hin Hnd.
  destruct (handleNodeReport_quiet ext fuel b nrs c lg0 Hb Hu Hd Hq)
    as (c' & lg & Hrun & _ & Hcontents).
  destruct (foldl_upsertInto_distinct ext _ (store c, revision c) node Hnodup Hin)
    as [rev Hrev].
  exists c', lg, rev. split; [done|].
  change (store c') with (store c', revision c').1. rewrite Hcontents.
  unfold afterReport. by rewrite foldl_removeFrom_other.
Qed.

Lemma update_entries_with_distinct_names_are_independent_witness :
  let nrs := report [("a", Some (nodeAt "node-a" "1"));
                     ("b", Some (nodeAt "node-b" "3"));
                     ("c", Some (nodeAt "node-c" "1"))]
                    [("d", Some (bareNode "node-d"))] in
  let ext := sampleExternals nrs in
  let c := clusterOf [nodeAt "node-b" "5"] in
  ∃ c' lg rev,
    handleNodeReport ext 1 envelope (mkState c []) = Returns None (mkState c' lg)
    ∧ store c' !! "node-c"
      = upsertedEntry ext rev (store c !! "node-c") (nodeAt "node-c" "1").
Proof.
  intros nrs ext c.
  apply (update_entries_with_distinct_names_are_independent ext 0 envelope nrs c []
           (nodeAt "node-c" "1")); [reflexivity| | |reflexivity| | |].
  - apply (bool_decide_unpack _). vm_compute. exact I.
  - apply (bool_decide_unpack _). vm_compute. exact I.
  - apply (bool_decide_unpack _). vm_compute. exact I.
  - apply (bool_decide_unpack _). vm_compute. exact I.
  - apply (bool_decide_unpack _). vm_compute. exact I.
Defined.

(** ** The same report again *)
Section replay.
Context (ext : Externals).

(** What the gate rejects it rejects all the more over a newer node. *)
Lemma checkNodeEdgeVersion_rejects_over_newer node stored newerNode :
  is_Some (checkNodeEdgeVersion ext node stored) →
  newer (edgeVersion ext stored) (edgeVersion ext newerNode) →
  is_Some (checkNodeEdgeVersion ext node newerNode).
Proof.
  intros Hrej (sv & nv & Hsv & Hnv & Hlt).
  destruct (checkNodeEdgeVersion ext node newerNode) as [err|] eqn:Hck; [by eexists|].
  apply checkNodeEdgeVersion_newer in Hck as (nv' & v & Hnv' & Hv & Hlt').
  rewrite Hnv in Hnv'. injection Hnv' as <-.
  assert (checkNodeEdgeVersion ext node stored = None) as Hacc.
  { apply checkNodeEdgeVersion_newer. exists sv, v. split_and!; [done|done|lia]. }
  rewrite Hacc in Hrej. by destruct Hrej.
Qed.

Lemma upsertInto_turnedDown contents node :
  turnedDown ext contents.1 node → upsertInto ext contents node = contents.
Proof.
  destruct contents as [m rev]. intros (stored & Hs & [err Hck]).
  unfold upsertInto. simpl in Hs. by rewrite Hs, Hck.
Qed.

Lemma upsertInto_turns_down_itself contents node :
  turnedDown ext (upsertInto ext contents node).1 node.
Proof.
  destruct contents as [m rev]. unfold turnedDown.
  rewrite upsertInto_entry. unfold upsertedEntry.
  destruct (m !! Name (Meta node)) as [stored|].
  - destruct (checkNodeEdgeVersion ext node stored) as [err|] eqn:Hck.
    + exists stored. split; [done|]. rewrite Hck. by eexists.
    + eexists. split; [done|]. by apply checkNodeEdgeVersion_same_version.
  - eexists. split; [done|]. by apply checkNodeEdgeVersion_same_version.
Qed.

Lemma upsertInto_keeps_turning_down contents node other :
  turnedDown ext contents.1 other →
  turnedDown ext (upsertInto ext contents node).1 other.
Proof.
  intros (stored & Hs & Hrej).
  destruct (decide (Name (Meta other) = Name (Meta node))) as [E|Hne].
  - destruct contents as [m rev]. unfold turnedDown. rewrite E, upsertInto_entry.
    simpl in Hs. rewrite E in Hs. rewrite Hs. unfold upsertedEntry.
    destruct (checkNodeEdgeVersion ext node stored) as [err|] eqn:Hck.
    + exists stored. done.
    + eexists. split; [done|].
      apply (checkNodeEdgeVersion_rejects_over_newer other stored); [done|].
      by apply checkNodeEdgeVersion_None.
  - exists stored. split; [|done]. by rewrite upsertInto_other.
Qed.

(** After the update entries went through, each of them is turned down. *)
Lemma foldl_upsertInto_turns_down nodes contents node :
  node ∈ nodes →
  turnedDown ext (foldl (upsertInto ext) contents nodes).1 node.
Proof.
  revert contents. induction nodes as [|x nodes IH] using rev_ind; intros contents Hin.
  { by apply elem_of_nil in Hin. }
  rewrite foldl_app. cbn [foldl]. apply elem_of_app in Hin as [Hin|Hin].
  - apply upsertInto_keeps_turning_down. by apply IH.
  - apply list_elem_of_singleton in Hin as ->. apply upsertInto_turns_down_itself.
Qed.

(** Nodes that are turned down leave the registry as it is, apart from the
    names in [names]. *)
Lemma foldl_upsertInto_turned_down (names : list string) nodes contents name :
  (∀ node, node ∈ nodes → Name (Meta node) ∉ names →
           turnedDown ext contents.1 node) →
  name ∉ names →
  (foldl (upsertInto ext) contents nodes).1 !! name = contents.1 !! name.
Proof.
  revert contents. induction nodes as [|x nodes IH]; intros contents Hdown Hname; [done|].
  cbn [foldl]. destruct (decide (Name (Meta x) ∈ names)) as [Hx|Hx].
  - rewrite IH; [|..|done].
    + apply upsertInto_other. intros ->. done.
    + intros node Hin Hnode. destruct (Hdown node) as (stored & Hs & Hrej);
        [by apply elem_of_cons; right|done|].
      exists stored. split; [|done]. rewrite upsertInto_other; [done|].
      intros E. apply Hnode. by rewrite E.
  - rewrite upsertInto_turnedDown.
    + apply IH; [|done]. intros node Hin Hnode. apply Hdown; [|done].
      by apply elem_of_cons; right.
    + apply Hdown; [|done]. by apply elem_of_cons; left.
Qed.

Lemma afterReport_again nrs contents :
  (afterReport ext nrs (afterReport ext nrs contents)).1
  = (afterReport ext nrs contents).1.
Proof.
  set (upd := identified ext (rangeOfNilable ext (UpdateMap nrs))).
  set (del := identified ext (rangeOfNilable ext (DelMap nrs))).
  set (names := (λ node, Name (Meta node)) <$> del).
  apply map_eq. intros name. unfold afterReport. fold upd del.
  destruct (decide (name ∈ names)) as [Hin|Hnot].
  - apply list_elem_of_fmap in Hin as (node & -> & Hin).
    by rewrite !foldl_removeFrom_removes.
  - rewrite (foldl_removeFrom_other del _ name) by done.
    rewrite (foldl_upsertInto_turned_down names); [done| |done].
    intros node Hin Hnode.
    destruct (foldl_upsertInto_turns_down upd contents node Hin) as (stored & Hs & Hrej).
    exists stored. split; [|done]. by rewrite foldl_removeFrom_other.
Qed.
End replay.

(** X13. Handling the same report twice in a row, on the registry left
    alone, leaves the registry holding what it held after the first time:
    the second time every update entry that is not deleted by the report
    is turned down by the gate against what the first time stored, and the
    nodes of the delete map are gone again at the end. *)
Theorem handleNodeReport_twice_leaves_the_same_nodes
    (ext : Externals) (fuel : nat) (b : list Byte.byte) (nrs : NodeResourceStatus)
    (c : Cluster) (lg0 : list LogEntry) :
  Unmarshal ext b = Ok nrs →
  noNilEntry (UpdateMap nrs) →
  noNilEntry (DelMap nrs) →
  pending c = [] →
  ∃ c1 lg1 c2 lg2,
    handleNodeReport ext (S fuel) b (mkState c lg0) = Returns None (mkState c1 lg1)
    ∧ handleNodeReport ext (S fuel) b (mkState c1 lg1) = Returns None (mkState c2 lg2)
    ∧ store c2 = store c1.
Proof.
  intros Hb Hu Hd Hq.
  destruct (handleNodeReport_quiet ext fuel b nrs c lg0 Hb Hu Hd Hq)
    as (c1 & lg1 & Hrun1 & Hq1 & Hcontents1).
  destruct (handleNodeReport_quiet ext fuel b nrs c1 lg1 Hb Hu Hd Hq1)
    as (c2 & lg2 & Hrun2 & _ & Hcontents2).
  exists c1, lg1, c2, lg2. split_and!; [done|done|].
  change (store c2) with (store c2, revision c2).1.
  change (store c1) with (store c1, revision c1).1.
  rewrite Hcontents2, Hcontents1. apply afterReport_again.
Qed.

Lemma handleNodeReport_twice_leaves_the_same_nodes_witness :
  let nrs := report [("a", Some (nodeAt "node-a" "7"));
                     ("b", Some (nodeAt "node-b" "3"));
                     ("c", Some (nodeAt "node-c" "1"))]
                    [("c", Some (bareNode "node-c"))] in
  let ext := sampleExternals nrs in
  let c := clusterOf [nodeAt "node-a" "5"; nodeAt "node-b" "5"] in
  ∃ c1 lg1 c2 lg2,
    handleNodeReport ext 1 envelope (mkState c []) = Returns None (mkState c1 lg1)
    ∧ handleNodeReport ext 1 envelope (mkState c1 lg1) = Returns None (mkState c2 lg2)
    ∧ store c2 = store c1.
Proof.
  intros nrs ext c.
  apply (handleNodeReport_twice_leaves_the_same_nodes ext 0 envelope nrs c []);
    [reflexivity| | |reflexivity].
  - apply (bool_decide_unpack _). vm_compute. exact I.
  - apply (bool_decide_unpack _). vm_compute. exact I.
Defined.

(** ** A nil entry *)

Lemma forRange_app `{!NodeInterface W} {A} (body : A → M W unit) (l1 l2 : list A)
    (s : State W) :
  forRange (l1 ++ l2) body s
  = match forRange l1 body s with
    | Returns _ s1 => forRange l2 body s1
    | Panics s1 => Panics s1
    | OutOfFuel => OutOfFuel
    end.
Proof.
  revert s. induction l1 as [|x l1 IH]; intros s; [done|].
  cbn [app forRange]. unfold bind. destruct (body x s) as [[] s1|s1|]; [apply IH|done|done].
Qed.

(** X14. A nil entry in the update map stops the report where [range]
    meets it. The entries visited before it have been processed, each with
    its calls and its log line; then [handleNodeReport] panics: the entries
    after it are not processed and the delete map is not handled at all
    (no [Delete] reaches the registry). *)
Theorem handleNodeReport_stops_at_a_nil_update_entry
    (ext : Externals) (fuel : nat) (b : list Byte.byte) (nrs : NodeResourceStatus)
    (updateMap : gmap string (option Node))
    (before after : list (string * option Node)) (key : string)
    (c : Cluster) (lg0 : list LogEntry) :
  Unmarshal ext b = Ok nrs →
  UpdateMap nrs = Some updateMap →
  rangeOf ext updateMap = before ++ (key, None) :: after →
  Forall (λ entry : string * option Node, is_Some entry.2) before →
  (length (pending c) < fuel)%nat →
  ∃ c' chunks,
    handleNodeReport ext fuel b (mkState c lg0)
    = Panics (mkState c' (lg0 ++ concat chunks.*2))
    ∧ calls c' = calls c ++ concat chunks.*1
    ∧ Forall2 (UpdateEntryRun ext) before chunks
    ∧ Forall isUpsertCall (concat chunks.*1).
Proof.
  intros Hb Hupd Hrange Hbefore Hfuel.
  destruct (forRange_update_runs ext fuel before c lg0 Hbefore Hfuel)
    as (c' & chunks & Hrun & Hc & Hshape & _).
  exists c', chunks. split_and!; [|done|done|].
  - rewrite (handleNodeReport_decoded ext fuel b nrs _ Hb), Hupd.
    unfold bind at 1. unfold handleNodeUpdateMap. rewrite Hrange, forRange_app, Hrun.
    done.
  - by apply (update_entries_calls ext before chunks).
Qed.

Lemma handleNodeReport_stops_at_a_nil_update_entry_witness :
  let updateMap : gmap string (option Node) :=
    list_to_map [("a", None);
                 ("b", Some (nodeAt "node-b" "1"));
                 ("c", Some (nodeAt "node-c" "1"))] in
  let nrs := {| UpdateMap := Some updateMap;
                DelMap := Some {[ "d" := Some (bareNode "node-d") ]};
                FullList := None |} in
  let ext := sampleExternals nrs in
  let before := [("c", Some (nodeAt "node-c" "1"))] in
  ∃ c' chunks,
    handleNodeReport ext 1 envelope (mkState emptyCluster [])
    = Panics (mkState c' ([] ++ concat chunks.*2))
    ∧ calls c' = calls emptyCluster ++ concat chunks.*1
    ∧ Forall2 (UpdateEntryRun ext) before chunks
    ∧ Forall isUpsertCall (concat chunks.*1).
Proof.
  intros updateMap nrs ext before.
  apply (handleNodeReport_stops_at_a_nil_update_entry ext 1 envelope nrs updateMap
           before [("b", Some (nodeAt "node-b" "1"))] "a" emptyCluster []);
    [reflexivity|reflexivity| | |simpl; lia].
  - vm_compute. reflexivity.
  - repeat constructor. by eexists.
Defined.
